(** * SNOWTAM viewer: block extraction, severity classification, fingerprint

    A shallow embedding of the text engine of [scripts/update_snowtams.py]:
    [extract_text_blocks], [received_to_iso], [snowtam_severity] and
    [stable_hash], with the theorems that settle the properties stated for
    them; then of the code around it: [read_airports_txt], the retry loop of
    [fetch_url], and the airports list and the status record that [main]
    builds.

    Python strings are sequences of Unicode code points; a code point is a
    number of type [N] and a string a list of them.  The Unicode tables the
    interpreter consults ([str.upper], [str.isalnum], the decimal digits of
    [\d]) are not part of the program: they are the fields of the class
    [Unicode], fixed on the ASCII range, and every theorem holds for every
    such table. *)

From Stdlib Require Import List NArith PeanoNat Lia Bool String Ascii.
From Stdlib Require Import DecimalString Sorted.
Import ListNotations.
Local Open Scope N_scope.

(** ** Strings *)

Definition char := N.
Definition str := list char.

(** A string literal of the source, as a list of code points. *)
Definition lit (s : string) : str := map N_of_ascii (list_ascii_of_string s).

Definition NL : str := [10].

Definition str_eqb (a b : str) : bool :=
  if list_eq_dec N.eq_dec a b then true else false.

(** [str.isspace] for one code point: the code points CPython lists in
    [_PyUnicode_IsWhitespace].  [str.strip], [str.split] and the regular
    expression class [\s] all use it. *)
Definition isspace (c : char) : bool :=
  ((9 <=? c) && (c <=? 13)) || ((28 <=? c) && (c <=? 32))
  || (c =? 133) || (c =? 160) || (c =? 5760)
  || ((8192 <=? c) && (c <=? 8202))
  || (c =? 8232) || (c =? 8233) || (c =? 8239) || (c =? 8287) || (c =? 12288).

(** [[0-9]] of the regular expressions: ASCII digits only. *)
Definition is_digit (c : char) : bool := (48 <=? c) && (c <=? 57).

(** [[A-Z0-9]]. *)
Definition is_upper_alnum (c : char) : bool :=
  ((65 <=? c) && (c <=? 90)) || is_digit c.

Fixpoint drop_while (p : char -> bool) (s : str) : str :=
  match s with
  | [] => []
  | c :: s' => if p c then drop_while p s' else s
  end.

Definition lstrip (s : str) : str := drop_while isspace s.
Definition rstrip (s : str) : str := rev (drop_while isspace (rev s)).
Definition strip (s : str) : str := rstrip (lstrip s).

(** [s.startswith(p)]. *)
Fixpoint startswith (p s : str) : bool :=
  match p, s with
  | [], _ => true
  | _ :: _, [] => false
  | a :: p', b :: s' => (a =? b) && startswith p' s'
  end.

(** [s.endswith(p)]. *)
Definition endswith (p s : str) : bool := startswith (rev p) (rev s).

(** [s.find(sub)]: the lowest index at which [sub] occurs, [None] for
    Python's [-1]. *)
Fixpoint find (sub s : str) : option nat :=
  if startswith sub s then Some O
  else match s with
       | [] => None
       | _ :: s' => option_map S (find sub s')
       end.

(** [s.find(sub, start)] for [start <= len(s)]. *)
Definition find_from (sub s : str) (start : nat) : option nat :=
  option_map (fun i => (start + i)%nat) (find sub (skipn start s)).

(** [sub in s]. *)
Definition contains (sub s : str) : bool :=
  match find sub s with Some _ => true | None => false end.

(** [s[a:b]] for [a <= b]. *)
Definition slice (s : str) (a b : nat) : str := firstn (b - a) (skipn a s).

(** [sep.join(parts)]. *)
Fixpoint join (sep : str) (parts : list str) : str :=
  match parts with
  | [] => []
  | [p] => p
  | p :: rest => p ++ sep ++ join sep rest
  end.

(** ** Unicode tables *)

Definition ascii_upper (c : char) : char :=
  if (97 <=? c) && (c <=? 122) then c - 32 else c.

Definition ascii_alnum (c : char) : bool :=
  is_digit c || ((65 <=? c) && (c <=? 90)) || ((97 <=? c) && (c <=? 122)).

Definition ascii_decimal (c : char) : option N :=
  if is_digit c then Some (c - 48) else None.

(** The tables of the interpreter.  [upper_char] is the full uppercase
    mapping [str.upper] applies to each code point on its own (one code
    point may become several); [isalnum] decides [\w] together with the
    underscore; [decimal] is the value of a decimal digit, which [\d]
    accepts and [int] converts. *)
Class Unicode := {
  upper_char : char -> str;
  isalnum : char -> bool;
  decimal : char -> option N
}.

(** What is known of the tables: on ASCII they are what ASCII says, a
    decimal digit has a value below ten and is not white space. *)
Record Lawful (U : Unicode) : Prop := {
  upper_char_ascii : forall c, c < 128 -> upper_char c = [ascii_upper c];
  isalnum_ascii : forall c, c < 128 -> isalnum c = ascii_alnum c;
  decimal_ascii : forall c, c < 128 -> decimal c = ascii_decimal c;
  decimal_range : forall c v, decimal c = Some v -> v < 10;
  decimal_not_space : forall c v, decimal c = Some v -> isspace c = false
}.

(** The tables cut down to ASCII, every other code point left alone: the
    instance concrete inputs are evaluated with. *)
Definition ascii_only_upper (c : char) : str :=
  if c <? 128 then [ascii_upper c] else [c].
Definition ascii_only_alnum (c : char) : bool :=
  if c <? 128 then ascii_alnum c else false.
Definition ascii_only_decimal (c : char) : option N :=
  if c <? 128 then ascii_decimal c else None.

Definition ascii_tables : Unicode := {|
  upper_char := ascii_only_upper;
  isalnum := ascii_only_alnum;
  decimal := ascii_only_decimal
|}.

(** [s.upper()]. *)
Definition upper {U : Unicode} (s : str) : str := flat_map upper_char s.

(** ** Severity classifier *)

(** Matching combinators for the regular expressions of the source.  A
    matcher takes the text at the current position and returns what is left
    after the match.  In every expression of the source a greedy repetition
    is followed by a class disjoint from the repeated one (white space, then
    a digit or a letter), so giving back characters can never help and the
    greedy match below is the backtracking one. *)

(** A literal. *)
Fixpoint expect (p s : str) : option str :=
  match p, s with
  | [], _ => Some s
  | _ :: _, [] => None
  | a :: p', b :: s' => if a =? b then expect p' s' else None
  end.

(** [\s*]. *)
Definition spaces0 (s : str) : str := drop_while isspace s.

(** [\s+]. *)
Definition spaces1 (s : str) : option str :=
  match s with
  | c :: s' => if isspace c then Some (spaces0 s') else None
  | [] => None
  end.

(** [([0-9])] followed by [int] of the group. *)
Definition digit (s : str) : option (N * str) :=
  match s with
  | c :: s' => if is_digit c then Some (c - 48, s') else None
  | [] => None
  end.

Definition bind {A B} (x : option A) (f : A -> option B) : option B :=
  match x with Some a => f a | None => None end.

Notation "x <- e ;; k" := (bind e (fun x => k))
  (at level 61, e at next level, right associativity).
Notation "' p <- e ;; k" := (bind e (fun p => k))
  (at level 61, p pattern, e at next level, right associativity).

(** [SURFACE CONDITION CODE\s+([0-9])\s+([0-9])\s+([0-9])] matched at the
    start of [s]: the three codes and the text after the match. *)
Definition match_codes (s : str) : option (list N * str) :=
  s <- expect (lit "SURFACE CONDITION CODE") s ;;
  s <- spaces1 s ;;
  '(d1, s) <- digit s ;;
  s <- spaces1 s ;;
  '(d2, s) <- digit s ;;
  s <- spaces1 s ;;
  '(d3, s) <- digit s ;;
  Some ([d1; d2; d3], s).

(** The loop over [re.finditer]: matches are taken from left to right and do
    not overlap; [skip] counts the characters of the last match still to be
    passed over.  The result is the list [codes] after the loop. *)
Fixpoint collect_codes (skip : nat) (s : str) : list N :=
  match s with
  | [] => []
  | _ :: s' =>
      match skip with
      | S k => collect_codes k s'
      | O =>
          match match_codes s with
          | Some (ds, rest) =>
              ds ++ collect_codes (List.length s - List.length rest - 1) s'
          | None => collect_codes O s'
          end
      end
  end.

(** [min(codes)] for a non-empty list. *)
Definition list_min (l : list N) : option N :=
  match l with
  | [] => None
  | x :: l' => Some (fold_left N.min l' x)
  end.

(** [str(n)] for a non-negative integer. *)
Definition repr_int (n : N) : str := lit (NilEmpty.string_of_uint (N.to_uint n)).

(** [str(b)] for a boolean. *)
Definition repr_bool (b : bool) : str := if b then lit "True" else lit "False".

Definition closure_indicators : list str :=
  [lit "CLOSED"; lit "CLSD"; lit "RWY CLSD"; lit "RUNWAY CLSD"].

(** The text the keyword scans read: [(raw + "\n" + decode).upper()]. *)
Definition scanned {U : Unicode} (raw decode : str) : str :=
  upper (raw ++ NL ++ decode).

Definition has_poor {U : Unicode} (raw decode : str) : bool :=
  contains (lit " POOR") (scanned raw decode).

Definition codes_of {U : Unicode} (decode : str) : list N :=
  collect_codes O (upper decode).

Definition snowtam_severity {U : Unicode} (raw decode : str) : str * str :=
  if str_eqb (strip raw) [] then (lit "ok", lit "No valid SNOWTAM") else
  let upper := scanned raw decode in
  if existsb (fun k => contains k upper) closure_indicators then
    (lit "red", lit "Runway closed indicator found")
  else if contains (lit "BRAKING ACTION") upper && contains (lit "POOR") upper then
    (lit "red", lit "Braking action POOR")
  else
  let codes := codes_of decode in
  let min_code := list_min codes in
  let has_poor := contains (lit " POOR") upper in
  match min_code with
  | Some min_code =>
      let sev :=
        if min_code <=? 2 then lit "red"
        else if (3 <=? min_code) && (min_code <=? 4) then lit "orange"
        else lit "yellow" in
      let sev := if has_poor && str_eqb sev (lit "yellow") then lit "orange" else sev in
      let summary :=
        lit "minRWYCC=" ++ repr_int min_code ++ lit "; poorAreas=" ++ repr_bool has_poor in
      (sev, summary)
  | None =>
      if has_poor then (lit "orange", lit "Could not parse RWYCC; POOR movement area noted")
      else (lit "yellow", lit "Could not parse RWYCC; SNOWTAM present")
  end.


(** ** Block extractor *)

(** [[0-9]{n}]. *)
Fixpoint digits (n : nat) (s : str) : option str :=
  match n with
  | O => Some s
  | S n' =>
      match s with
      | c :: s' => if is_digit c then digits n' s' else None
      | [] => None
      end
  end.

(** [Received on:\s*([0-9]{4}-[0-9]{2}-[0-9]{2}\s+[0-9]{2}:[0-9]{2}\s+UTC)]
    matched at the start of [s]: the text of group 1. *)
Definition match_received (s : str) : option str :=
  s <- expect (lit "Received on:") s ;;
  let g := spaces0 s in
  s <- digits 4 g ;;
  s <- expect (lit "-") s ;;
  s <- digits 2 s ;;
  s <- expect (lit "-") s ;;
  s <- digits 2 s ;;
  s <- spaces1 s ;;
  s <- digits 2 s ;;
  s <- expect (lit ":") s ;;
  s <- digits 2 s ;;
  s <- spaces1 s ;;
  s <- expect (lit "UTC") s ;;
  Some (firstn (List.length g - List.length s) g).

(** [re.search] of that expression: the leftmost position where it matches. *)
Fixpoint search_received (s : str) : option str :=
  match match_received s with
  | Some g => Some g
  | None =>
      match s with
      | [] => None
      | _ :: s' => search_received s'
      end
  end.

(** The line boundaries of [str.splitlines] other than the pair [\r\n]. *)
Definition is_linebreak (c : char) : bool :=
  ((10 <=? c) && (c <=? 13)) || ((28 <=? c) && (c <=? 30))
  || (c =? 133) || (c =? 8232) || (c =? 8233).

(** [text.splitlines()]; [cur] is the line being read, last character
    first.  A line break at the very end opens no further line. *)
Fixpoint splitlines_from (cur : str) (s : str) : list str :=
  match s with
  | [] => match cur with [] => [] | _ => [rev cur] end
  | c :: s' =>
      if c =? 13 then
        match s' with
        | d :: s'' =>
            if d =? 10 then rev cur :: splitlines_from [] s''
            else rev cur :: splitlines_from [] s'
        | [] => rev cur :: splitlines_from [] s'
        end
      else if is_linebreak c then rev cur :: splitlines_from [] s'
      else splitlines_from (c :: cur) s'
  end.

Definition splitlines (s : str) : list str := splitlines_from [] s.

(** [ln.split()]: the maximal runs of characters that are not white space. *)
Fixpoint split_from (cur : str) (s : str) : list str :=
  match s with
  | [] => match cur with [] => [] | _ => [rev cur] end
  | c :: s' =>
      if isspace c then
        match cur with
        | [] => split_from [] s'
        | _ => rev cur :: split_from [] s'
        end
      else split_from (c :: cur) s'
  end.

Definition split (s : str) : list str := split_from [] s.

(** [\w]. *)
Definition is_word {U : Unicode} (c : char) : bool := isalnum c || (c =? 95).

(** [re.search(r"\bWORD\b", s)] for a word of word characters; [prev] is the
    character in front of the current position. *)
Fixpoint search_word {U : Unicode} (w : str) (prev : option char) (s : str) : bool :=
  let before := match prev with None => true | Some p => negb (is_word p) end in
  let here :=
    match expect w s with
    | Some [] => true
    | Some (c :: _) => negb (is_word c)
    | None => false
    end in
  (before && here) ||
  match s with
  | [] => false
  | c :: s' => search_word w (Some c) s'
  end.

(** [re.fullmatch(r"[A-Z0-9]{4}", tok)]. *)
Definition is_site_code (tok : str) : bool :=
  (List.length tok =? 4)%nat && forallb is_upper_alnum tok.

(** The lines of the page that are not blank, each without its trailing
    white space. *)
Definition nonblank_lines (text : str) : list str :=
  map rstrip (filter (fun ln => negb (str_eqb (strip ln) [])) (splitlines text)).

(** The three tests of the start loop on [lines[i:]], whose head is the
    line [ln]. *)
Definition is_start {U : Unicode} (rest : list str) : bool :=
  match rest with
  | [] => false
  | ln :: _ =>
      (startswith (lit "SW") ln && contains (lit "SNOWTAM") (join (lit " ") (firstn 5 rest)))
      || (startswith (lit "SW") ln && search_word (lit "SNOWTAM") None ln)
      || (startswith (lit "SW") ln && (3 <=? List.length (split ln))%nat
          && match nth_error (split ln) 1 with
             | Some tok => is_site_code tok
             | None => false
             end)
  end.

(** The start loop: the index of the first line that passes. *)
Fixpoint find_start {U : Unicode} (lines : list str) : option nat :=
  match lines with
  | [] => None
  | _ :: rest => if is_start lines then Some O else option_map S (find_start rest)
  end.

Definition decode_heading : str := lit "UNOFFICIAL PLAIN LANGUAGE DECODE".
Definition opposite_heading : str :=
  lit "UNOFFICIAL PLAIN LANGUAGE DECODE OPPOSITE DIRECTION".
Definition voice_marker : str := lit "Select voice:".

(** The collecting loop over [lines[start_idx:]]; [window] is
    [lines[start_idx: start_idx+120]]. *)
Fixpoint collect_raw (window : list str) (ls : list str) : list str :=
  match ls with
  | [] => []
  | ln :: rest =>
      if (endswith (lit ").") (strip ln) || endswith (lit ")") (strip ln))
         && contains decode_heading (join NL window)
      then [ln]
      else ln :: collect_raw window rest
  end.

Definition raw_block {U : Unicode} (text : str) : str :=
  let lines := nonblank_lines text in
  match find_start lines with
  | Some start_idx =>
      strip (join NL (collect_raw (firstn 120 (skipn start_idx lines))
                                  (skipn start_idx lines)))
  | None => []
  end.

Definition slice_between (text head next_head : str) : str :=
  match find head text with
  | None => []
  | Some a =>
      let b := match find_from next_head text (a + List.length head) with
               | Some b => b
               | None => List.length text
               end in
      strip (slice text (a + List.length head) b)
  end.

Definition received_text (text : str) : str :=
  match search_received text with
  | Some g => g
  | None => []
  end.

Record blocks := {
  received : str;
  raw : str;
  decode : str;
  decode2 : str
}.

(** The body of [extract_text_blocks] after the page has been rendered to
    text. *)
Definition blocks_of_text {U : Unicode} (text : str) : blocks :=
  {| received := received_text text;
     raw := raw_block text;
     decode := slice_between text decode_heading opposite_heading;
     decode2 := slice_between text opposite_heading voice_marker |}.

(** What a call gives back: a value, or an exception, kept as the text
    [str(e)] that [main] stores. *)
Inductive answer (A : Type) : Type :=
| Return (a : A)
| Raise (message : str).

Arguments Return {A} a.
Arguments Raise {A} message.

(** [extract_text_blocks]; [get_text] is the text rendering of the HTML
    parser, [BeautifulSoup(html, "html.parser").get_text("\n")], a library
    the program calls.  The parser rejects some markup with an exception;
    nothing in [extract_text_blocks] catches it, so it leaves the
    function. *)
Definition extract_text_blocks {U : Unicode} (get_text : str -> answer str) (html : str)
  : answer blocks :=
  match get_text html with
  | Return text => Return (blocks_of_text text)
  | Raise e => Raise e
  end.

(** Markup that [html.parser] rejects: a document that opens with a marked
    section, [<![], whose name is missing.  The parser's [goahead] sends
    [<!] to [parse_html_declaration], that sends [<![] to
    [parse_marked_section], and there [_scan_name] raises [AssertionError]
    when the next character, not the end of the buffer, is not an ASCII
    letter; BeautifulSoup passes it on as [ParserRejectedMarkup]. *)
Definition rejected_markup (html : str) : bool :=
  match html with
  | 60 :: 33 :: 91 :: c :: _ =>
      negb (((65 <=? c) && (c <=? 90)) || ((97 <=? c) && (c <=? 122)))
  | _ => false
  end.

(** The rendering on the texts used below: rejected markup raises, and a
    text without markup is one text node, which [get_text] gives back as it
    is.  The message stands for the wording of the library's exception, on
    which nothing depends. *)
Definition plain_renderer (html : str) : answer str :=
  if rejected_markup html then Raise (lit "expected name token") else Return html.

(** ** Timestamp parsing *)

(** [datetime.strptime(text, "%Y-%m-%d %H:%M UTC")] belongs to the
    interpreter's library.  It compiles the format to the regular expression
    [(?P<Y>\d\d\d\d)-(?P<m>1[0-2]|0[1-9]|[1-9])-(?P<d>3[0-1]|[1-2]\d|0[1-9]|[1-9]| [1-9])\s+(?P<H>2[0-3]|[0-1]\d|\d):(?P<M>[0-5]\d|\d)\s+UTC],
    case ignored, matches it at the start of the text, refuses text left
    over, and builds the date, which refuses a year 0 and a day the month
    does not have.  The expression has alternatives, so it is modelled with
    the list of all its matches in the order backtracking tries them; the
    match the library takes is the first. *)
Module Strptime.

Definition parser (A : Type) := str -> list (A * str).

Definition ret {A} (a : A) : parser A := fun s => [(a, s)].

Definition seq {A B} (p : parser A) (f : A -> parser B) : parser B :=
  fun s => flat_map (fun '(a, rest) => f a rest) (p s).

Definition alt {A} (p q : parser A) : parser A := fun s => p s ++ q s.

(** One character, with the value [f] gives it. *)
Definition one (f : char -> option N) : parser N :=
  fun s => match s with
           | c :: s' => match f c with Some v => [(v, s')] | None => [] end
           | [] => []
           end.

(** [[lo-hi]] for ASCII digits [lo] and [hi]. *)
Definition range (lo hi : N) : parser N :=
  one (fun c => if (48 + lo <=? c) && (c <=? 48 + hi) then Some (c - 48) else None).

(** [\d]. *)
Definition any_digit {U : Unicode} : parser N := one decimal.

(** One literal character, case ignored. *)
Definition chr (a : char) : parser unit :=
  fun s => match s with
           | c :: s' => if ascii_upper c =? ascii_upper a then [(tt, s')] else []
           | [] => []
           end.

Fixpoint word (w : str) : parser unit :=
  match w with
  | [] => ret tt
  | a :: w' => seq (chr a) (fun _ => word w')
  end.

(** [\s+]: the longest run first, then every shorter one. *)
Fixpoint spaces_star (s : str) : list (unit * str) :=
  match s with
  | c :: s' => if isspace c then spaces_star s' ++ [(tt, s)] else [(tt, s)]
  | [] => [(tt, [])]
  end.

Definition spaces_plus : parser unit :=
  fun s => match s with
           | c :: s' => if isspace c then spaces_star s' else []
           | [] => []
           end.

(** Two digits read as a number. *)
Definition two (p q : parser N) : parser N :=
  seq p (fun a => seq q (fun b => ret (10 * a + b))).

Definition year {U : Unicode} : parser N :=
  seq any_digit (fun a => seq any_digit (fun b => seq any_digit (fun c =>
  seq any_digit (fun d => ret (1000 * a + 100 * b + 10 * c + d))))).

Definition month : parser N :=
  alt (two (range 1 1) (range 0 2)) (alt (two (range 0 0) (range 1 9)) (range 1 9)).

Definition day {U : Unicode} : parser N :=
  alt (two (range 3 3) (range 0 1))
 (alt (two (range 1 2) any_digit)
 (alt (two (range 0 0) (range 1 9))
 (alt (range 1 9)
      (seq (chr 32) (fun _ => range 1 9))))).

Definition hour {U : Unicode} : parser N :=
  alt (two (range 2 2) (range 0 3)) (alt (two (range 0 1) any_digit) any_digit).

Definition minute {U : Unicode} : parser N :=
  alt (two (range 0 5) any_digit) any_digit.

Record datetime := {
  dt_year : N; dt_month : N; dt_day : N; dt_hour : N; dt_minute : N
}.

Definition format {U : Unicode} : parser datetime :=
  seq year (fun Y => seq (chr 45) (fun _ =>
  seq month (fun m => seq (chr 45) (fun _ =>
  seq day (fun d => seq spaces_plus (fun _ =>
  seq hour (fun H => seq (chr 58) (fun _ =>
  seq minute (fun M => seq spaces_plus (fun _ =>
  seq (word (lit "UTC")) (fun _ =>
  ret {| dt_year := Y; dt_month := m; dt_day := d;
         dt_hour := H; dt_minute := M |}))))))))))).

Definition is_leap (y : N) : bool :=
  (y mod 4 =? 0) && (negb (y mod 100 =? 0) || (y mod 400 =? 0)).

Definition days_in_month (y m : N) : N :=
  if m =? 2 then (if is_leap y then 29 else 28)
  else if (m =? 4) || (m =? 6) || (m =? 9) || (m =? 11) then 30
  else 31.

(** The checks of the [datetime] constructor. *)
Definition valid (t : datetime) : bool :=
  (1 <=? dt_year t) && (dt_year t <=? 9999)
  && (1 <=? dt_month t) && (dt_month t <=? 12)
  && (1 <=? dt_day t) && (dt_day t <=? days_in_month (dt_year t) (dt_month t))
  && (dt_hour t <=? 23) && (dt_minute t <=? 59).

(** [strptime]: [None] where the library raises [ValueError]. *)
Definition strptime {U : Unicode} (s : str) : option datetime :=
  match format s with
  | (t, []) :: _ => if valid t then Some t else None
  | _ => None
  end.

End Strptime.

(** [str(n).zfill(width)], the [%0wd] of [isoformat]. *)
Definition zero_pad (width : nat) (n : N) : str :=
  repeat 48 (width - List.length (repr_int n)) ++ repr_int n.

(** [dt.replace(tzinfo=timezone.utc).isoformat()]: seconds are zero and the
    offset of UTC is printed as [+00:00]. *)
Definition isoformat (t : Strptime.datetime) : str :=
  zero_pad 4 (Strptime.dt_year t) ++ lit "-" ++ zero_pad 2 (Strptime.dt_month t)
  ++ lit "-" ++ zero_pad 2 (Strptime.dt_day t) ++ lit "T"
  ++ zero_pad 2 (Strptime.dt_hour t) ++ lit ":" ++ zero_pad 2 (Strptime.dt_minute t)
  ++ lit ":" ++ zero_pad 2 0 ++ lit "+00:00".

(** [s.replace(old, new)] for a non-empty [old]: occurrences are replaced
    from left to right without overlap; [skip] counts the characters of the
    occurrence just replaced. *)
Fixpoint replace_from (skip : nat) (old new s : str) : str :=
  match s with
  | [] => []
  | c :: s' =>
      match skip with
      | S k => replace_from k old new s'
      | O =>
          if startswith old s
          then new ++ replace_from (List.length old - 1) old new s'
          else c :: replace_from O old new s'
      end
  end.

Definition replace (old new s : str) : str := replace_from O old new s.

Definition received_to_iso {U : Unicode} (received_text : str) : option str :=
  if str_eqb received_text [] then None
  else match Strptime.strptime received_text with
       | Some dt => Some (replace (lit "+00:00") (lit "Z") (isoformat dt))
       | None => None
       end.

(** ** Fingerprint *)

(** [hashlib.sha256] is the interpreter's library: SHA-256 of FIPS 180-4 on
    a list of bytes.  Words are numbers below [2^32]. *)
Module Sha256.

Definition word_mask : N := 0xFFFFFFFF.
Definition wrap (x : N) : N := N.land x word_mask.
Definition plus (x y : N) : N := wrap (x + y).
Definition rotr (n x : N) : N := wrap (N.lor (N.shiftr x n) (N.shiftl x (32 - n))).
Definition inv (x : N) : N := N.lxor x word_mask.

Definition ch (x y z : N) : N := N.lxor (N.land x y) (N.land (inv x) z).
Definition maj (x y z : N) : N :=
  N.lxor (N.lxor (N.land x y) (N.land x z)) (N.land y z).
Definition big0 (x : N) : N := N.lxor (N.lxor (rotr 2 x) (rotr 13 x)) (rotr 22 x).
Definition big1 (x : N) : N := N.lxor (N.lxor (rotr 6 x) (rotr 11 x)) (rotr 25 x).
Definition small0 (x : N) : N := N.lxor (N.lxor (rotr 7 x) (rotr 18 x)) (N.shiftr x 3).
Definition small1 (x : N) : N := N.lxor (N.lxor (rotr 17 x) (rotr 19 x)) (N.shiftr x 10).

(** The constants are the leading fractional bits of the square roots of the
    first eight primes and of the cube roots of the first sixty-four. *)
Definition is_prime (n : N) : bool :=
  (2 <=? n) && forallb (fun d => negb (n mod (N.of_nat d) =? 0)) (List.seq 2 (N.to_nat n - 2)).

Definition primes : list N :=
  Eval vm_compute in filter is_prime (map N.of_nat (List.seq 2 310)).

(** The integer cube root, one bit at a time from bit [bits - 1] down. *)
Fixpoint cube_root (bits : nat) (n r : N) : N :=
  match bits with
  | O => r
  | S b =>
      let r' := r + 2 ^ N.of_nat b in
      cube_root b n (if r' * r' * r' <=? n then r' else r)
  end.

Definition initial : list N :=
  Eval vm_compute in map (fun p => wrap (N.sqrt (p * 2 ^ 64))) (firstn 8 primes).

Definition round_constants : list N :=
  Eval vm_compute in map (fun p => wrap (cube_root 36 (p * 2 ^ 96) 0)) primes.

(** Padding: a bit 1, zeros up to 56 modulo 64, the length in bits on eight
    bytes, most significant first. *)
Fixpoint be_bytes (n : nat) (x : N) : list N :=
  match n with
  | O => []
  | S k => N.land (N.shiftr x (8 * N.of_nat k)) 255 :: be_bytes k x
  end.

Definition pad (msg : list N) : list N :=
  let len := List.length msg in
  let zeros := ((64 - (len + 9) mod 64) mod 64)%nat in
  msg ++ [128] ++ repeat 0 zeros ++ be_bytes 8 (8 * N.of_nat len).

Fixpoint be_words (n : nat) (bytes : list N) : list N :=
  match n with
  | O => []
  | S k =>
      match bytes with
      | a :: b :: c :: d :: rest =>
          (N.shiftl a 24 + N.shiftl b 16 + N.shiftl c 8 + d) :: be_words k rest
      | _ => 0 :: be_words k []
      end
  end.

(** The message schedule, newest word first; [w] holds the words so far. *)
Fixpoint schedule (n : nat) (w : list N) : list N :=
  match n with
  | O => w
  | S k =>
      let x := plus (plus (small1 (nth 1 w 0)) (nth 6 w 0))
                    (plus (small0 (nth 14 w 0)) (nth 15 w 0)) in
      schedule k (x :: w)
  end.

Record state := {
  sa : N; sb : N; sc : N; sd : N; se : N; sf : N; sg : N; sh : N
}.

Definition round (s : state) (kw : N * N) : state :=
  let t1 := plus (plus (plus (sh s) (big1 (se s))) (ch (se s) (sf s) (sg s)))
                 (plus (fst kw) (snd kw)) in
  let t2 := plus (big0 (sa s)) (maj (sa s) (sb s) (sc s)) in
  {| sa := plus t1 t2; sb := sa s; sc := sb s; sd := sc s;
     se := plus (sd s) t1; sf := se s; sg := sf s; sh := sg s |}.

Definition compress (s : state) (block : list N) : state :=
  let w := rev (schedule 48 (rev (be_words 16 block))) in
  let r := fold_left round (combine round_constants w) s in
  {| sa := plus (sa s) (sa r); sb := plus (sb s) (sb r);
     sc := plus (sc s) (sc r); sd := plus (sd s) (sd r);
     se := plus (se s) (se r); sf := plus (sf s) (sf r);
     sg := plus (sg s) (sg r); sh := plus (sh s) (sh r) |}.

Fixpoint blocks_loop (n : nat) (s : state) (bytes : list N) : state :=
  match n with
  | O => s
  | S k => blocks_loop k (compress s (firstn 64 bytes)) (skipn 64 bytes)
  end.

Definition start : state :=
  {| sa := nth 0 initial 0; sb := nth 1 initial 0; sc := nth 2 initial 0;
     sd := nth 3 initial 0; se := nth 4 initial 0; sf := nth 5 initial 0;
     sg := nth 6 initial 0; sh := nth 7 initial 0 |}.

Definition words_of (s : state) : list N :=
  [sa s; sb s; sc s; sd s; se s; sf s; sg s; sh s].

(** The digest: thirty-two bytes. *)
Definition digest (msg : list N) : list N :=
  let padded := pad msg in
  flat_map (be_bytes 4) (words_of (blocks_loop (List.length padded / 64) start padded)).

Definition hex_digit (n : N) : char := if n <? 10 then 48 + n else 87 + n.

(** [h.hexdigest()]: two lower-case hexadecimal digits for each byte. *)
Definition hexdigest (msg : list N) : str :=
  flat_map (fun b => [hex_digit (b / 16); hex_digit (b mod 16)]) (digest msg).

End Sha256.

(** [p.encode("utf-8", errors="ignore")] for one code point: a surrogate
    cannot be encoded and is left out. *)
Definition utf8_char (c : char) : list N :=
  if c <? 0x80 then [c]
  else if c <? 0x800 then [0xC0 + c / 64; 0x80 + c mod 64]
  else if (0xD800 <=? c) && (c <=? 0xDFFF) then []
  else if c <? 0x10000 then [0xE0 + c / 4096; 0x80 + (c / 64) mod 64; 0x80 + c mod 64]
  else [0xF0 + c / 262144; 0x80 + (c / 4096) mod 64; 0x80 + (c / 64) mod 64;
        0x80 + c mod 64].

Definition utf8 (s : str) : list N := flat_map utf8_char s.

(** The bytes written after each part: [b"\n---\n"]. *)
Definition separator : list N := [10; 45; 45; 45; 10].

(** The bytes the [update] calls feed to the hash, in order. *)
Definition hashed_bytes (parts : list str) : list N :=
  flat_map (fun p => utf8 p ++ separator) parts.

Definition stable_hash (parts : list str) : str :=
  firstn 16 (Sha256.hexdigest (hashed_bytes parts)).

(** The call in [main]: [stable_hash(raw.strip(), dec.strip(), dec2.strip())]. *)
Definition record_hash (raw dec dec2 : str) : str :=
  stable_hash [strip raw; strip dec; strip dec2].

(** * Properties *)

(** ** Strings *)

Lemma str_eqb_eq a b : str_eqb a b = true <-> a = b.
Proof. unfold str_eqb. destruct (list_eq_dec N.eq_dec a b); split; congruence. Qed.

Lemma str_eqb_neq a b : str_eqb a b = false <-> a <> b.
Proof. unfold str_eqb. destruct (list_eq_dec N.eq_dec a b); split; congruence. Qed.

Lemma startswith_app p t : startswith p (p ++ t) = true.
Proof. induction p as [|a p IH]; simpl; [reflexivity|]. now rewrite N.eqb_refl. Qed.

Lemma startswith_inv p s : startswith p s = true -> exists t, s = p ++ t.
Proof.
  revert s. induction p as [|a p IH]; intros s H; simpl in *.
  - now exists s.
  - destruct s as [|b s]; [discriminate|].
    apply andb_prop in H as [E H]. apply N.eqb_eq in E. subst b.
    destruct (IH _ H) as [t ->]. now exists t.
Qed.

Lemma find_eq sub s :
  find sub s = if startswith sub s then Some O
               else match s with [] => None | _ :: s' => option_map S (find sub s') end.
Proof. destruct s; reflexivity. Qed.

Lemma find_app sub pre suf :
  exists i, find sub (pre ++ sub ++ suf) = Some i /\ (i <= List.length pre)%nat.
Proof.
  induction pre as [|c pre IH]; rewrite find_eq.
  - exists O. simpl. rewrite startswith_app. split; [reflexivity | lia].
  - destruct IH as (i & Hi & Hle). simpl app.
    destruct (startswith sub (c :: pre ++ sub ++ suf)).
    + exists O. split; [reflexivity | simpl; lia].
    + exists (S i). rewrite Hi. split; [reflexivity | simpl; lia].
Qed.

(** What [find] returns is an occurrence, and the first. *)
Lemma find_some sub s i :
  find sub s = Some i ->
  exists pre suf, s = pre ++ sub ++ suf /\ List.length pre = i /\
    forall pre' suf', s = pre' ++ sub ++ suf' -> (i <= List.length pre')%nat.
Proof.
  revert i. induction s as [|c s IH]; intros i H; rewrite find_eq in H.
  - destruct (startswith sub []) eqn:E; [|discriminate]. injection H as <-.
    apply startswith_inv in E as [t E]. exists [], t. repeat split; [exact E|]. intros; lia.
  - destruct (startswith sub (c :: s)) eqn:E.
    + injection H as <-. apply startswith_inv in E as [t E].
      exists [], t. repeat split; [exact E|]. intros; lia.
    + destruct (find sub s) as [j|] eqn:F; [|discriminate]. injection H as <-.
      destruct (IH j eq_refl) as (pre & suf & -> & <- & Hmin).
      exists (c :: pre), suf. repeat split.
      intros pre' suf' E'. destruct pre' as [|c' pre'].
      * simpl in E'. rewrite E', startswith_app in E. discriminate.
      * simpl in E'. injection E' as _ E'. simpl. apply le_n_S. now apply (Hmin pre' suf').
Qed.

Lemma find_none sub s pre suf : find sub s = None -> s <> pre ++ sub ++ suf.
Proof.
  intros H ->. destruct (find_app sub pre suf) as (i & Hi & _). congruence.
Qed.

Lemma contains_iff sub s :
  contains sub s = true <-> exists pre suf, s = pre ++ sub ++ suf.
Proof.
  unfold contains. split.
  - destruct (find sub s) as [i|] eqn:F; [|discriminate]. intros _.
    destruct (find_some _ _ _ F) as (pre & suf & E & _). now exists pre, suf.
  - intros (pre & suf & ->). destruct (find_app sub pre suf) as (i & -> & _). reflexivity.
Qed.

Lemma contains_false sub s :
  contains sub s = false <-> forall pre suf, s <> pre ++ sub ++ suf.
Proof.
  split.
  - intros H pre suf E. assert (contains sub s = true) by (apply contains_iff; eauto). congruence.
  - intros H. destruct (contains sub s) eqn:E; [|reflexivity].
    apply contains_iff in E as (pre & suf & E). now destruct (H pre suf).
Qed.

(** ** White space *)

Lemma drop_while_all p s : forallb p s = true -> drop_while p s = [].
Proof.
  induction s as [|c s IH]; simpl; [reflexivity|].
  intros H. apply andb_prop in H as [-> H]. auto.
Qed.

Lemma drop_while_nil_inv p s : drop_while p s = [] -> forallb p s = true.
Proof.
  induction s as [|c s IH]; simpl; [reflexivity|].
  destruct (p c); [exact IH | discriminate].
Qed.

Lemma drop_while_head p s c t : drop_while p s = c :: t -> p c = false.
Proof.
  induction s as [|d s IH]; simpl; [discriminate|].
  destruct (p d) eqn:E; [exact IH|]. now intros [= <- _].
Qed.

Lemma drop_while_stop p c s : p c = false -> drop_while p (c :: s) = c :: s.
Proof. intros H. simpl. now rewrite H. Qed.

Lemma drop_while_idem p s : drop_while p (drop_while p s) = drop_while p s.
Proof.
  destruct (drop_while p s) as [|c t] eqn:E; [reflexivity|].
  apply drop_while_stop. eapply drop_while_head; eauto.
Qed.

Lemma drop_while_snoc p s c : p c = false -> drop_while p (s ++ [c]) = drop_while p s ++ [c].
Proof.
  intros H. induction s as [|d s IH]; simpl; [now rewrite H|].
  destruct (p d); [exact IH | reflexivity].
Qed.

Lemma drop_while_split p s :
  exists pre, s = pre ++ drop_while p s /\ forallb p pre = true.
Proof.
  induction s as [|c s (pre & E & H)]; simpl.
  - now exists [].
  - destruct (p c) eqn:Ec.
    + exists (c :: pre). simpl. rewrite Ec, H. split; [congruence | reflexivity].
    + now exists [].
Qed.

(** A string is trimmed when stripping leaves it as it is. *)
Definition trimmed (s : str) : Prop := strip s = s.

Lemma rstrip_cons c s : isspace c = false -> exists t, rstrip (c :: s) = c :: t.
Proof.
  intros H. unfold rstrip. simpl rev. rewrite drop_while_snoc by exact H.
  rewrite rev_app_distr. simpl. eauto.
Qed.

Lemma rstrip_idem s : rstrip (rstrip s) = rstrip s.
Proof. unfold rstrip. now rewrite rev_involutive, drop_while_idem. Qed.

Lemma lstrip_rstrip s : lstrip s = s -> lstrip (rstrip s) = rstrip s.
Proof.
  intros H. destruct s as [|c s]; [reflexivity|].
  assert (Hc : isspace c = false).
  { unfold lstrip in H. simpl in H. destruct (isspace c) eqn:E; [|reflexivity].
    exfalso. destruct (drop_while_split isspace s) as (pre & E1 & _).
    rewrite H in E1. apply (f_equal (@List.length _)) in E1.
    rewrite length_app in E1. simpl in E1. lia. }
  destruct (rstrip_cons c s Hc) as [t ->]. now apply drop_while_stop.
Qed.

Lemma strip_trimmed s : trimmed (strip s).
Proof.
  unfold trimmed, strip.
  rewrite (lstrip_rstrip (lstrip s)) by apply drop_while_idem.
  apply rstrip_idem.
Qed.

Lemma strip_blank s : forallb isspace s = true -> strip s = [].
Proof. intros H. unfold strip, lstrip. now rewrite drop_while_all. Qed.

Lemma rstrip_nil_inv s : rstrip s = [] -> forallb isspace s = true.
Proof.
  unfold rstrip. intros H. apply (f_equal (@rev _)) in H. rewrite rev_involutive in H.
  simpl in H. apply drop_while_nil_inv in H. rewrite forallb_forall in *.
  intros x Hx. apply H. now apply in_rev in Hx.
Qed.

Lemma strip_nil_inv s : strip s = [] -> forallb isspace s = true.
Proof.
  unfold strip. intros H. apply rstrip_nil_inv in H.
  destruct (drop_while_split isspace s) as (pre & E & Hpre).
  rewrite E, forallb_app, Hpre. exact H.
Qed.

Lemma rstrip_snoc s d : isspace d = false -> rstrip (s ++ [d]) = s ++ [d].
Proof.
  intros Hd. unfold rstrip. rewrite rev_app_distr. simpl.
  rewrite Hd. simpl. now rewrite rev_involutive.
Qed.

(** A string whose first and last characters are not white space is
    trimmed. *)
Lemma trimmed_ends c m d :
  isspace c = false -> isspace d = false -> trimmed (c :: m ++ [d]).
Proof.
  intros Hc Hd. unfold trimmed, strip, lstrip. rewrite drop_while_stop by exact Hc.
  apply (rstrip_snoc (c :: m) d Hd).
Qed.

Lemma trimmed_single c : isspace c = false -> trimmed [c].
Proof. intros H. unfold trimmed, strip, lstrip, rstrip. simpl. now rewrite H; simpl; rewrite H. Qed.

Lemma trimmed_nil : trimmed [].
Proof. reflexivity. Qed.

(** ** The condition-code expression *)

Lemma expect_app p t : expect p (p ++ t) = Some t.
Proof. induction p as [|a p IH]; simpl; [reflexivity|]. now rewrite N.eqb_refl. Qed.

Lemma expect_inv p s t : expect p s = Some t -> s = p ++ t.
Proof.
  revert s. induction p as [|a p IH]; intros s H; simpl in *.
  - congruence.
  - destruct s as [|b s]; [discriminate|].
    destruct (N.eqb_spec a b); [|discriminate]. subst b. f_equal. auto.
Qed.

(** Settles every comparison of the goal that the hypotheses decide. *)
Ltac settle_comparisons :=
  repeat match goal with
  | |- context [?a <=? ?b] =>
      first [ replace (a <=? b) with true by (symmetry; apply N.leb_le; lia)
            | replace (a <=? b) with false by (symmetry; apply N.leb_gt; lia) ]
  | |- context [?a <? ?b] =>
      first [ replace (a <? b) with true by (symmetry; apply N.ltb_lt; lia)
            | replace (a <? b) with false by (symmetry; apply N.ltb_ge; lia) ]
  | |- context [?a =? ?b] =>
      first [ replace (a =? b) with false by (symmetry; apply N.eqb_neq; lia)
            | replace (a =? b) with true by (symmetry; apply N.eqb_eq; lia) ]
  end.

Lemma is_digit_not_space c : is_digit c = true -> isspace c = false.
Proof.
  unfold is_digit, isspace. intros H. apply andb_prop in H as [H1 H2].
  apply N.leb_le in H1, H2. settle_comparisons. reflexivity.
Qed.

(** A non-empty run of white space. *)
Definition gap (w : str) : Prop := w <> [] /\ forallb isspace w = true.

Lemma drop_while_run p w s :
  forallb p w = true -> drop_while p (w ++ s) = drop_while p s.
Proof.
  induction w as [|a w IH]; simpl; [reflexivity|].
  intros H. apply andb_prop in H as [-> H]. auto.
Qed.

Lemma spaces1_gap w c t :
  gap w -> isspace c = false -> spaces1 (w ++ c :: t) = Some (c :: t).
Proof.
  intros [Hne Hall] Hc. destruct w as [|a w]; [contradiction|].
  simpl in *. apply andb_prop in Hall as [-> Hall]. f_equal.
  unfold spaces0. rewrite drop_while_run by exact Hall. now apply drop_while_stop.
Qed.

Lemma spaces1_inv s t :
  spaces1 s = Some t -> exists w, gap w /\ s = w ++ t /\ drop_while isspace t = t.
Proof.
  destruct s as [|a s]; simpl; [discriminate|].
  destruct (isspace a) eqn:Ea; [|discriminate]. intros [= <-].
  destruct (drop_while_split isspace s) as (pre & E & Hpre).
  exists (a :: pre). repeat split.
  - discriminate.
  - simpl. now rewrite Ea.
  - unfold spaces0. simpl. now f_equal.
  - apply drop_while_idem.
Qed.

Lemma digit_inv s v t :
  digit s = Some (v, t) -> exists c, s = c :: t /\ is_digit c = true /\ v = c - 48.
Proof.
  destruct s as [|c s]; simpl; [discriminate|].
  destruct (is_digit c) eqn:E; [|discriminate]. intros [= <- <-]. eauto.
Qed.

(** The text [s] begins with an occurrence of
    [SURFACE CONDITION CODE <d> <d> <d>] whose digits are [ds], followed by
    [rest]. *)
Definition code_group (ds : list N) (s rest : str) : Prop :=
  exists w1 c1 w2 c2 w3 c3,
    s = lit "SURFACE CONDITION CODE" ++ w1 ++ c1 :: w2 ++ c2 :: w3 ++ c3 :: rest
    /\ gap w1 /\ gap w2 /\ gap w3
    /\ is_digit c1 = true /\ is_digit c2 = true /\ is_digit c3 = true
    /\ ds = [c1 - 48; c2 - 48; c3 - 48].

(** The pattern occurs somewhere in [s]. *)
Definition code_pattern_occurs (s : str) : Prop :=
  exists pre ds t rest, s = pre ++ t /\ code_group ds t rest.

Lemma match_codes_complete ds s rest :
  code_group ds s rest -> match_codes s = Some (ds, rest).
Proof.
  intros (w1 & c1 & w2 & c2 & w3 & c3 & -> & G1 & G2 & G3 & D1 & D2 & D3 & ->).
  unfold match_codes. rewrite expect_app. cbn [bind].
  rewrite (spaces1_gap w1 c1) by auto using is_digit_not_space. cbn [bind digit]. rewrite D1. cbn [bind].
  rewrite (spaces1_gap w2 c2) by auto using is_digit_not_space. cbn [bind digit]. rewrite D2. cbn [bind].
  rewrite (spaces1_gap w3 c3) by auto using is_digit_not_space. cbn [bind digit]. rewrite D3. cbn [bind].
  reflexivity.
Qed.

Lemma match_codes_sound ds s rest :
  match_codes s = Some (ds, rest) -> code_group ds s rest.
Proof.
  unfold match_codes, bind. intros H.
  destruct (expect _ s) as [s0|] eqn:E0; [|discriminate]. apply expect_inv in E0.
  destruct (spaces1 s0) as [s1|] eqn:E1; [|discriminate].
  destruct (digit s1) as [[d1 s2]|] eqn:E2; [|discriminate].
  destruct (spaces1 s2) as [s3|] eqn:E3; [|discriminate].
  destruct (digit s3) as [[d2 s4]|] eqn:E4; [|discriminate].
  destruct (spaces1 s4) as [s5|] eqn:E5; [|discriminate].
  destruct (digit s5) as [[d3 s6]|] eqn:E6; [|discriminate].
  injection H as <- <-.
  apply spaces1_inv in E1 as (w1 & G1 & -> & _), E3 as (w2 & G2 & -> & _),
    E5 as (w3 & G3 & -> & _).
  apply digit_inv in E2 as (c1 & -> & D1 & ->), E4 as (c2 & -> & D2 & ->),
    E6 as (c3 & -> & D3 & ->).
  subst s. exists w1, c1, w2, c2, w3, c3. repeat split; try assumption; first [apply G1 | apply G2 | apply G3].
Qed.

Lemma collect_codes_found pre s ds rest :
  match_codes s = Some (ds, rest) -> ds <> [] -> collect_codes O (pre ++ s) <> [].
Proof.
  intros M Hds. induction pre as [|c pre IH].
  - simpl. destruct s as [|c s]; [discriminate M|]. simpl collect_codes. rewrite M.
    destruct ds; [contradiction | discriminate].
  - simpl. destruct (match_codes (c :: pre ++ s)) as [[ds' rest']|] eqn:M'; [|exact IH].
    apply match_codes_sound in M' as (? & ? & ? & ? & ? & ? & _ & _ & _ & _ & _ & _ & _ & ->).
    discriminate.
Qed.

Lemma collect_codes_origin skip s :
  collect_codes skip s <> [] -> code_pattern_occurs s.
Proof.
  revert skip. induction s as [|c s IH]; intros skip H; [now destruct skip|].
  assert (Hs : code_pattern_occurs s -> code_pattern_occurs (c :: s)).
  { intros (pre & ds & t & rest & -> & G). now exists (c :: pre), ds, t, rest. }
  destruct skip as [|k]; simpl in H; [|eauto].
  destruct (match_codes (c :: s)) as [[ds rest]|] eqn:M; [|eauto].
  exists [], ds, (c :: s), rest. split; [reflexivity | now apply match_codes_sound].
Qed.

(** The loop collects a code exactly when the pattern occurs in the text. *)
Lemma collect_codes_iff s : collect_codes O s <> [] <-> code_pattern_occurs s.
Proof.
  split; [apply collect_codes_origin|].
  intros (pre & ds & t & rest & -> & G).
  apply (collect_codes_found pre t ds rest); [now apply match_codes_complete|].
  destruct G as (? & ? & ? & ? & ? & ? & _ & _ & _ & _ & _ & _ & _ & ->). discriminate.
Qed.

(** Every collected code is a digit. *)
Lemma collect_codes_digits skip s x : In x (collect_codes skip s) -> x <= 9.
Proof.
  revert skip. induction s as [|c s IH]; intros skip H; [now destruct skip|].
  destruct skip as [|k]; simpl in H; [|eauto].
  destruct (match_codes (c :: s)) as [[ds rest]|] eqn:M; [|eauto].
  apply in_app_or in H as [H|H]; [|eauto].
  apply match_codes_sound in M
    as (? & c1 & ? & c2 & ? & c3 & _ & _ & _ & _ & D1 & D2 & D3 & ->).
  unfold is_digit in *. apply andb_prop in D1 as [_ D1], D2 as [_ D2], D3 as [_ D3].
  apply N.leb_le in D1, D2, D3. simpl in H. lia.
Qed.

Lemma fold_min_spec l x :
  let m := fold_left N.min l x in
  In m (x :: l) /\ forall y, In y (x :: l) -> m <= y.
Proof.
  revert x. induction l as [|a l IH]; intros x; simpl.
  - split; [now left|]. intros y [<-|[]]. lia.
  - destruct (IH (N.min x a)) as [Hin Hle]. split.
    + destruct Hin as [Hin|Hin]; [|now right; right].
      rewrite <- Hin. destruct (N.min_spec x a) as [[_ ->]|[_ ->]]; auto.
    + intros y Hy. assert (Hm : fold_left N.min l (N.min x a) <= N.min x a) by (apply Hle; now left).
      destruct Hy as [<-|[<-|Hy]]; [lia | lia | apply Hle; now right].
Qed.

Lemma list_min_spec l m :
  list_min l = Some m -> In m l /\ forall y, In y l -> m <= y.
Proof.
  destruct l as [|x l]; simpl; [discriminate|]. intros [= <-]. apply fold_min_spec.
Qed.

Lemma list_min_some l : l <> [] -> exists m, list_min l = Some m.
Proof. destruct l; [contradiction | simpl; eauto]. Qed.

(** ** The classifier *)

Section Classifier.
Context {U : Unicode}.

(** No closure word is in the scanned text. *)
Definition no_closure (raw decode : str) : Prop :=
  forall k, In k closure_indicators -> contains k (scanned raw decode) = false.

(** Not both [BRAKING ACTION] and [POOR] are in the scanned text. *)
Definition no_poor_braking (raw decode : str) : Prop :=
  ~ (contains (lit "BRAKING ACTION") (scanned raw decode) = true
     /\ contains (lit "POOR") (scanned raw decode) = true).

Lemma no_closure_existsb raw decode :
  no_closure raw decode ->
  existsb (fun k => contains k (scanned raw decode)) closure_indicators = false.
Proof.
  intros H. destruct (existsb _ _) eqn:E; [|reflexivity].
  apply existsb_exists in E as (k & Hk & Ek). rewrite (H k Hk) in Ek. discriminate.
Qed.

Lemma no_poor_braking_andb raw decode :
  no_poor_braking raw decode ->
  contains (lit "BRAKING ACTION") (scanned raw decode)
  && contains (lit "POOR") (scanned raw decode) = false.
Proof.
  intros H. destruct (contains (lit "BRAKING ACTION") _) eqn:E1;
    destruct (contains (lit "POOR") _) eqn:E2; try reflexivity.
  now destruct H.
Qed.

(** Past the three early returns the classifier is its code part. *)
Lemma snowtam_severity_codes raw decode :
  strip raw <> [] -> no_closure raw decode -> no_poor_braking raw decode ->
  snowtam_severity raw decode =
  match list_min (codes_of decode) with
  | Some m =>
      ((if m <=? 2 then lit "red"
        else if (3 <=? m) && (m <=? 4) then lit "orange"
        else if has_poor raw decode then lit "orange" else lit "yellow"),
       lit "minRWYCC=" ++ repr_int m ++ lit "; poorAreas=" ++ repr_bool (has_poor raw decode))
  | None =>
      if has_poor raw decode
      then (lit "orange", lit "Could not parse RWYCC; POOR movement area noted")
      else (lit "yellow", lit "Could not parse RWYCC; SNOWTAM present")
  end.
Proof.
  intros Hraw Hc Hb. unfold snowtam_severity.
  apply str_eqb_neq in Hraw. rewrite Hraw.
  rewrite (no_closure_existsb _ _ Hc), (no_poor_braking_andb _ _ Hb).
  fold (has_poor raw decode).
  destruct (list_min (codes_of decode)) as [m|]; [|reflexivity].
  f_equal. destruct (m <=? 2).
  - now rewrite andb_false_r.
  - destruct ((3 <=? m) && (m <=? 4)).
    + now rewrite andb_false_r.
    + now destruct (has_poor raw decode).
Qed.

End Classifier.

(** C3. A raw block that is empty or all white space gives
    [("ok", "No valid SNOWTAM")], whatever the decode block holds. *)
Theorem blank_raw_is_ok (U : Unicode) (raw decode : str) :
  forallb isspace raw = true ->
  snowtam_severity raw decode = (lit "ok", lit "No valid SNOWTAM").
Proof.
  intros H. unfold snowtam_severity. rewrite (strip_blank _ H). reflexivity.
Qed.

(** C2, amended. When the raw block is not blank and CLSD is in the scanned
    text (raw block, line break, decode block, upper-cased), the result is
    [("red", "Runway closed indicator found")], whatever codes the decode
    block holds. *)
Theorem clsd_is_red (U : Unicode) (raw decode : str) :
  strip raw <> [] ->
  contains (lit "CLSD") (scanned raw decode) = true ->
  snowtam_severity raw decode = (lit "red", lit "Runway closed indicator found").
Proof.
  intros Hraw H. unfold snowtam_severity.
  apply str_eqb_neq in Hraw. rewrite Hraw.
  assert (E : existsb (fun k => contains k (scanned raw decode)) closure_indicators = true).
  { apply existsb_exists. exists (lit "CLSD"). split; [right; now left | exact H]. }
  now rewrite E.
Qed.

Definition sample_raw : str := lit "SWLH0012 LHBP 01090622 (SNOWTAM 0012".
Definition sample_decode : str := lit "Runway 13L surface condition code 5 5 5".

Lemma blank_raw_is_ok_witness :
  forallb isspace (lit "  " ++ NL) = true
  /\ @snowtam_severity ascii_tables (lit "  " ++ NL) (lit "RWY CLSD")
     = (lit "ok", lit "No valid SNOWTAM").
Proof.
  split; [reflexivity|].
  apply (blank_raw_is_ok ascii_tables (lit "  " ++ NL) (lit "RWY CLSD")). reflexivity.
Defined.

(** C2 as stated fails on a blank raw block: CLSD is in the text, the
    result is ok. *)
Lemma clsd_blank_raw_counterexample :
  contains (lit "CLSD") (@upper ascii_tables ([] ++ lit "rwy clsd")) = true
  /\ contains (lit "CLSD") (@scanned ascii_tables [] (lit "rwy clsd")) = true
  /\ @snowtam_severity ascii_tables [] (lit "rwy clsd")
     = (lit "ok", lit "No valid SNOWTAM").
Proof. repeat split; vm_compute; reflexivity. Qed.

Lemma clsd_is_red_witness :
  strip sample_raw <> []
  /\ contains (lit "CLSD") (@scanned ascii_tables sample_raw (lit "rwy Clsd. " ++ sample_decode)) = true
  /\ @snowtam_severity ascii_tables sample_raw (lit "rwy Clsd. " ++ sample_decode)
     = (lit "red", lit "Runway closed indicator found").
Proof.
  assert (H : strip sample_raw <> []) by (vm_compute; discriminate).
  assert (H' : contains (lit "CLSD")
                 (@scanned ascii_tables sample_raw (lit "rwy Clsd. " ++ sample_decode)) = true)
    by (vm_compute; reflexivity).
  split; [exact H | split; [exact H' |]].
  exact (clsd_is_red ascii_tables sample_raw _ H H').
Defined.

(** ** Occurrences and slices *)

(** [sub] occurs in [s] at index [i]. *)
Definition occurs_at (sub s : str) (i : nat) : Prop :=
  exists pre suf, s = pre ++ sub ++ suf /\ List.length pre = i.

(** [i] is the first index from [start] on at which [sub] occurs in [s]. *)
Definition first_at (sub s : str) (start i : nat) : Prop :=
  (start <= i)%nat /\ occurs_at sub s i
  /\ forall j, (start <= j)%nat -> occurs_at sub s j -> (i <= j)%nat.

(** [sub] does not occur in [s] at any index from [start] on. *)
Definition absent_from (sub s : str) (start : nat) : Prop :=
  forall j, (start <= j)%nat -> ~ occurs_at sub s j.

Lemma occurs_at_bound sub s i : occurs_at sub s i -> (i + List.length sub <= List.length s)%nat.
Proof. intros (pre & suf & -> & <-). rewrite !length_app. lia. Qed.

Lemma find_first sub s i : find sub s = Some i <-> first_at sub s 0 i.
Proof.
  split.
  - intros H. destruct (find_some _ _ _ H) as (pre & suf & E & L & Hmin).
    split; [lia|]. split; [now exists pre, suf|].
    intros j _ (pre' & suf' & E' & <-). eauto.
  - intros (_ & (pre & suf & -> & <-) & Hmin).
    destruct (find_app sub pre suf) as (i & Hi & Hle). rewrite Hi. f_equal.
    destruct (find_some _ _ _ Hi) as (pre' & suf' & E' & L' & _).
    assert (List.length pre <= i)%nat by (apply Hmin; [lia | now exists pre', suf']). lia.
Qed.

Lemma find_absent sub s : find sub s = None <-> absent_from sub s 0.
Proof.
  split.
  - intros H j _ (pre & suf & E & _). now apply (find_none _ _ pre suf H).
  - intros H. destruct (find sub s) as [i|] eqn:F; [|reflexivity].
    apply find_first in F as (_ & Hocc & _). now destruct (H i (Nat.le_0_l i)).
Qed.

Lemma occurs_at_skipn sub s start j :
  (start <= List.length s)%nat -> (start <= j)%nat ->
  occurs_at sub s j <-> occurs_at sub (skipn start s) (j - start).
Proof.
  intros Hs Hj. split.
  - intros (pre & suf & -> & <-). exists (skipn start pre), suf. split.
    + rewrite skipn_app. replace (start - List.length pre)%nat with O by lia. reflexivity.
    + now rewrite length_skipn.
  - intros (pre & suf & E & L). exists (firstn start s ++ pre), suf. split.
    + rewrite <- app_assoc, <- E. symmetry. apply firstn_skipn.
    + rewrite length_app, length_firstn. lia.
Qed.

Lemma find_from_first sub s start i :
  (start <= List.length s)%nat ->
  find_from sub s start = Some i <-> first_at sub s start i.
Proof.
  intros Hs. unfold find_from. split.
  - destruct (find sub (skipn start s)) as [k|] eqn:F; [|discriminate].
    intros [= <-]. apply find_first in F as (_ & Hocc & Hmin).
    split; [lia|]. split.
    + apply (occurs_at_skipn sub s start (start + k)); [lia | lia|].
      now replace (start + k - start)%nat with k by lia.
    + intros j Hj Hoj. apply (occurs_at_skipn sub s start j) in Hoj; [|lia|lia].
      apply Hmin in Hoj; lia.
  - intros (Hle & Hocc & Hmin).
    apply (occurs_at_skipn sub s start i) in Hocc; [|lia|lia].
    assert (F : find sub (skipn start s) = Some (i - start)%nat).
    { apply find_first. split; [lia|]. split; [exact Hocc|].
      intros j _ Hoj.
      assert (i <= start + j)%nat; [|lia].
      apply Hmin; [lia|]. apply (occurs_at_skipn sub s start (start + j)); [lia|lia|].
      now replace (start + j - start)%nat with j by lia. }
    rewrite F. simpl. f_equal. lia.
Qed.

Lemma find_from_absent sub s start :
  (start <= List.length s)%nat ->
  find_from sub s start = None <-> absent_from sub s start.
Proof.
  intros Hs. unfold find_from. split.
  - destruct (find sub (skipn start s)) as [k|] eqn:F; [discriminate|]. intros _.
    intros j Hj Hoj. apply (occurs_at_skipn sub s start j) in Hoj; [|lia|lia].
    apply find_absent in F. now apply (F (j - start)%nat (Nat.le_0_l _)).
  - intros H. destruct (find sub (skipn start s)) as [k|] eqn:F; [|reflexivity].
    exfalso. assert (F' : find_from sub s start = Some (start + k)%nat)
      by (unfold find_from; now rewrite F).
    apply find_from_first in F' as (Hle & Hocc & _); [|exact Hs]. now apply (H _ Hle).
Qed.

(** What [slice_between] returns, case by case. *)
Lemma slice_between_spec text head next_head :
  (absent_from head text 0 -> slice_between text head next_head = [])
  /\ (forall a, first_at head text 0 a ->
      (forall b, first_at next_head text (a + List.length head) b ->
         slice_between text head next_head
         = strip (slice text (a + List.length head) b))
      /\ (absent_from next_head text (a + List.length head) ->
          slice_between text head next_head
          = strip (skipn (a + List.length head) text))).
Proof.
  unfold slice_between. split.
  - intros H. apply find_absent in H. now rewrite H.
  - intros a Ha. assert (Hb := occurs_at_bound _ _ _ (proj1 (proj2 Ha))).
    apply find_first in Ha. rewrite Ha. split.
    + intros b Hb'. apply find_from_first in Hb'; [|exact Hb]. now rewrite Hb'.
    + intros Hn. apply find_from_absent in Hn; [|exact Hb]. rewrite Hn.
      unfold slice. f_equal. apply firstn_all2. rewrite length_skipn. lia.
Qed.

Lemma strip_nil_iff s : strip s = [] <-> forallb isspace s = true.
Proof. split; [apply strip_nil_inv | apply strip_blank]. Qed.

(** ** The decode blocks *)

(** C5, amended. The decode block is the trimmed text between the end of the
    first occurrence of the first heading and the first occurrence of the
    second heading that starts at or after that end, or the end of the text
    when there is none; the opposite-direction block is the trimmed text
    between the end of the first occurrence of the second heading and the
    first [Select voice:] after it, or the end of the text; a heading that
    is missing gives an empty block; and a block is empty exactly when the
    text it is cut from is blank. *)
Theorem decode_blocks_are_slices (U : Unicode) (text : str) :
  let b := blocks_of_text text in
  let h1 := List.length decode_heading in
  let h2 := List.length opposite_heading in
  (absent_from decode_heading text 0 -> decode b = [])
  /\ (absent_from opposite_heading text 0 -> decode2 b = [])
  /\ (forall a, first_at decode_heading text 0 a ->
      (forall e, first_at opposite_heading text (a + h1) e ->
         decode b = strip (slice text (a + h1) e)
         /\ (decode b = [] <-> forallb isspace (slice text (a + h1) e) = true))
      /\ (absent_from opposite_heading text (a + h1) ->
          decode b = strip (skipn (a + h1) text)))
  /\ (forall a, first_at opposite_heading text 0 a ->
      (forall e, first_at voice_marker text (a + h2) e ->
         decode2 b = strip (slice text (a + h2) e)
         /\ (decode2 b = [] <-> forallb isspace (slice text (a + h2) e) = true))
      /\ (absent_from voice_marker text (a + h2) ->
          decode2 b = strip (skipn (a + h2) text))).
Proof.
  cbn zeta. unfold blocks_of_text. cbn [decode decode2].
  destruct (slice_between_spec text decode_heading opposite_heading) as [A1 B1].
  destruct (slice_between_spec text opposite_heading voice_marker) as [A2 B2].
  split; [exact A1|]. split; [exact A2|]. split.
  - intros a Ha. destruct (B1 a Ha) as [C D]. split; [|exact D].
    intros e He. rewrite (C e He). split; [reflexivity | apply strip_nil_iff].
  - intros a Ha. destruct (B2 a Ha) as [C D]. split; [|exact D].
    intros e He. rewrite (C e He). split; [reflexivity | apply strip_nil_iff].
Qed.

(** A page with both headings and nothing but line breaks between and
    after them: both blocks are empty. *)
Definition bare_headings : str :=
  decode_heading ++ NL ++ opposite_heading ++ NL ++ voice_marker.

(** C5 as stated fails: both headings are in the text and both blocks are
    empty. *)
Lemma decode_blocks_empty_counterexample :
  contains decode_heading bare_headings = true
  /\ contains opposite_heading bare_headings = true
  /\ @extract_text_blocks ascii_tables plain_renderer bare_headings
     = Return {| received := []; raw := []; decode := []; decode2 := [] |}.
Proof. repeat split; vm_compute; reflexivity. Qed.

Definition sample_page : str :=
  lit "Received on: 2026-01-09 06:32 UTC" ++ NL
  ++ lit "SWLH0012 LHBP 01090622  " ++ NL
  ++ lit "(SNOWTAM 0012" ++ NL
  ++ lit "LHBP 01090612 13L 5/5/5 100/100/100 NR/NR/NR WET/WET/WET)" ++ NL
  ++ decode_heading ++ NL
  ++ lit "Runway 13L surface condition code 5 5 5" ++ NL
  ++ opposite_heading ++ NL
  ++ lit "Runway 31R surface condition code 5 5 5" ++ NL
  ++ voice_marker ++ lit " none".

Lemma decode_blocks_are_slices_witness :
  first_at decode_heading sample_page 0 131
  /\ first_at opposite_heading sample_page (131 + 32) 204
  /\ decode (@blocks_of_text ascii_tables sample_page)
     = lit "Runway 13L surface condition code 5 5 5".
Proof.
  assert (H1 : first_at decode_heading sample_page 0 131)
    by (apply find_first; vm_compute; reflexivity).
  assert (H2 : first_at opposite_heading sample_page (131 + 32) 204)
    by (apply find_from_first; vm_compute; [lia | reflexivity]).
  split; [exact H1 | split; [exact H2|]].
  destruct (decode_blocks_are_slices ascii_tables sample_page) as (_ & _ & D & _).
  destruct (D 131%nat H1) as [D1 _]. destruct (D1 204%nat H2) as [-> _].
  vm_compute. reflexivity.
Defined.

(** ** The four blocks are trimmed *)

Lemma digits_inv n s t :
  digits n s = Some t ->
  exists ds, s = ds ++ t /\ List.length ds = n /\ forallb is_digit ds = true.
Proof.
  revert s. induction n as [|n IH]; intros s H; simpl in H.
  - injection H as <-. now exists [].
  - destruct s as [|c s]; [discriminate|].
    destruct (is_digit c) eqn:E; [|discriminate].
    destruct (IH _ H) as (ds & -> & L & F). exists (c :: ds). simpl.
    rewrite E, F, L. now repeat split.
Qed.

Lemma firstn_prefix (p t : str) : firstn (List.length (p ++ t) - List.length t) (p ++ t) = p.
Proof.
  rewrite length_app. replace (List.length p + List.length t - List.length t)%nat
    with (List.length p) by lia.
  rewrite firstn_app, Nat.sub_diag, firstn_all. simpl. apply app_nil_r.
Qed.

(** The group of the [Received on:] expression begins with a digit and ends
    with the letter C. *)
Lemma match_received_shape s g :
  match_received s = Some g -> exists c m, g = c :: m ++ [67] /\ is_digit c = true.
Proof.
  unfold match_received, bind. intros H.
  destruct (expect _ s) as [s0|]; [|discriminate].
  remember (spaces0 s0) as g0 eqn:Eg. clear Eg.
  destruct (digits 4 g0) as [s1|] eqn:E1; [|discriminate].
  destruct (expect _ s1) as [s2|] eqn:E2; [|discriminate].
  destruct (digits 2 s2) as [s3|] eqn:E3; [|discriminate].
  destruct (expect _ s3) as [s4|] eqn:E4; [|discriminate].
  destruct (digits 2 s4) as [s5|] eqn:E5; [|discriminate].
  destruct (spaces1 s5) as [s6|] eqn:E6; [|discriminate].
  destruct (digits 2 s6) as [s7|] eqn:E7; [|discriminate].
  destruct (expect _ s7) as [s8|] eqn:E8; [|discriminate].
  destruct (digits 2 s8) as [s9|] eqn:E9; [|discriminate].
  destruct (spaces1 s9) as [s10|] eqn:E10; [|discriminate].
  destruct (expect _ s10) as [s11|] eqn:E11; [|discriminate].
  injection H as <-.
  apply digits_inv in E1 as (y & -> & Ly & Fy), E3 as (mo & -> & _ & _),
    E5 as (d & -> & _ & _), E7 as (h & -> & _ & _), E9 as (mi & -> & _ & _).
  apply expect_inv in E2 as ->, E4 as ->, E8 as ->, E11 as ->.
  apply spaces1_inv in E6 as (w1 & _ & -> & _), E10 as (w2 & _ & -> & _).
  destruct y as [|c y]; [discriminate|]. simpl in Fy. apply andb_prop in Fy as [Fc _].
  exists c, (y ++ lit "-" ++ mo ++ lit "-" ++ d ++ w1 ++ h ++ lit ":" ++ mi ++ w2 ++ lit "UT").
  split; [|exact Fc].
  set (p := c :: (y ++ lit "-" ++ mo ++ lit "-" ++ d ++ w1 ++ h ++ lit ":" ++ mi ++ w2 ++ lit "UT") ++ [67]).
  replace ((c :: y) ++ lit "-" ++ mo ++ lit "-" ++ d ++ w1 ++ h ++ lit ":" ++ mi ++ w2 ++ lit "UTC" ++ s11)
    with (p ++ s11).
  - apply firstn_prefix.
  - unfold p. cbn [app]. f_equal. rewrite <- !app_assoc. reflexivity.
Qed.

Lemma search_received_eq s :
  search_received s =
  match match_received s with
  | Some g => Some g
  | None => match s with [] => None | _ :: s' => search_received s' end
  end.
Proof. destruct s; reflexivity. Qed.

Lemma search_received_inv s g :
  search_received s = Some g -> exists pre t, s = pre ++ t /\ match_received t = Some g.
Proof.
  induction s as [|c s IH]; rewrite search_received_eq.
  - destruct (match_received []) eqn:E; [|discriminate]. intros [= <-]. now exists [], [].
  - destruct (match_received (c :: s)) eqn:E.
    + intros [= <-]. now exists [], (c :: s).
    + intros H. destruct (IH H) as (pre & t & -> & M). now exists (c :: pre), t.
Qed.

Lemma search_received_none s :
  (forall pre t, s = pre ++ t -> match_received t = None) -> search_received s = None.
Proof.
  induction s as [|c s IH]; intros H; rewrite search_received_eq.
  - now rewrite (H [] [] eq_refl).
  - rewrite (H [] (c :: s) eq_refl). apply IH.
    intros pre t ->. now apply (H (c :: pre) t).
Qed.

Lemma received_text_trimmed text : trimmed (received_text text).
Proof.
  unfold received_text. destruct (search_received text) as [g|] eqn:E; [|apply trimmed_nil].
  apply search_received_inv in E as (pre & t & _ & M).
  apply match_received_shape in M as (c & m & -> & D).
  apply trimmed_ends; [now apply is_digit_not_space | reflexivity].
Qed.

Lemma slice_between_trimmed text head next_head :
  trimmed (slice_between text head next_head).
Proof.
  unfold slice_between. destruct (find head text); [apply strip_trimmed | apply trimmed_nil].
Qed.

Lemma raw_block_trimmed (U : Unicode) text : trimmed (raw_block text).
Proof.
  unfold raw_block. destruct (find_start _); [apply strip_trimmed | apply trimmed_nil].
Qed.

Lemma find_start_some (U : Unicode) lines i :
  find_start lines = Some i ->
  is_start (skipn i lines) = true
  /\ forall j, (j < i)%nat -> is_start (skipn j lines) = false.
Proof.
  revert i. induction lines as [|ln rest IH]; intros i H; [discriminate|].
  cbn [find_start] in H. destruct (is_start (ln :: rest)) eqn:E.
  - injection H as <-. split; [exact E | intros; lia].
  - destruct (find_start rest) as [k|] eqn:F; [|discriminate]. injection H as <-.
    destruct (IH k eq_refl) as [H1 H2]. split; [exact H1|].
    intros [|j] Hj; [exact E | apply H2; lia].
Qed.

Lemma find_start_none (U : Unicode) lines :
  find_start lines = None <-> forall i, is_start (skipn i lines) = false.
Proof.
  induction lines as [|ln rest IH].
  - split; [|reflexivity]. intros _ i. now destruct i.
  - cbn [find_start]. split.
    + destruct (is_start (ln :: rest)) eqn:E; [discriminate|].
      destruct (find_start rest) eqn:F; [discriminate|]. intros _ [|i]; [exact E|].
      now apply IH.
    + intros H. pose proof (H O) as E. cbn [skipn] in E. rewrite E.
      destruct IH as [_ IH]. rewrite IH; [reflexivity|].
      intros i. exact (H (S i)).
Qed.

(** Neither the first nor the last character of [s] is white space. *)
Definition no_outer_space (s : str) : Prop :=
  (forall c t, s = c :: t -> isspace c = false)
  /\ (forall t c, s = t ++ [c] -> isspace c = false).

Lemma strip_no_outer_space s : no_outer_space (strip s).
Proof.
  unfold strip, lstrip. split.
  - intros c t E. destruct (drop_while isspace s) as [|d u] eqn:D; [discriminate E|].
    pose proof (drop_while_head _ _ _ _ D) as Hd.
    destruct (rstrip_cons d u Hd) as [t' R]. rewrite R in E. now injection E as <- _.
  - intros t c E. unfold rstrip in E.
    apply (f_equal (@rev _)) in E. rewrite rev_involutive, rev_app_distr in E.
    cbn [rev app] in E. exact (drop_while_head _ _ _ _ E).
Qed.

Lemma trimmed_no_outer_space s : trimmed s -> no_outer_space s.
Proof. intros H. rewrite <- H. apply strip_no_outer_space. Qed.

(** C7, amended. For a page the HTML parser renders, [extract_text_blocks]
    returns four strings; each equals its own trimmed form, neither its first
    nor its last character is white space, and each is the empty string
    when its pattern is
    not in the rendered text: no position where the [Received on:]
    expression matches, no line that passes the start test, no occurrence
    of the heading.  For markup the parser rejects, the parser's exception
    leaves [extract_text_blocks]. *)
Theorem extract_blocks_trimmed_or_raises (U : Unicode) (get_text : str -> answer str)
    (html : str) :
  (forall text, get_text html = Return text ->
     exists b, extract_text_blocks get_text html = Return b
       /\ (forall s, In s [received b; raw b; decode b; decode2 b] ->
             strip s = s /\ no_outer_space s)
       /\ ((forall pre t, text = pre ++ t -> match_received t = None) -> received b = [])
       /\ ((forall i, is_start (skipn i (nonblank_lines text)) = false) -> raw b = [])
       /\ (absent_from decode_heading text 0 -> decode b = [])
       /\ (absent_from opposite_heading text 0 -> decode2 b = []))
  /\ (forall e, get_text html = Raise e -> extract_text_blocks get_text html = Raise e).
Proof.
  unfold extract_text_blocks. split.
  - intros text ->. exists (blocks_of_text text). split; [reflexivity|].
    unfold blocks_of_text. cbn [received raw decode decode2].
    split.
    { assert (T : forall s, trimmed s -> strip s = s /\ no_outer_space s)
        by (intros s T; split; [exact T | now apply trimmed_no_outer_space]).
      intros s [<-|[<-|[<-|[<-|[]]]]]; apply T.
      - apply received_text_trimmed.
      - apply raw_block_trimmed.
      - apply slice_between_trimmed.
      - apply slice_between_trimmed. }
    split; [|split; [|split]].
    + intros H. unfold received_text. now rewrite (search_received_none _ H).
    + intros H. apply find_start_none in H. unfold raw_block. now rewrite H.
    + apply slice_between_spec.
    + apply slice_between_spec.
  - now intros e ->.
Qed.

Lemma extract_blocks_trimmed_or_raises_witness :
  plain_renderer sample_page = Return sample_page
  /\ exists b, @extract_text_blocks ascii_tables plain_renderer sample_page = Return b
       /\ received b = lit "2026-01-09 06:32 UTC"
       /\ (forall s, In s [received b; raw b; decode b; decode2 b] ->
             strip s = s /\ no_outer_space s).
Proof.
  assert (R : plain_renderer sample_page = Return sample_page) by (vm_compute; reflexivity).
  split; [exact R|].
  destruct (proj1 (extract_blocks_trimmed_or_raises ascii_tables plain_renderer sample_page)
              sample_page R) as (b & E & T & _).
  exists b. split; [exact E|]. split; [|exact T].
  unfold extract_text_blocks in E. rewrite R in E. injection E as <-.
  vm_compute. reflexivity.
Defined.

(** C7 as stated fails: the parser rejects a marked section without a name,
    and the exception leaves [extract_text_blocks]. *)
Lemma extract_raises_counterexample :
  exists e, @extract_text_blocks ascii_tables plain_renderer (lit "<![ x ]>") = Raise e.
Proof. eexists. vm_compute. reflexivity. Qed.

(** ** The raw block *)

(** An occurrence of [k] in [A ++ c :: B], where [c] is not in [k], lies in
    [A] or in [B]. *)
Lemma prefix_before_sep (k suf A : str) c B :
  k ++ suf = A ++ c :: B -> ~ In c k -> exists suf', A = k ++ suf'.
Proof.
  revert A. induction k as [|x k IH]; intros A E Hc.
  - now exists A.
  - destruct A as [|a A]; simpl in E; injection E as -> E.
    + destruct Hc. now left.
    + destruct (IH A E) as [suf' ->]; [intros H; apply Hc; now right|]. now exists suf'.
Qed.

Lemma occurrence_beside_sep (k pre suf A : str) c B :
  pre ++ k ++ suf = A ++ c :: B -> ~ In c k ->
  (exists suf', A = pre ++ k ++ suf') \/ (exists pre', B = pre' ++ k ++ suf).
Proof.
  revert A. induction pre as [|p pre IH]; intros A E Hc.
  - left. simpl in *. now apply (prefix_before_sep k suf A c B).
  - destruct A as [|a A]; simpl in E; injection E as -> E.
    + right. now exists pre.
    + destruct (IH A E Hc) as [[suf' ->]|R]; [left; now exists suf' | now right].
Qed.

Lemma contains_beside_sep (k A : str) c B :
  ~ In c k -> contains k (A ++ c :: B) = true ->
  contains k A = true \/ contains k B = true.
Proof.
  intros Hc H. apply contains_iff in H as (pre & suf & E). symmetry in E.
  destruct (occurrence_beside_sep k pre suf A c B E Hc) as [[s ->]|[p ->]];
    [left | right]; apply contains_iff; eauto.
Qed.

Lemma contains_app_l k A B : contains k A = true -> contains k (A ++ B) = true.
Proof.
  intros H. apply contains_iff in H as (pre & suf & ->). apply contains_iff.
  exists pre, (suf ++ B). now rewrite <- !app_assoc.
Qed.

Lemma contains_app_r k A B : contains k B = true -> contains k (A ++ B) = true.
Proof.
  intros H. apply contains_iff in H as (pre & suf & ->). apply contains_iff.
  exists (A ++ pre), suf. now rewrite <- !app_assoc.
Qed.

Lemma join_cons sep p q rest : join sep (p :: q :: rest) = p ++ sep ++ join sep (q :: rest).
Proof. reflexivity. Qed.

(** A phrase without a line break that is in the joined lines is in one of
    them. *)
Lemma contains_join_line (k : str) (ls : list str) :
  k <> [] -> ~ In 10 k -> contains k (join NL ls) = true ->
  exists ln, In ln ls /\ contains k ln = true.
Proof.
  intros Hk Hc. induction ls as [|p [|q rest] IH]; intros H.
  - simpl in H. apply contains_iff in H as (pre & suf & E).
    destruct pre; destruct k; try discriminate. contradiction.
  - exists p. split; [now left | exact H].
  - rewrite join_cons in H. unfold NL in H. simpl app in H.
    destruct (contains_beside_sep k p 10 _ Hc H) as [L|R].
    + exists p. split; [now left | exact L].
    + destruct (IH R) as (ln & Hin & Hln). exists ln. split; [now right | exact Hln].
Qed.

Lemma collect_raw_all window ls :
  contains decode_heading (join NL window) = false -> collect_raw window ls = ls.
Proof.
  intros H. induction ls as [|ln rest IH]; simpl; [reflexivity|].
  rewrite H, andb_false_r. now f_equal.
Qed.

Lemma collect_raw_head window ln rest :
  exists t, collect_raw window (ln :: rest) = ln :: t.
Proof. simpl. destruct (_ && _); eauto. Qed.

Lemma is_start_head (U : Unicode) ls :
  is_start ls = true -> exists ln rest t, ls = (83 :: 87 :: t) :: rest /\ ln = 83 :: 87 :: t.
Proof.
  destruct ls as [|ln rest]; [discriminate|]. unfold is_start. intros H.
  assert (S : startswith (lit "SW") ln = true).
  { destruct (startswith (lit "SW") ln); [reflexivity | discriminate H]. }
  apply startswith_inv in S as [t ->]. now exists (lit "SW" ++ t), rest, t.
Qed.

(** Every line of [nonblank_lines] is non-empty and ends with a character
    that is not white space. *)
Lemma nonblank_line_end text ln :
  In ln (nonblank_lines text) -> exists m d, ln = m ++ [d] /\ isspace d = false.
Proof.
  unfold nonblank_lines. intros H. apply in_map_iff in H as (l0 & <- & H).
  apply filter_In in H as [_ H]. apply negb_true_iff, str_eqb_neq in H.
  unfold rstrip. destruct (drop_while isspace (rev l0)) as [|d r] eqn:E.
  - exfalso. apply H, strip_blank. apply drop_while_nil_inv in E.
    rewrite forallb_forall in *. intros x Hx. apply E. now apply in_rev in Hx.
  - exists (rev r), d. split; [reflexivity | eapply drop_while_head; eauto].
Qed.

Lemma join_last sep (ls : list str) m d :
  ls <> [] -> last ls [] = m ++ [d] -> exists m', join sep ls = m' ++ [d].
Proof.
  induction ls as [|p [|q rest] IH]; intros Hne H; [contradiction| |].
  - simpl in *. eauto.
  - rewrite join_cons. destruct IH as [m' E]; [discriminate | exact H|].
    rewrite E. exists (p ++ sep ++ m'). now rewrite <- !app_assoc.
Qed.

Lemma last_in (ls : list str) : ls <> [] -> In (last ls []) ls.
Proof.
  induction ls as [|p [|q rest] IH]; intros H; [contradiction | now left|].
  right. apply IH. discriminate.
Qed.

Lemma in_skipn {A} (x : A) n l : In x (skipn n l) -> In x l.
Proof. intros H. rewrite <- (firstn_skipn n l). apply in_or_app. now right. Qed.

Lemma strip_join_head c u (ls : list str) :
  isspace c = false -> strip (join NL ((c :: u) :: ls)) <> [].
Proof.
  intros Hc. assert (E : exists v, join NL ((c :: u) :: ls) = c :: v).
  { destruct ls; simpl; eauto. }
  destruct E as [v ->]. unfold strip, lstrip. rewrite drop_while_stop by exact Hc.
  destruct (rstrip_cons c v Hc) as [w ->]. discriminate.
Qed.

Lemma strip_fixed (s : str) c u m d :
  s = c :: u -> s = m ++ [d] -> isspace c = false -> isspace d = false -> strip s = s.
Proof.
  intros E1 E2 Hc Hd. unfold strip, lstrip. rewrite E1, drop_while_stop by exact Hc.
  rewrite <- E1, E2. now apply rstrip_snoc.
Qed.

(** C9. When [start] is the first line that passes the start test, the raw
    block is not empty; and when no line among the 120 lines from [start] on
    holds the decode heading, the raw block is all the non-blank lines from
    [start] to the end of the text, joined by line breaks, whatever they end
    with. *)
Theorem raw_block_runs_to_end (U : Unicode) (text : str) (start : nat) :
  is_start (skipn start (nonblank_lines text)) = true ->
  (forall j, (j < start)%nat -> is_start (skipn j (nonblank_lines text)) = false) ->
  raw_block text <> []
  /\ ((forall ln, In ln (firstn 120 (skipn start (nonblank_lines text))) ->
        contains decode_heading ln = false) ->
      raw_block text = join NL (skipn start (nonblank_lines text))).
Proof.
  intros Hs Hmin.
  assert (F : find_start (nonblank_lines text) = Some start).
  { destruct (find_start (nonblank_lines text)) as [i|] eqn:F.
    - destruct (find_start_some U _ _ F) as [H1 H2]. f_equal.
      destruct (Nat.lt_trichotomy i start) as [L|[E|G]]; [|exact E|].
      + rewrite (Hmin i L) in H1. discriminate.
      + rewrite (H2 start G) in Hs. discriminate.
    - apply find_start_none with (i := start) in F. congruence. }
  unfold raw_block. rewrite F.
  set (ls := skipn start (nonblank_lines text)) in *.
  destruct (is_start_head U ls Hs) as (ln & rest & t & Els & Eln).
  split.
  - rewrite Els. cbn [collect_raw].
    destruct (_ && _); now apply strip_join_head.
  - intros Habs.
    assert (W : contains decode_heading (join NL (firstn 120 ls)) = false).
    { destruct (contains decode_heading (join NL (firstn 120 ls))) eqn:C; [|reflexivity].
      apply contains_join_line in C as (l0 & Hin & Hl0).
      - rewrite (Habs l0 Hin) in Hl0. discriminate.
      - discriminate.
      - vm_compute. intuition discriminate. }
    rewrite (collect_raw_all _ _ W).
    assert (Hne : ls <> []) by (rewrite Els; discriminate).
    destruct (nonblank_line_end text (last ls [])) as (m & d & El & Hd).
    { apply (in_skipn _ start). apply last_in. exact Hne. }
    destruct (join_last NL ls m d Hne El) as [m' Ej].
    assert (Eh : exists u, join NL ls = 83 :: u).
    { rewrite Els. destruct rest; simpl; eauto. }
    destruct Eh as [u Eu]. exact (strip_fixed _ 83 u m' d Eu Ej eq_refl Hd).
Qed.

Definition raw_only_page : str :=
  lit "Snow report" ++ NL ++ NL
  ++ lit "SWLH0012 LHBP 01090622  " ++ NL
  ++ lit "(SNOWTAM 0012" ++ NL
  ++ lit "LHBP 01090612 13L 5/5/5 100/100/100 NR/NR/NR WET/WET/WET)" ++ NL
  ++ lit "REMARK TWY A WET" ++ NL.

Lemma raw_block_runs_to_end_witness :
  is_start (U := ascii_tables) (skipn 1 (nonblank_lines raw_only_page)) = true
  /\ @raw_block ascii_tables raw_only_page
     = lit "SWLH0012 LHBP 01090622" ++ NL
       ++ lit "(SNOWTAM 0012" ++ NL
       ++ lit "LHBP 01090612 13L 5/5/5 100/100/100 NR/NR/NR WET/WET/WET)" ++ NL
       ++ lit "REMARK TWY A WET".
Proof.
  assert (H : is_start (U := ascii_tables) (skipn 1 (nonblank_lines raw_only_page)) = true)
    by (vm_compute; reflexivity).
  split; [exact H|].
  destruct (raw_block_runs_to_end ascii_tables raw_only_page 1 H) as [_ E].
  - intros j Hj. assert (j = O) as -> by lia. vm_compute. reflexivity.
  - rewrite E; [vm_compute; reflexivity|].
    assert (A : forallb (fun ln => negb (contains decode_heading ln))
                  (firstn 120 (skipn 1 (nonblank_lines raw_only_page))) = true)
      by (vm_compute; reflexivity).
    intros ln Hln. rewrite forallb_forall in A. apply A in Hln.
    now apply negb_true_iff in Hln.
Defined.

(** ** The fingerprint *)

Definition is_lower_hex (c : char) : bool :=
  is_digit c || ((97 <=? c) && (c <=? 102)).

Lemma hex_digit_lower n : n < 16 -> is_lower_hex (Sha256.hex_digit n) = true.
Proof.
  intros H. unfold Sha256.hex_digit, is_lower_hex, is_digit.
  destruct (N.ltb_spec n 10).
  - replace (48 <=? 48 + n) with true by (symmetry; apply N.leb_le; lia).
    replace (48 + n <=? 57) with true by (symmetry; apply N.leb_le; lia). reflexivity.
  - replace (97 <=? 87 + n) with true by (symmetry; apply N.leb_le; lia).
    replace (87 + n <=? 102) with true by (symmetry; apply N.leb_le; lia).
    apply orb_true_r.
Qed.

Lemma be_bytes_length n x : List.length (Sha256.be_bytes n x) = n.
Proof. induction n; simpl; congruence. Qed.

Lemma be_bytes_range n x b : In b (Sha256.be_bytes n x) -> b < 256.
Proof.
  induction n as [|n IH]; simpl; [contradiction|]. intros [<-|H]; [|auto].
  change 255 with (N.ones 8). rewrite N.land_ones. now apply N.mod_lt.
Qed.

Lemma digest_length msg : List.length (Sha256.digest msg) = 32%nat.
Proof. reflexivity. Qed.

Lemma digest_range msg b : In b (Sha256.digest msg) -> b < 256.
Proof.
  unfold Sha256.digest. intros H. apply in_flat_map in H as (w & _ & H).
  now apply be_bytes_range in H.
Qed.

Lemma hex_pairs_length (bytes : list N) :
  List.length (flat_map (fun b => [Sha256.hex_digit (b / 16); Sha256.hex_digit (b mod 16)]) bytes)
  = (2 * List.length bytes)%nat.
Proof. induction bytes as [|b bytes IH]; simpl; [reflexivity|]. rewrite IH. lia. Qed.

Lemma hexdigest_length msg : List.length (Sha256.hexdigest msg) = 64%nat.
Proof. unfold Sha256.hexdigest. now rewrite hex_pairs_length, digest_length. Qed.

Lemma hexdigest_lower msg : forallb is_lower_hex (Sha256.hexdigest msg) = true.
Proof.
  apply forallb_forall. intros c H. unfold Sha256.hexdigest in H.
  apply in_flat_map in H as (b & Hb & H). apply digest_range in Hb.
  destruct H as [<-|[<-|[]]]; apply hex_digit_lower.
  - apply N.Div0.div_lt_upper_bound. lia.
  - now apply N.mod_lt.
Qed.

Lemma stable_hash_length parts : List.length (stable_hash parts) = 16%nat.
Proof. unfold stable_hash. now rewrite length_firstn, hexdigest_length. Qed.

Lemma stable_hash_lower parts : forallb is_lower_hex (stable_hash parts) = true.
Proof.
  unfold stable_hash. apply forallb_forall. intros c H.
  assert (In c (Sha256.hexdigest (hashed_bytes parts))).
  { rewrite <- (firstn_skipn 16 (Sha256.hexdigest _)). apply in_or_app. now left. }
  pose proof (hexdigest_lower (hashed_bytes parts)) as L.
  rewrite forallb_forall in L. auto.
Qed.

(** C10. For every list of parts, of any length and with any contents, the
    fingerprint is sixteen characters, each a lower-case hexadecimal
    digit. *)
Theorem stable_hash_sixteen_hex (parts : list str) :
  List.length (stable_hash parts) = 16%nat
  /\ forallb is_lower_hex (stable_hash parts) = true.
Proof.
  unfold stable_hash. split.
  - rewrite length_firstn, hexdigest_length. reflexivity.
  - apply forallb_forall. intros c H.
    assert (In c (Sha256.hexdigest (hashed_bytes parts))).
    { rewrite <- (firstn_skipn 16 (Sha256.hexdigest _)). apply in_or_app. now left. }
    pose proof (hexdigest_lower (hashed_bytes parts)) as L.
    rewrite forallb_forall in L. auto.
Qed.

(** The function agrees with the published test vectors of SHA-256. *)
Example sha256_abc :
  Sha256.hexdigest (lit "abc")
  = lit "ba7816bf8f01cfea414140de5dae2223b00361a396177a9cb410ff61f20015ad".
Proof. vm_compute. reflexivity. Qed.

Example sha256_empty :
  Sha256.hexdigest []
  = lit "e3b0c44298fc1c149afbf4c8996fb92427ae41e4649b934ca495991b7852b855".
Proof. vm_compute. reflexivity. Qed.

Example sha256_two_blocks :
  Sha256.hexdigest (lit "abcdbcdecdefdefgefghfghighijhijkijkljklmklmnlmnomnopnopq")
  = lit "248d6a61d20638b8e5c026930c3e6039a33ce45964ff2167f6ecedd419db06c1".
Proof. vm_compute. reflexivity. Qed.

(** A code point that UTF-8 encodes: below [0x110000] and not a surrogate. *)
Definition encodable_char (c : char) : Prop :=
  c < 0x110000 /\ ~ (0xD800 <= c <= 0xDFFF).

Definition encodable (s : str) : Prop := Forall encodable_char s.

(** The four shapes of an encoding. *)
Lemma utf8_char_form c :
  encodable_char c ->
  (c < 128 /\ utf8_char c = [c])
  \/ (128 <= c < 2048 /\ utf8_char c = [192 + c / 64; 128 + c mod 64])
  \/ (2048 <= c < 65536
      /\ utf8_char c = [224 + c / 4096; 128 + (c / 64) mod 64; 128 + c mod 64])
  \/ (65536 <= c < 1114112
      /\ utf8_char c = [240 + c / 262144; 128 + (c / 4096) mod 64;
                        128 + (c / 64) mod 64; 128 + c mod 64]).
Proof.
  intros [Hc Sc]. unfold utf8_char.
  destruct (N.ltb_spec c 128); [left; split; [assumption | reflexivity]|].
  destruct (N.ltb_spec c 2048); [right; left; split; [lia | reflexivity]|].
  destruct (N.leb_spec 55296 c); destruct (N.leb_spec c 57343); cbv [andb]; try lia;
  (destruct (N.ltb_spec c 65536);
   [right; right; left; split; [lia | reflexivity]
   | right; right; right; split; [lia | reflexivity]]).
Qed.

Lemma split_64 a b : a / 64 = b / 64 -> a mod 64 = b mod 64 -> a = b.
Proof.
  intros H1 H2. rewrite (N.div_mod a 64), (N.div_mod b 64) by lia. now rewrite H1, H2.
Qed.

Lemma cons_eq {A} (a b : A) (l m : list A) : a :: l = b :: m -> a = b /\ l = m.
Proof. intros H. now injection H. Qed.

Ltac peel E :=
  repeat match type of E with
         | _ :: _ = _ :: _ => let H := fresh "Hb" in apply cons_eq in E as [H E]
         end.

(** The encodings of two code points do not overlap: the first byte tells
    the length, the bytes tell the code point. *)
Lemma utf8_char_prefix_free c c' (x y : list N) :
  encodable_char c -> encodable_char c' ->
  utf8_char c ++ x = utf8_char c' ++ y -> c = c' /\ x = y.
Proof.
  intros Ec Ec' E.
  pose proof (N.mod_lt c 64 ltac:(lia)). pose proof (N.mod_lt c' 64 ltac:(lia)).
  pose proof (N.mod_lt (c / 64) 64 ltac:(lia)). pose proof (N.mod_lt (c' / 64) 64 ltac:(lia)).
  pose proof (N.mod_lt (c / 4096) 64 ltac:(lia)).
  pose proof (N.mod_lt (c' / 4096) 64 ltac:(lia)).
  assert (B1 : c < 2048 -> c / 64 < 32) by (intros; apply N.Div0.div_lt_upper_bound; lia).
  assert (B1' : c' < 2048 -> c' / 64 < 32) by (intros; apply N.Div0.div_lt_upper_bound; lia).
  assert (B2 : c < 65536 -> c / 4096 < 16) by (intros; apply N.Div0.div_lt_upper_bound; lia).
  assert (B2' : c' < 65536 -> c' / 4096 < 16) by (intros; apply N.Div0.div_lt_upper_bound; lia).
  assert (B3 : c < 1114112 -> c / 262144 < 8) by (intros; apply N.Div0.div_lt_upper_bound; lia).
  assert (B3' : c' < 1114112 -> c' / 262144 < 8) by (intros; apply N.Div0.div_lt_upper_bound; lia).
  pose proof (N.le_0_l (c / 64)). pose proof (N.le_0_l (c' / 64)).
  pose proof (N.le_0_l (c / 4096)). pose proof (N.le_0_l (c' / 4096)).
  pose proof (N.le_0_l (c / 262144)). pose proof (N.le_0_l (c' / 262144)).
  pose proof (N.le_0_l (c mod 64)). pose proof (N.le_0_l (c' mod 64)).
  pose proof (N.le_0_l ((c / 64) mod 64)). pose proof (N.le_0_l ((c' / 64) mod 64)).
  pose proof (N.le_0_l ((c / 4096) mod 64)). pose proof (N.le_0_l ((c' / 4096) mod 64)).
  assert (D1 : c / 4096 = c / 64 / 64) by (now rewrite N.Div0.div_div).
  assert (D1' : c' / 4096 = c' / 64 / 64) by (now rewrite N.Div0.div_div).
  assert (D2 : c / 262144 = c / 4096 / 64) by (now rewrite N.Div0.div_div).
  assert (D2' : c' / 262144 = c' / 4096 / 64) by (now rewrite N.Div0.div_div).
  destruct (utf8_char_form c Ec) as [[R F]|[[R F]|[[R F]|[R F]]]];
  destruct (utf8_char_form c' Ec') as [[R' F']|[[R' F']|[[R' F']|[R' F']]]];
  rewrite F, F' in E; cbv [app] in E; peel E; unfold char in *; try (exfalso; lia).
  - now split.
  - split; [|assumption]. apply split_64; lia.
  - split; [|assumption]. apply split_64; [|lia]. apply split_64; [|lia].
    rewrite <- D1, <- D1'. lia.
  - split; [|assumption]. apply split_64; [|lia]. apply split_64; [|lia].
    rewrite <- D1, <- D1'. apply split_64; [|lia]. rewrite <- D2, <- D2'. lia.
Qed.

Lemma utf8_char_nonempty c : encodable_char c -> utf8_char c <> [].
Proof.
  intros Ec. destruct (utf8_char_form c Ec) as [[_ ->]|[[_ ->]|[[_ ->]|[_ ->]]]]; discriminate.
Qed.

(** UTF-8 is one-to-one on strings of code points it encodes. *)
Lemma utf8_injective s s' : encodable s -> encodable s' -> utf8 s = utf8 s' -> s = s'.
Proof.
  intros Hs. revert s'. induction Hs as [|c s Hc Hs IH]; intros s' Hs' E.
  - destruct Hs' as [|c' s' Hc' _]; [reflexivity|].
    simpl in E. symmetry in E. apply app_eq_nil in E as [E _].
    now apply utf8_char_nonempty in E.
  - destruct Hs' as [|c' s' Hc' Hs'].
    + simpl in E. apply app_eq_nil in E as [E _]. now apply utf8_char_nonempty in E.
    + simpl in E. apply utf8_char_prefix_free in E as [-> E]; [|assumption|assumption].
      f_equal. now apply IH.
Qed.

Lemma hashed_bytes_three a b c :
  hashed_bytes [a; b; c]
  = utf8 a ++ separator ++ utf8 b ++ separator ++ utf8 c ++ separator.
Proof. unfold hashed_bytes. simpl. now rewrite app_nil_r, <- !app_assoc. Qed.

(** C8, amended. The fingerprint of a record is a function of the three
    blocks that depends only on their trimmed contents: it is the first
    sixteen hexadecimal digits of the SHA-256 of the UTF-8 bytes of the
    trimmed blocks, in order, each followed by the separator.  Changing the
    trimmed content of one block, between contents UTF-8 encodes, changes
    the bytes that are hashed. *)
Theorem fingerprint_of_trimmed_blocks (raw dec dec2 : str) :
  record_hash raw dec dec2
  = firstn 16 (Sha256.hexdigest
      (utf8 (strip raw) ++ separator ++ utf8 (strip dec) ++ separator
       ++ utf8 (strip dec2) ++ separator))
  /\ (forall raw' dec' dec2',
        strip raw' = strip raw -> strip dec' = strip dec -> strip dec2' = strip dec2 ->
        record_hash raw' dec' dec2' = record_hash raw dec dec2)
  /\ (forall x, encodable (strip x) -> encodable (strip raw) -> strip x <> strip raw ->
        hashed_bytes [strip x; strip dec; strip dec2]
        <> hashed_bytes [strip raw; strip dec; strip dec2])
  /\ (forall x, encodable (strip x) -> encodable (strip dec) -> strip x <> strip dec ->
        hashed_bytes [strip raw; strip x; strip dec2]
        <> hashed_bytes [strip raw; strip dec; strip dec2])
  /\ (forall x, encodable (strip x) -> encodable (strip dec2) -> strip x <> strip dec2 ->
        hashed_bytes [strip raw; strip dec; strip x]
        <> hashed_bytes [strip raw; strip dec; strip dec2]).
Proof.
  split; [unfold record_hash, stable_hash; now rewrite hashed_bytes_three|].
  split; [intros raw' dec' dec2' E1 E2 E3; unfold record_hash; now rewrite E1, E2, E3|].
  split; [|split]; intros x Hx Hy Hne E; apply Hne; rewrite !hashed_bytes_three in E.
  - apply app_inv_tail in E. now apply utf8_injective.
  - apply app_inv_head in E. apply app_inv_head in E.
    apply app_inv_tail in E. now apply utf8_injective.
  - do 4 apply app_inv_head in E.
    apply app_inv_tail in E. now apply utf8_injective.
Qed.

(** Among the strings [a], [aa], [aaa], ... two have the same image under
    any function into a finite list of values. *)
Lemma collision_in_finite_range (f : nat -> str) (range : list str) :
  (forall n, In (f n) range) -> exists i j, i <> j /\ f i = f j.
Proof.
  intros Hf.
  assert (P : forall ns, NoDup ns ->
            NoDup (map f ns) \/ exists i j, i <> j /\ f i = f j).
  { induction ns as [|n ns IH]; intros Hn; [left; constructor|].
    inversion Hn as [|? ? Hnot Hns]; subst.
    destruct (IH Hns) as [Hd|Hc]; [|now right].
    destruct (in_dec (list_eq_dec N.eq_dec) (f n) (map f ns)) as [Hin|Hout].
    - right. apply in_map_iff in Hin as (j & E & Hj). exists j, n. split; [|exact E].
      intros ->. contradiction.
    - left. simpl. now constructor. }
  destruct (P (List.seq 0 (S (List.length range))) (seq_NoDup _ _)) as [Hd|Hc]; [|exact Hc].
  exfalso. apply NoDup_incl_length with (l' := range) in Hd.
  - rewrite length_map, length_seq in Hd. lia.
  - intros y Hy. apply in_map_iff in Hy as (n & <- & _). apply Hf.
Qed.

(** Every string of [n] lower-case hexadecimal digits. *)
Fixpoint hex_strings (n : nat) : list str :=
  match n with
  | O => [[]]
  | S k => flat_map (fun s => map (fun c => c :: s) (lit "0123456789abcdef")) (hex_strings k)
  end.

Lemma hex_strings_complete s :
  forallb is_lower_hex s = true -> In s (hex_strings (List.length s)).
Proof.
  induction s as [|c s IH]; intros H; [now left|].
  simpl in H. apply andb_prop in H as [Hc Hs]. cbn [List.length hex_strings].
  apply in_flat_map. exists s. split; [auto|].
  apply (in_map (fun d => d :: s) (lit "0123456789abcdef") c).
  unfold is_lower_hex, is_digit in Hc.
  apply orb_prop in Hc as [Hc|Hc]; apply andb_prop in Hc as [H1 H2];
    apply N.leb_le in H1, H2.
  - assert (c = 48 \/ c = 49 \/ c = 50 \/ c = 51 \/ c = 52 \/ c = 53 \/ c = 54
            \/ c = 55 \/ c = 56 \/ c = 57) as Hd by lia.
    repeat (destruct Hd as [->|Hd]; [vm_compute; tauto|]). subst. vm_compute. tauto.
  - assert (c = 97 \/ c = 98 \/ c = 99 \/ c = 100 \/ c = 101 \/ c = 102) as Hd by lia.
    repeat (destruct Hd as [->|Hd]; [vm_compute; tauto|]). subst. vm_compute. tauto.
Qed.

(** Sixteen digits cannot tell all contents apart: two records that differ
    in the raw block alone, with trimmed and encodable contents, have the
    same fingerprint. *)
Lemma fingerprint_collision_exists :
  exists i j, repeat 97 i <> repeat 97 j
    /\ trimmed (repeat 97 i) /\ trimmed (repeat 97 j)
    /\ encodable (repeat 97 i) /\ encodable (repeat 97 j)
    /\ record_hash (repeat 97 i) [] [] = record_hash (repeat 97 j) [] [].
Proof.
  destruct (collision_in_finite_range (fun n => record_hash (repeat 97 n) [] [])
              (hex_strings 16)) as (i & j & Hij & E).
  - intros n. unfold record_hash.
    pose proof (stable_hash_length [strip (repeat 97 n); strip []; strip []]) as L.
    pose proof (stable_hash_lower [strip (repeat 97 n); strip []; strip []]) as H.
    rewrite <- L. now apply hex_strings_complete.
  - exists i, j.
    assert (T : forall n, trimmed (repeat 97 n)).
    { intros [|n]; [reflexivity|]. destruct n as [|n]; [now apply trimmed_single|].
      change (repeat 97 (S (S n))) with (97 :: 97 :: repeat 97 n).
      rewrite (repeat_cons n 97). now apply trimmed_ends. }
    assert (C : forall n, encodable (repeat 97 n)).
    { intros n. apply Forall_forall. intros x Hx. apply repeat_spec in Hx as ->.
      unfold encodable_char. lia. }
    repeat split; auto.
    intros R. apply Hij. apply (f_equal (@List.length _)) in R.
    now rewrite !repeat_length in R.
Qed.

(** C8 as stated fails: a lone surrogate is left out of the bytes, so adding
    one to the raw block changes its trimmed content and not the
    fingerprint; and sixteen digits cannot tell all encodable contents
    apart either. *)
Lemma fingerprint_unchanged_counterexample :
  str_eqb (strip (lit "SWLH0012" ++ [0xD800])) (strip (lit "SWLH0012")) = false
  /\ record_hash (lit "SWLH0012" ++ [0xD800]) (lit "decode") (lit "opposite")
     = record_hash (lit "SWLH0012") (lit "decode") (lit "opposite")
  /\ exists i j, repeat 97 i <> repeat 97 j
       /\ trimmed (repeat 97 i) /\ trimmed (repeat 97 j)
       /\ encodable (repeat 97 i) /\ encodable (repeat 97 j)
       /\ record_hash (repeat 97 i) [] [] = record_hash (repeat 97 j) [] [].
Proof.
  split; [vm_compute; reflexivity|]. split; [vm_compute; reflexivity|].
  exact fingerprint_collision_exists.
Qed.

Lemma fingerprint_of_trimmed_blocks_witness :
  record_hash (lit "  SWLH0012 ") (lit "decode") (lit " opposite")
  = record_hash (lit "SWLH0012") (lit "decode ") (lit "opposite")
  /\ hashed_bytes [strip (lit "SWLH0013"); strip (lit "decode"); strip (lit "opposite")]
     <> hashed_bytes [strip (lit "SWLH0012"); strip (lit "decode"); strip (lit "opposite")].
Proof.
  destruct (fingerprint_of_trimmed_blocks (lit "SWLH0012") (lit "decode ") (lit "opposite"))
    as (_ & Same & Raw & _).
  split.
  - apply Same; vm_compute; reflexivity.
  - apply (Raw (lit "SWLH0013")).
    + apply Forall_forall. intros c Hc. vm_compute in Hc. unfold encodable_char.
      repeat (destruct Hc as [<-|Hc]; [lia|]). contradiction.
    + apply Forall_forall. intros c Hc. vm_compute in Hc. unfold encodable_char.
      repeat (destruct Hc as [<-|Hc]; [lia|]). contradiction.
    + vm_compute. discriminate.
Defined.

(** ** The timestamp *)

Lemma ascii_tables_lawful : Lawful ascii_tables.
Proof.
  split; cbn [upper_char isalnum decimal ascii_tables].
  - intros c H. unfold ascii_only_upper. apply N.ltb_lt in H. now rewrite H.
  - intros c H. unfold ascii_only_alnum. apply N.ltb_lt in H. now rewrite H.
  - intros c H. unfold ascii_only_decimal. apply N.ltb_lt in H. now rewrite H.
  - intros c v. unfold ascii_only_decimal, ascii_decimal, is_digit.
    destruct (c <? 128); [|discriminate].
    destruct (N.leb_spec 48 c); destruct (N.leb_spec c 57); cbn [andb]; try discriminate.
    intros [= <-]. lia.
  - intros c v. unfold ascii_only_decimal, ascii_decimal.
    destruct (c <? 128); [|discriminate].
    destruct (is_digit c) eqn:E; [|discriminate]. intros _. now apply is_digit_not_space.
Defined.

Module StrptimeFacts.
Import Strptime.

(** The class of one digit of the format: an ASCII range or [\d]. *)
Inductive digit_class := Ascii (lo hi : N) | AnyDigit.

(** The character [c] is a digit of class [k] with value [v]. *)
Definition digit_of {U : Unicode} (k : digit_class) (c : char) (v : N) : Prop :=
  match k with
  | Ascii lo hi => c = 48 + v /\ lo <= v /\ v <= hi
  | AnyDigit => decimal c = Some v
  end.

(** Two digits read as a number, and one digit. *)
Definition pair_text {U : Unicode} (k1 k2 : digit_class) (t : str) (v : N) : Prop :=
  exists c1 c2 a b, t = [c1; c2] /\ digit_of k1 c1 a /\ digit_of k2 c2 b /\ v = 10 * a + b.

Definition single_text {U : Unicode} (k : digit_class) (t : str) (v : N) : Prop :=
  exists c, t = [c] /\ digit_of k c v.

(** The texts the fields of the format accept, with their values. *)
Definition year_text {U : Unicode} (t : str) (v : N) : Prop :=
  exists c1 c2 c3 c4 a b c d,
    t = [c1; c2; c3; c4]
    /\ decimal c1 = Some a /\ decimal c2 = Some b /\ decimal c3 = Some c
    /\ decimal c4 = Some d /\ v = 1000 * a + 100 * b + 10 * c + d.

Definition month_text {U : Unicode} (t : str) (v : N) : Prop :=
  pair_text (Ascii 1 1) (Ascii 0 2) t v
  \/ pair_text (Ascii 0 0) (Ascii 1 9) t v
  \/ single_text (Ascii 1 9) t v.

Definition day_text {U : Unicode} (t : str) (v : N) : Prop :=
  pair_text (Ascii 3 3) (Ascii 0 1) t v
  \/ pair_text (Ascii 1 2) AnyDigit t v
  \/ pair_text (Ascii 0 0) (Ascii 1 9) t v
  \/ single_text (Ascii 1 9) t v
  \/ exists t', t = 32 :: t' /\ single_text (Ascii 1 9) t' v.

Definition hour_text {U : Unicode} (t : str) (v : N) : Prop :=
  pair_text (Ascii 2 2) (Ascii 0 3) t v
  \/ pair_text (Ascii 0 1) AnyDigit t v
  \/ single_text AnyDigit t v.

Definition minute_text {U : Unicode} (t : str) (v : N) : Prop :=
  pair_text (Ascii 0 5) AnyDigit t v \/ single_text AnyDigit t v.

(** The letters UTC in any case. *)
Definition utc_text (t : str) : Prop :=
  exists c1 c2 c3, t = [c1; c2; c3]
    /\ ascii_upper c1 = 85 /\ ascii_upper c2 = 84 /\ ascii_upper c3 = 67.

(** The text [s] is a date and time in the layout [strptime] accepts for
    [%Y-%m-%d %H:%M UTC], with the fields of [t], followed by [rest]. *)
Definition accepted_before {U : Unicode} (s : str) (t : datetime) (rest : str) : Prop :=
  exists y mo d w1 h mi w2 u,
    s = y ++ 45 :: mo ++ 45 :: d ++ w1 ++ h ++ 58 :: mi ++ w2 ++ u ++ rest
    /\ year_text y (dt_year t) /\ month_text mo (dt_month t)
    /\ day_text d (dt_day t) /\ gap w1
    /\ hour_text h (dt_hour t) /\ minute_text mi (dt_minute t)
    /\ gap w2 /\ utc_text u.

Definition accepted {U : Unicode} (s : str) (t : datetime) : Prop :=
  accepted_before s t [].

(** The value of one character for a class, as the matchers compute it. *)
Definition value {U : Unicode} (k : digit_class) (c : char) : option N :=
  match k with
  | Ascii lo hi => if (48 + lo <=? c) && (c <=? 48 + hi) then Some (c - 48) else None
  | AnyDigit => decimal c
  end.

Section Facts.
Context {U : Unicode} (HL : Lawful U).

Lemma value_digit_of k c v : value k c = Some v <-> digit_of k c v.
Proof.
  destruct k as [lo hi|]; cbn [value digit_of]; [|reflexivity]. split.
  - destruct ((48 + lo <=? c) && (c <=? 48 + hi)) eqn:E; [|discriminate].
    intros [= <-]. apply andb_prop in E as [E1 E2]. apply N.leb_le in E1, E2. lia.
  - intros (-> & H1 & H2). settle_comparisons. cbn [andb]. f_equal. lia.
Qed.

Lemma decimal_digit v : v < 10 -> decimal (48 + v) = Some v.
Proof.
  intros H. rewrite (decimal_ascii U HL) by lia. unfold ascii_decimal, is_digit.
  settle_comparisons. cbn [andb]. f_equal. lia.
Qed.

(** A character that is not a decimal digit has no value in any class of
    the format. *)
Lemma value_not_digit k c :
  (match k with Ascii _ hi => hi <= 9 | AnyDigit => True end) ->
  decimal c = None -> value k c = None.
Proof.
  destruct k as [lo hi|]; cbn [value]; [|auto]. intros Hhi Hc.
  destruct (N.leb_spec (48 + lo) c); destruct (N.leb_spec c (48 + hi)); cbn [andb]; try reflexivity.
  rewrite <- (N.sub_add 48 c), N.add_comm, decimal_digit in Hc by lia. discriminate.
Qed.

Lemma in_seq {A B} (p : parser A) (f : A -> parser B) s x :
  In x (seq p f s) <-> exists a r, In (a, r) (p s) /\ In x (f a r).
Proof.
  unfold seq. rewrite in_flat_map. split.
  - intros ([a r] & H1 & H2). eauto.
  - intros (a & r & H1 & H2). exists (a, r). auto.
Qed.

Lemma in_one f s v r : In (v, r) (one f s) <-> exists c, s = c :: r /\ f c = Some v.
Proof.
  unfold one. destruct s as [|c s].
  - split; [contradiction | intros (? & ? & _); discriminate].
  - destruct (f c) as [w|] eqn:E; split.
    + intros [H|[]]. injection H as <- <-. eauto.
    + intros (c' & Hs & E'). injection Hs as <- <-. left.
      rewrite E in E'. now injection E' as ->.
    + contradiction.
    + intros (c' & Hs & E'). injection Hs as <- <-. rewrite E in E'. discriminate.
Qed.

Lemma in_two k1 k2 s v r :
  In (v, r) (two (one (value k1)) (one (value k2)) s)
  <-> exists t, s = t ++ r /\ pair_text k1 k2 t v.
Proof.
  unfold two. rewrite in_seq. split.
  - intros (a & r1 & H1 & H2). apply in_seq in H2 as (b & r2 & H2 & H3).
    destruct H3 as [[= <- <-]|[]].
    apply in_one in H1 as (c1 & -> & V1), H2 as (c2 & -> & V2).
    exists [c1; c2]. split; [reflexivity|].
    exists c1, c2, a, b. rewrite <- !value_digit_of. auto.
  - intros (t & -> & c1 & c2 & a & b & -> & D1 & D2 & ->).
    apply value_digit_of in D1, D2.
    exists a, (c2 :: r). split; [apply in_one; exists c1; now split|].
    apply in_seq. exists b, r. split; [apply in_one; exists c2; now split | now left].
Qed.

Lemma in_single k s v r :
  In (v, r) (one (value k) s) <-> exists t, s = t ++ r /\ single_text k t v.
Proof.
  rewrite in_one. split.
  - intros (c & -> & V). exists [c]. split; [reflexivity|].
    exists c. now rewrite <- value_digit_of.
  - intros (t & -> & c & -> & D). exists c. now rewrite value_digit_of.
Qed.

Lemma ascii_upper_fixed c a :
  a < 65 -> ascii_upper c = a -> c = a.
Proof.
  unfold ascii_upper. intros Ha.
  destruct (N.leb_spec 97 c); destruct (N.leb_spec c 122); cbn [andb]; lia.
Qed.

Lemma in_chr a s r :
  In (tt, r) (chr a s) <-> exists c, s = c :: r /\ ascii_upper c = ascii_upper a.
Proof.
  unfold chr. destruct s as [|c s].
  - split; [contradiction | intros (? & ? & _); discriminate].
  - destruct (N.eqb_spec (ascii_upper c) (ascii_upper a)); split.
    + intros [H|[]]. injection H as <-. eauto.
    + intros (c' & Hs & E'). injection Hs as <- <-. now left.
    + contradiction.
    + intros (c' & Hs & E'). injection Hs as <- <-. contradiction.
Qed.

Lemma in_spaces_star s r :
  In (tt, r) (spaces_star s) -> exists w, forallb isspace w = true /\ s = w ++ r.
Proof.
  induction s as [|c s IH]; simpl.
  - intros [[= <-]|[]]. now exists [].
  - destruct (isspace c) eqn:E.
    + intros H. apply in_app_or in H as [H|[[= <-]|[]]]; [|now exists []].
      destruct (IH H) as (w & Hw & ->). exists (c :: w). simpl. now rewrite E, Hw.
    + intros [[= <-]|[]]. now exists [].
Qed.

Lemma in_spaces_plus s r :
  In (tt, r) (spaces_plus s) -> exists w, gap w /\ s = w ++ r.
Proof.
  unfold spaces_plus. destruct s as [|c s]; [contradiction|].
  destruct (isspace c) eqn:E; [|contradiction]. intros H.
  apply in_spaces_star in H as (w & Hw & ->). exists (c :: w).
  split; [|reflexivity]. split; [discriminate|]. simpl. now rewrite E, Hw.
Qed.

Lemma range_is_one lo hi : range lo hi = one (value (Ascii lo hi)).
Proof. reflexivity. Qed.

Lemma any_digit_is_one : any_digit = one (value AnyDigit).
Proof. reflexivity. Qed.

Lemma in_alt {A} (p q : parser A) s x : In x (alt p q s) <-> In x (p s) \/ In x (q s).
Proof. unfold alt. apply in_app_iff. Qed.

Lemma in_month s v r : In (v, r) (month s) -> exists t, s = t ++ r /\ month_text t v.
Proof.
  unfold month, month_text. rewrite !range_is_one, !in_alt, !in_two, in_single.
  intros [(t & E & H)|[(t & E & H)|(t & E & H)]]; exists t; auto.
Qed.

Lemma in_day s v r : In (v, r) (day s) -> exists t, s = t ++ r /\ day_text t v.
Proof.
  unfold day, day_text. rewrite !range_is_one, any_digit_is_one, !in_alt, !in_two, in_single.
  intros [(t & E & H)|[(t & E & H)|[(t & E & H)|[(t & E & H)|H]]]];
    try (exists t; split; [exact E | tauto]).
  apply in_seq in H as ([] & r1 & H1 & H2).
  apply in_chr in H1 as (c & -> & Hc). apply ascii_upper_fixed in Hc; [|reflexivity].
  apply in_single in H2 as (t & -> & H2). subst c.
  exists (32 :: t). split; [reflexivity|]. do 4 right. now exists t.
Qed.

Lemma in_hour s v r : In (v, r) (hour s) -> exists t, s = t ++ r /\ hour_text t v.
Proof.
  unfold hour, hour_text. rewrite !range_is_one, any_digit_is_one, !in_alt, !in_two, in_single.
  intros [(t & E & H)|[(t & E & H)|(t & E & H)]]; exists t; auto.
Qed.

Lemma in_minute s v r : In (v, r) (minute s) -> exists t, s = t ++ r /\ minute_text t v.
Proof.
  unfold minute, minute_text. rewrite !range_is_one, any_digit_is_one, !in_alt, !in_two, in_single.
  intros [(t & E & H)|(t & E & H)]; exists t; auto.
Qed.

Lemma in_ret {A} (a : A) s x : In x (ret a s) <-> x = (a, s).
Proof. unfold ret. simpl. split; [intros [H|[]]; now symmetry | intros ->; now left]. Qed.

Lemma in_year s v r : In (v, r) (year s) -> exists t, s = t ++ r /\ year_text t v.
Proof.
  unfold year. intros H.
  apply in_seq in H as (a & r1 & H1 & H). apply in_seq in H as (b & r2 & H2 & H).
  apply in_seq in H as (c & r3 & H3 & H). apply in_seq in H as (d & r4 & H4 & H).
  apply in_ret in H. injection H as -> ->.
  apply in_one in H1 as (c1 & -> & D1), H2 as (c2 & -> & D2),
    H3 as (c3 & -> & D3), H4 as (c4 & -> & D4).
  exists [c1; c2; c3; c4]. split; [reflexivity|].
  exists c1, c2, c3, c4, a, b, c, d. auto 10.
Qed.

Lemma in_utc s r : In (tt, r) (word (lit "UTC") s) -> exists t, s = t ++ r /\ utc_text t.
Proof.
  change (lit "UTC") with [85; 84; 67]. cbn [word]. intros H.
  apply in_seq in H as ([] & r1 & H1 & H). apply in_seq in H as ([] & r2 & H2 & H).
  apply in_seq in H as ([] & r3 & H3 & H). apply in_ret in H. injection H as ->.
  apply in_chr in H1 as (c1 & -> & E1), H2 as (c2 & -> & E2), H3 as (c3 & -> & E3).
  exists [c1; c2; c3]. split; [reflexivity|]. now exists c1, c2, c3.
Qed.

Lemma in_dash a s r : a < 65 -> In (tt, r) (chr a s) -> s = a :: r.
Proof.
  intros Ha H. apply in_chr in H as (c & -> & E). f_equal.
  apply ascii_upper_fixed; [exact Ha|]. rewrite E. unfold ascii_upper.
  settle_comparisons. reflexivity.
Qed.

(** Every match of the format is a text of the accepted layout. *)
Lemma in_format s t r : In (t, r) (format s) -> accepted_before s t r.
Proof.
  unfold format. intros H.
  apply in_seq in H as (Y & r1 & H1 & H). apply in_seq in H as ([] & r2 & H2 & H).
  apply in_seq in H as (m & r3 & H3 & H). apply in_seq in H as ([] & r4 & H4 & H).
  apply in_seq in H as (d & r5 & H5 & H). apply in_seq in H as ([] & r6 & H6 & H).
  apply in_seq in H as (h & r7 & H7 & H). apply in_seq in H as ([] & r8 & H8 & H).
  apply in_seq in H as (mi & r9 & H9 & H). apply in_seq in H as ([] & r10 & H10 & H).
  apply in_seq in H as ([] & r11 & H11 & H). apply in_ret in H. injection H as -> ->.
  apply in_year in H1 as (ty & -> & Ty). apply in_dash in H2 as ->; [|reflexivity].
  apply in_month in H3 as (tm & -> & Tm). apply in_dash in H4 as ->; [|reflexivity].
  apply in_day in H5 as (td & -> & Td). apply in_spaces_plus in H6 as (w1 & G1 & ->).
  apply in_hour in H7 as (th & -> & Th). apply in_dash in H8 as ->; [|reflexivity].
  apply in_minute in H9 as (tmi & -> & Tmi). apply in_spaces_plus in H10 as (w2 & G2 & ->).
  apply in_utc in H11 as (u & -> & Tu).
  exists ty, tm, td, w1, th, tmi, w2, u. cbn [dt_year dt_month dt_day dt_hour dt_minute].
  repeat split; try assumption; try apply G1; try apply G2.
Qed.

(** The first match of [p] on [s] is [x]. *)
Definition heads {A} (p : parser A) (s : str) (x : A * str) : Prop :=
  exists l, p s = x :: l.

Lemma seq_heads {A B} (p : parser A) (f : A -> parser B) s a r x :
  heads p s (a, r) -> heads (f a) r x -> heads (seq p f) s x.
Proof.
  intros [l E] [l' E']. unfold heads, seq. rewrite E. cbn [flat_map]. rewrite E'.
  eexists. reflexivity.
Qed.

Lemma alt_heads_l {A} (p q : parser A) s x : heads p s x -> heads (alt p q) s x.
Proof. intros [l E]. unfold heads, alt. rewrite E. eexists. reflexivity. Qed.

Lemma alt_heads_r {A} (p q : parser A) s x : p s = [] -> heads q s x -> heads (alt p q) s x.
Proof. intros E [l E']. unfold heads, alt. rewrite E, E'. eexists. reflexivity. Qed.

Lemma ret_heads {A} (a : A) s : heads (ret a) s (a, s).
Proof. now exists []. Qed.

Lemma one_heads f c v r : f c = Some v -> heads (one f) (c :: r) (v, r).
Proof. intros E. exists []. unfold one. now rewrite E. Qed.

Lemma pair_heads k1 k2 t v r :
  pair_text k1 k2 t v -> heads (two (one (value k1)) (one (value k2))) (t ++ r) (v, r).
Proof.
  intros (c1 & c2 & a & b & -> & D1 & D2 & ->). apply value_digit_of in D1, D2.
  unfold two. eapply seq_heads; [apply one_heads; exact D1|].
  eapply seq_heads; [apply one_heads; exact D2|]. apply ret_heads.
Qed.

Lemma single_heads k t v r :
  single_text k t v -> heads (one (value k)) (t ++ r) (v, r).
Proof. intros (c & -> & D). apply value_digit_of in D. now apply one_heads. Qed.

Lemma pair_dead_first k1 k2 c1 s :
  value k1 c1 = None -> two (one (value k1)) (one (value k2)) (c1 :: s) = [].
Proof. intros E. unfold two, seq, one. now rewrite E. Qed.

Lemma pair_dead_second k1 k2 c1 c2 s :
  value k2 c2 = None -> two (one (value k1)) (one (value k2)) (c1 :: c2 :: s) = [].
Proof.
  intros E. unfold two, seq, one. destruct (value k1 c1); [|reflexivity].
  cbn [flat_map]. now rewrite E.
Qed.

Lemma single_dead k c s : value k c = None -> one (value k) (c :: s) = [].
Proof. intros E. unfold one. now rewrite E. Qed.

(** An ASCII digit outside a range has no value in it. *)
Lemma value_miss lo hi lo' hi' c a :
  digit_of (Ascii lo hi) c a -> a < lo' \/ hi' < a -> value (Ascii lo' hi') c = None.
Proof.
  intros (-> & H1 & H2) H. cbn [value].
  destruct (N.leb_spec (48 + lo') (48 + a)); destruct (N.leb_spec (48 + a) (48 + hi'));
    cbn [andb]; try reflexivity; lia.
Qed.

Ltac no_value :=
  match goal with
  | D : digit_of (Ascii _ _) ?c _ |- value _ ?c = None =>
      eapply value_miss; [exact D | cbn [digit_of] in D; lia]
  | |- value _ _ = None => apply value_not_digit; [cbn; lia | assumption]
  end.

Ltac dead_pair :=
  first [ apply pair_dead_first; no_value | apply pair_dead_second; no_value ].

Lemma month_heads t v f r :
  month_text t v -> decimal f = None -> heads month (t ++ f :: r) (v, f :: r).
Proof.
  unfold month. rewrite !range_is_one. intros [P|[P|P]] Hf.
  - apply alt_heads_l. now apply pair_heads.
  - apply alt_heads_r; [|apply alt_heads_l; now apply pair_heads].
    destruct P as (c1 & c2 & a & b & -> & D1 & D2 & ->). cbn [app]. dead_pair.
  - destruct P as (c & -> & D). cbn [app].
    apply alt_heads_r; [dead_pair|]. apply alt_heads_r; [dead_pair|].
    apply one_heads. now apply value_digit_of.
Qed.

Lemma hour_heads t v f r :
  hour_text t v -> decimal f = None -> heads hour (t ++ f :: r) (v, f :: r).
Proof.
  unfold hour. rewrite !range_is_one, any_digit_is_one. intros [P|[P|P]] Hf.
  - apply alt_heads_l. now apply pair_heads.
  - apply alt_heads_r; [|apply alt_heads_l; now apply pair_heads].
    destruct P as (c1 & c2 & a & b & -> & D1 & D2 & ->). cbn [app]. dead_pair.
  - destruct P as (c & -> & D). cbn [app].
    apply alt_heads_r; [dead_pair|]. apply alt_heads_r; [dead_pair|].
    apply one_heads. now apply value_digit_of.
Qed.

Lemma minute_heads t v f r :
  minute_text t v -> decimal f = None -> heads minute (t ++ f :: r) (v, f :: r).
Proof.
  unfold minute. rewrite !range_is_one, any_digit_is_one. intros [P|P] Hf.
  - apply alt_heads_l. now apply pair_heads.
  - destruct P as (c & -> & D). cbn [app].
    apply alt_heads_r; [dead_pair|]. apply one_heads. now apply value_digit_of.
Qed.

Lemma day_heads t v f r :
  day_text t v -> decimal f = None -> heads day (t ++ f :: r) (v, f :: r).
Proof.
  unfold day. rewrite !range_is_one, any_digit_is_one. intros [P|[P|[P|[P|P]]]] Hf.
  - apply alt_heads_l. now apply pair_heads.
  - apply alt_heads_r; [|apply alt_heads_l; now apply pair_heads].
    destruct P as (c1 & c2 & a & b & -> & D1 & D2 & ->). cbn [app]. dead_pair.
  - destruct P as (c1 & c2 & a & b & -> & D1 & D2 & ->). cbn [app].
    apply alt_heads_r; [dead_pair|]. apply alt_heads_r; [dead_pair|].
    apply alt_heads_l. apply (pair_heads (Ascii 0 0) (Ascii 1 9) [c1; c2]).
    now exists c1, c2, a, b.
  - destruct P as (c & -> & D). cbn [app].
    apply alt_heads_r; [dead_pair|]. apply alt_heads_r; [dead_pair|].
    apply alt_heads_r; [dead_pair|]. apply alt_heads_l.
    apply one_heads. now apply value_digit_of.
  - destruct P as (t' & -> & c & -> & D). cbn [app].
    assert (S : forall lo hi, value (Ascii lo hi) 32 = None).
    { intros lo hi. cbn [value]. destruct (N.leb_spec (48 + lo) 32); [lia | reflexivity]. }
    apply alt_heads_r; [apply pair_dead_first, S|].
    apply alt_heads_r; [apply pair_dead_first, S|].
    apply alt_heads_r; [apply pair_dead_first, S|].
    apply alt_heads_r; [apply single_dead, S|].
    eapply seq_heads; [exists []; reflexivity|].
    apply one_heads. now apply value_digit_of.
Qed.

Lemma year_heads t v r : year_text t v -> heads year (t ++ r) (v, r).
Proof.
  intros (c1 & c2 & c3 & c4 & a & b & c & d & -> & D1 & D2 & D3 & D4 & ->).
  unfold year, any_digit.
  eapply seq_heads; [apply one_heads; exact D1|].
  eapply seq_heads; [apply one_heads; exact D2|].
  eapply seq_heads; [apply one_heads; exact D3|].
  eapply seq_heads; [apply one_heads; exact D4|]. apply ret_heads.
Qed.

Lemma chr_heads a c r : ascii_upper c = ascii_upper a -> heads (chr a) (c :: r) (tt, r).
Proof. intros E. exists []. unfold chr. apply N.eqb_eq in E. now rewrite E. Qed.

Lemma utc_heads t r : utc_text t -> heads (word (lit "UTC")) (t ++ r) (tt, r).
Proof.
  intros (c1 & c2 & c3 & -> & E1 & E2 & E3).
  change (lit "UTC") with [85; 84; 67]. cbn [word app].
  eapply seq_heads; [apply chr_heads; exact E1|].
  eapply seq_heads; [apply chr_heads; exact E2|].
  eapply seq_heads; [apply chr_heads; exact E3|]. apply ret_heads.
Qed.

Lemma spaces_star_heads w f r :
  forallb isspace w = true -> isspace f = false ->
  heads spaces_star (w ++ f :: r) (tt, f :: r).
Proof.
  intros Hw Hf. unfold heads. induction w as [|a w IH]; cbn [app spaces_star].
  - rewrite Hf. now exists [].
  - simpl in Hw. apply andb_prop in Hw as [-> Hw]. destruct (IH Hw) as [l ->].
    eexists. reflexivity.
Qed.

Lemma spaces_plus_heads w f r :
  gap w -> isspace f = false -> heads spaces_plus (w ++ f :: r) (tt, f :: r).
Proof.
  intros [Hne Hw] Hf. destruct w as [|a w]; [contradiction|].
  simpl in Hw. apply andb_prop in Hw as [Ha Hw]. unfold heads, spaces_plus.
  cbn [app]. rewrite Ha. now apply spaces_star_heads.
Qed.

(** The classes of the format are ranges of digits. *)
Definition plain (k : digit_class) : Prop :=
  match k with Ascii _ hi => hi <= 9 | AnyDigit => True end.

Lemma digit_not_space k c v : plain k -> digit_of k c v -> isspace c = false.
Proof.
  destruct k as [lo hi|]; cbn [plain digit_of].
  - intros Hhi (-> & H1 & H2). apply is_digit_not_space. unfold is_digit.
    settle_comparisons. reflexivity.
  - intros _ H. exact (decimal_not_space U HL c v H).
Qed.

Lemma pair_text_head k1 k2 t v :
  plain k1 -> pair_text k1 k2 t v -> exists c t', t = c :: t' /\ isspace c = false.
Proof.
  intros Hk (c1 & c2 & a & b & -> & D1 & _). exists c1, [c2].
  split; [reflexivity | eapply digit_not_space; eauto].
Qed.

Lemma single_text_head k t v :
  plain k -> single_text k t v -> exists c t', t = c :: t' /\ isspace c = false.
Proof.
  intros Hk (c & -> & D). exists c, []. split; [reflexivity | eapply digit_not_space; eauto].
Qed.

Lemma hour_text_head t v : hour_text t v -> exists c t', t = c :: t' /\ isspace c = false.
Proof.
  intros [P|[P|P]];
    [eapply pair_text_head | eapply pair_text_head | eapply single_text_head];
    try exact P; cbn; try lia; exact I.
Qed.

Lemma utc_text_head t : utc_text t -> exists c t', t = c :: t' /\ isspace c = false.
Proof.
  intros (c1 & c2 & c3 & -> & E1 & _). exists c1, [c2; c3]. split; [reflexivity|].
  unfold ascii_upper in E1.
  destruct (N.leb_spec 97 c1); destruct (N.leb_spec c1 122); cbn [andb] in E1;
    first [ assert (c1 = 117) as -> by lia | assert (c1 = 85) as -> by lia ]; reflexivity.
Qed.

Lemma space_not_decimal c : isspace c = true -> decimal c = None.
Proof.
  intros H. destruct (decimal c) as [v|] eqn:E; [|reflexivity].
  rewrite (decimal_not_space U HL c v E) in H. discriminate.
Qed.

Lemma gap_head w : gap w -> exists a w', w = a :: w' /\ decimal a = None.
Proof.
  intros [Hne Hw]. destruct w as [|a w]; [contradiction|]. exists a, w.
  split; [reflexivity|]. simpl in Hw. apply andb_prop in Hw as [Ha _].
  now apply space_not_decimal.
Qed.

Lemma ascii_not_decimal c : c < 48 \/ 57 < c < 128 -> decimal c = None.
Proof.
  intros H. rewrite (decimal_ascii U HL) by lia. unfold ascii_decimal, is_digit.
  destruct (N.leb_spec 48 c); destruct (N.leb_spec c 57); cbn [andb]; try reflexivity; lia.
Qed.

(** The first match of the format on an accepted text is that text. *)
Lemma format_heads s t rest : accepted_before s t rest -> heads format s (t, rest).
Proof.
  intros (y & mo & d & w1 & h & mi & w2 & u & -> & Ty & Tm & Td & G1 & Th & Tmi & G2 & Tu).
  destruct (gap_head w1 G1) as (a1 & w1' & -> & Ha1).
  destruct (gap_head w2 G2) as (a2 & w2' & -> & Ha2).
  destruct (hour_text_head h _ Th) as (ch & h' & -> & Hch).
  destruct (utc_text_head u Tu) as (cu & u' & -> & Hcu).
  unfold format. cbn [app].
  eapply seq_heads; [apply year_heads; exact Ty|].
  eapply seq_heads; [apply chr_heads; reflexivity|].
  eapply seq_heads; [apply month_heads; [exact Tm | apply ascii_not_decimal; lia]|].
  eapply seq_heads; [apply chr_heads; reflexivity|].
  eapply seq_heads; [apply day_heads; [exact Td | exact Ha1]|].
  eapply seq_heads; [apply (spaces_plus_heads (a1 :: w1') ch); [exact G1 | exact Hch]|].
  eapply seq_heads;
    [apply (hour_heads (ch :: h') _ 58); [exact Th | apply ascii_not_decimal; lia]|].
  eapply seq_heads; [apply chr_heads; reflexivity|].
  eapply seq_heads; [apply minute_heads; [exact Tmi | exact Ha2]|].
  eapply seq_heads; [apply (spaces_plus_heads (a2 :: w2') cu); [exact G2 | exact Hcu]|].
  eapply seq_heads; [apply (utc_heads (cu :: u')); exact Tu|].
  destruct t. apply ret_heads.
Qed.

(** [strptime] accepts exactly the texts of the accepted layout whose
    fields are a date and a time that exist. *)
Lemma strptime_spec s t : strptime s = Some t <-> accepted s t /\ valid t = true.
Proof.
  unfold strptime, accepted. split.
  - destruct (format s) as [|[t' [|c r]] l] eqn:E; try discriminate.
    destruct (valid t') eqn:V; [|discriminate]. intros [= <-].
    split; [|exact V]. apply in_format. rewrite E. now left.
  - intros [A V]. destruct (format_heads s t [] A) as [l ->]. now rewrite V.
Qed.

End Facts.
End StrptimeFacts.

(** *** [received_to_iso] *)

Lemma lit_cons a s : lit (String a s) = N_of_ascii a :: lit s.
Proof. reflexivity. Qed.

(** The decimal digits of a number are ASCII digits. *)
Lemma repr_int_digits n : forallb is_digit (repr_int n) = true.
Proof.
  unfold repr_int. generalize (N.to_uint n). intros d.
  induction d; cbn [NilEmpty.string_of_uint]; rewrite ?lit_cons; cbn [forallb];
    rewrite ?IHd; reflexivity.
Qed.

Lemma zero_pad_digits w n : forallb is_digit (zero_pad w n) = true.
Proof.
  unfold zero_pad. rewrite forallb_app, repr_int_digits, andb_true_r.
  apply forallb_forall. intros c H. apply repeat_spec in H as ->. reflexivity.
Qed.

Lemma replace_offset_suffix x :
  forallb (fun c => negb (c =? 43)) x = true ->
  replace (lit "+00:00") (lit "Z") (x ++ lit "+00:00") = x ++ lit "Z".
Proof.
  unfold replace. induction x as [|c x IH]; intros H; [reflexivity|].
  cbn [forallb] in H. apply andb_prop in H as [Hc Hx].
  apply negb_true_iff in Hc. change ((c :: x) ++ lit "+00:00") with (c :: x ++ lit "+00:00").
  cbn [replace_from].
  replace (startswith (lit "+00:00") (c :: x ++ lit "+00:00")) with false.
  - cbn [app]. f_equal. now apply IH.
  - change (lit "+00:00") with (43 :: lit "00:00"). cbn [startswith].
    rewrite N.eqb_sym, Hc. reflexivity.
Qed.

(** The timestamp printed for a date and time: [YYYY-MM-DDTHH:MM:00Z]. *)
Definition stamp (t : Strptime.datetime) : str :=
  zero_pad 4 (Strptime.dt_year t) ++ lit "-" ++ zero_pad 2 (Strptime.dt_month t)
  ++ lit "-" ++ zero_pad 2 (Strptime.dt_day t) ++ lit "T"
  ++ zero_pad 2 (Strptime.dt_hour t) ++ lit ":" ++ zero_pad 2 (Strptime.dt_minute t)
  ++ lit ":00Z".

Lemma digits_no_plus x : forallb is_digit x = true -> forallb (fun c => negb (c =? 43)) x = true.
Proof.
  intros H. apply forallb_forall. intros c Hc. rewrite forallb_forall in H.
  apply H in Hc. unfold is_digit in Hc. apply andb_prop in Hc as [Hc _].
  apply N.leb_le in Hc. apply negb_true_iff, N.eqb_neq. lia.
Qed.

Lemma isoformat_replaced t : replace (lit "+00:00") (lit "Z") (isoformat t) = stamp t.
Proof.
  unfold isoformat, stamp.
  set (y := zero_pad 4 (Strptime.dt_year t)). set (m := zero_pad 2 (Strptime.dt_month t)).
  set (d := zero_pad 2 (Strptime.dt_day t)). set (h := zero_pad 2 (Strptime.dt_hour t)).
  set (mi := zero_pad 2 (Strptime.dt_minute t)).
  replace (y ++ lit "-" ++ m ++ lit "-" ++ d ++ lit "T" ++ h ++ lit ":" ++ mi
           ++ lit ":" ++ zero_pad 2 0 ++ lit "+00:00")
    with ((y ++ lit "-" ++ m ++ lit "-" ++ d ++ lit "T" ++ h ++ lit ":" ++ mi ++ lit ":00")
          ++ lit "+00:00")
    by (rewrite <- !app_assoc; reflexivity).
  rewrite replace_offset_suffix.
  - rewrite <- !app_assoc. reflexivity.
  - rewrite !forallb_app. unfold y, m, d, h, mi.
    rewrite !(digits_no_plus _ (zero_pad_digits _ _)). reflexivity.
Qed.

(** What [received_to_iso] returns, from what [strptime] returns. *)
Lemma received_to_iso_some (U : Unicode) (s t : str) :
  received_to_iso s = Some t
  <-> s <> [] /\ exists dt, Strptime.strptime s = Some dt /\ t = stamp dt.
Proof.
  unfold received_to_iso. destruct (str_eqb s []) eqn:E.
  - apply str_eqb_eq in E. split; [discriminate | now intros [H _]].
  - apply str_eqb_neq in E.
    destruct (Strptime.strptime s) as [dt|]; rewrite ?isoformat_replaced.
    + split; [intros [= <-]; eauto | now intros (_ & dt' & [= <-] & ->)].
    + split; [discriminate | now intros (_ & dt' & H & _)].
Qed.

Lemma accepted_nonempty (U : Unicode) s dt : StrptimeFacts.accepted s dt -> s <> [].
Proof.
  intros (y & ? & ? & ? & ? & ? & ? & ? & -> & (? & ? & ? & ? & ? & ? & ? & ? & -> & _) & _).
  discriminate.
Qed.

(** X10. [received_to_iso] returns a value exactly for the texts of the layout
    [strptime] accepts whose date and time exist, and the value is the
    timestamp of that date and time; every other text, the empty one
    included, gives [None]. *)
Theorem received_to_iso_accepts (U : Unicode) (s t : str) :
  Lawful U ->
  (received_to_iso s = Some t
   <-> exists dt, StrptimeFacts.accepted s dt /\ Strptime.valid dt = true /\ t = stamp dt).
Proof.
  intros HL. rewrite received_to_iso_some. split.
  - intros (_ & dt & E & ->). apply (StrptimeFacts.strptime_spec HL) in E as [A V].
    now exists dt.
  - intros (dt & A & V & ->). split; [now apply (accepted_nonempty U s dt)|].
    exists dt. split; [|reflexivity].
    apply (StrptimeFacts.strptime_spec HL). now split.
Qed.

Lemma received_to_iso_accepts_witness :
  Lawful ascii_tables
  /\ exists dt, StrptimeFacts.accepted (U := ascii_tables) (lit "2026-1-9  6:32 utc") dt
       /\ Strptime.valid dt = true /\ lit "2026-01-09T06:32:00Z" = stamp dt.
Proof.
  split; [exact ascii_tables_lawful|].
  apply (proj1 (received_to_iso_accepts ascii_tables (lit "2026-1-9  6:32 utc")
                  (lit "2026-01-09T06:32:00Z") ascii_tables_lawful)).
  vm_compute. reflexivity.
Defined.

(** A property checked on every number below [k] holds below [k]. *)
Lemma checked_below (P : N -> bool) (k : nat) :
  forallb P (map N.of_nat (List.seq 0 k)) = true -> forall n, n < N.of_nat k -> P n = true.
Proof.
  intros H n Hn. rewrite forallb_forall in H. apply H.
  apply in_map_iff. exists (N.to_nat n). split; [apply N2Nat.id|].
  apply in_seq. lia.
Qed.

Lemma zero_pad_two n : n < 100 -> List.length (zero_pad 2 n) = 2%nat.
Proof.
  intros H. apply Nat.eqb_eq.
  apply (checked_below (fun n => (List.length (zero_pad 2 n) =? 2)%nat) 100); [|exact H].
  vm_compute. reflexivity.
Qed.

Lemma zero_pad_four n : n < 10000 -> List.length (zero_pad 4 n) = 4%nat.
Proof.
  intros H. apply Nat.eqb_eq.
  apply (checked_below (fun n => (List.length (zero_pad 4 n) =? 4)%nat) (100 * 100)); [|exact H].
  vm_compute. reflexivity.
Qed.

Lemma days_in_month_bound y m : Strptime.days_in_month y m <= 31.
Proof.
  unfold Strptime.days_in_month.
  destruct (m =? 2); [destruct (Strptime.is_leap y); lia|].
  destruct ((m =? 4) || (m =? 6) || (m =? 9) || (m =? 11)); lia.
Qed.

(** The fields of a date and time the constructor accepts are in range. *)
Lemma valid_bounds t :
  Strptime.valid t = true ->
  1 <= Strptime.dt_year t <= 9999 /\ 1 <= Strptime.dt_month t <= 12
  /\ 1 <= Strptime.dt_day t <= Strptime.days_in_month (Strptime.dt_year t) (Strptime.dt_month t)
  /\ Strptime.dt_hour t <= 23 /\ Strptime.dt_minute t <= 59.
Proof.
  unfold Strptime.valid. intros H.
  repeat match type of H with
         | _ && _ = true => let H' := fresh in apply andb_prop in H as [H H']; apply N.leb_le in H'
         end.
  apply N.leb_le in H. lia.
Qed.

(** X11. every value [received_to_iso] returns is twenty characters,
    [dddd-dd-ddTdd:dd:00Z] with ASCII digits for [d]. *)
Theorem received_to_iso_shape (U : Unicode) (s t : str) :
  Lawful U ->
  received_to_iso s = Some t ->
  List.length t = 20%nat
  /\ exists y m d h mi,
       t = y ++ lit "-" ++ m ++ lit "-" ++ d ++ lit "T" ++ h ++ lit ":" ++ mi ++ lit ":00Z"
       /\ List.length y = 4%nat /\ List.length m = 2%nat /\ List.length d = 2%nat
       /\ List.length h = 2%nat /\ List.length mi = 2%nat
       /\ forallb is_digit (y ++ m ++ d ++ h ++ mi) = true.
Proof.
  intros HL H. apply received_to_iso_some in H as (_ & dt & E & ->).
  apply (StrptimeFacts.strptime_spec HL) in E as [_ V].
  destruct (valid_bounds dt V) as (By & Bm & Bd & Bh & Bmi).
  pose proof (days_in_month_bound (Strptime.dt_year dt) (Strptime.dt_month dt)) as Bdim.
  assert (Ly := zero_pad_four (Strptime.dt_year dt) ltac:(lia)).
  assert (Lm := zero_pad_two (Strptime.dt_month dt) ltac:(lia)).
  assert (Ld := zero_pad_two (Strptime.dt_day dt) ltac:(lia)).
  assert (Lh := zero_pad_two (Strptime.dt_hour dt) ltac:(lia)).
  assert (Lmi := zero_pad_two (Strptime.dt_minute dt) ltac:(lia)).
  split.
  - unfold stamp. rewrite !length_app, Ly, Lm, Ld, Lh, Lmi. reflexivity.
  - eexists _, _, _, _, _. split; [reflexivity|].
    repeat (split; [assumption|]).
    rewrite !forallb_app, !zero_pad_digits. reflexivity.
Qed.

Lemma received_to_iso_shape_witness :
  Lawful ascii_tables
  /\ List.length (lit "2024-02-29T23:59:00Z") = 20%nat.
Proof.
  split; [exact ascii_tables_lawful|].
  apply (received_to_iso_shape ascii_tables (lit "2024-2-29 23:59 UTC") _ ascii_tables_lawful).
  vm_compute. reflexivity.
Defined.

(** *** The captured timestamp *)

(** The number a string of ASCII digits writes. *)
Definition number (ds : str) : N := fold_left (fun acc c => 10 * acc + (c - 48)) ds 0.

(** The layout of group 1 of the [Received on:] expression. *)
Definition captured_layout (g y mo d w1 h mi w2 : str) : Prop :=
  g = y ++ lit "-" ++ mo ++ lit "-" ++ d ++ w1 ++ h ++ lit ":" ++ mi ++ w2 ++ lit "UTC"
  /\ List.length y = 4%nat /\ List.length mo = 2%nat /\ List.length d = 2%nat
  /\ List.length h = 2%nat /\ List.length mi = 2%nat
  /\ forallb is_digit (y ++ mo ++ d ++ h ++ mi) = true
  /\ gap w1 /\ gap w2.

Lemma match_received_inv s g :
  match_received s = Some g ->
  exists sp y mo d w1 h mi w2 rest,
    s = lit "Received on:" ++ sp ++ g ++ rest
    /\ forallb isspace sp = true
    /\ captured_layout g y mo d w1 h mi w2.
Proof.
  unfold match_received, bind. intros H.
  destruct (expect _ s) as [s0|] eqn:E0; [|discriminate].
  apply expect_inv in E0 as ->.
  destruct (drop_while_split isspace s0) as (sp & Esp & Hsp).
  fold (spaces0 s0) in Esp. remember (spaces0 s0) as g0 eqn:Eg. clear Eg.
  destruct (digits 4 g0) as [s1|] eqn:E1; [|discriminate].
  destruct (expect _ s1) as [s2|] eqn:E2; [|discriminate].
  destruct (digits 2 s2) as [s3|] eqn:E3; [|discriminate].
  destruct (expect _ s3) as [s4|] eqn:E4; [|discriminate].
  destruct (digits 2 s4) as [s5|] eqn:E5; [|discriminate].
  destruct (spaces1 s5) as [s6|] eqn:E6; [|discriminate].
  destruct (digits 2 s6) as [s7|] eqn:E7; [|discriminate].
  destruct (expect _ s7) as [s8|] eqn:E8; [|discriminate].
  destruct (digits 2 s8) as [s9|] eqn:E9; [|discriminate].
  destruct (spaces1 s9) as [s10|] eqn:E10; [|discriminate].
  destruct (expect _ s10) as [s11|] eqn:E11; [|discriminate].
  injection H as <-.
  apply digits_inv in E1 as (y & -> & Ly & Fy), E3 as (mo & -> & Lmo & Fmo),
    E5 as (d & -> & Ld & Fd), E7 as (h & -> & Lh & Fh), E9 as (mi & -> & Lmi & Fmi).
  apply expect_inv in E2 as ->, E4 as ->, E8 as ->, E11 as ->.
  apply spaces1_inv in E6 as (w1 & G1 & -> & _), E10 as (w2 & G2 & -> & _).
  set (p := y ++ lit "-" ++ mo ++ lit "-" ++ d ++ w1 ++ h ++ lit ":" ++ mi ++ w2 ++ lit "UTC").
  assert (Ep : y ++ lit "-" ++ mo ++ lit "-" ++ d ++ w1 ++ h ++ lit ":" ++ mi ++ w2
               ++ lit "UTC" ++ s11 = p ++ s11).
  { unfold p. rewrite <- !app_assoc. reflexivity. }
  rewrite Ep in *. rewrite firstn_prefix.
  exists sp, y, mo, d, w1, h, mi, w2, s11. split; [now rewrite Esp|].
  split; [exact Hsp|]. unfold captured_layout.
  rewrite !forallb_app, Fy, Fmo, Fd, Fh, Fmi.
  repeat split; try assumption; first [apply G1 | apply G2].
Qed.

(** X9. when the page holds a timestamp, the received text is a piece of the
    page that follows the label [Received on:] and optional white space, and
    it has the layout [dddd-dd-dd dd:dd UTC], the two gaps being any white
    space. *)
Theorem received_text_is_labelled (text : str) :
  received_text text <> [] ->
  exists pre sp post y mo d w1 h mi w2,
    text = pre ++ lit "Received on:" ++ sp ++ received_text text ++ post
    /\ forallb isspace sp = true
    /\ captured_layout (received_text text) y mo d w1 h mi w2.
Proof.
  unfold received_text. destruct (search_received text) as [g|] eqn:E; [|contradiction].
  intros _. apply search_received_inv in E as (pre & t & -> & M).
  apply match_received_inv in M as (sp & y & mo & d & w1 & h & mi & w2 & rest & -> & Hsp & L).
  now exists pre, sp, rest, y, mo, d, w1, h, mi, w2.
Qed.

Lemma received_text_is_labelled_witness :
  received_text sample_page = lit "2026-01-09 06:32 UTC"
  /\ exists pre sp post y mo d w1 h mi w2,
    sample_page = pre ++ lit "Received on:" ++ sp ++ received_text sample_page ++ post
    /\ forallb isspace sp = true
    /\ captured_layout (received_text sample_page) y mo d w1 h mi w2.
Proof.
  split; [vm_compute; reflexivity|].
  apply (received_text_is_labelled sample_page). vm_compute. discriminate.
Defined.

Lemma is_digit_value c : is_digit c = true -> exists v, c = 48 + v /\ v <= 9.
Proof.
  unfold is_digit. intros H. apply andb_prop in H as [H1 H2]. apply N.leb_le in H1, H2.
  exists (c - 48). lia.
Qed.

Lemma number_two a b : number [48 + a; 48 + b] = 10 * a + b.
Proof. unfold number. cbn [fold_left]. lia. Qed.

Lemma number_four a b c d :
  number [48 + a; 48 + b; 48 + c; 48 + d] = 1000 * a + 100 * b + 10 * c + d.
Proof. unfold number. cbn [fold_left]. lia. Qed.

Lemma two_digits_inv (t : str) :
  List.length t = 2%nat -> forallb is_digit t = true ->
  exists a b, t = [48 + a; 48 + b] /\ a <= 9 /\ b <= 9.
Proof.
  destruct t as [|c1 [|c2 [|]]]; try discriminate. intros _ F. cbn [forallb] in F.
  apply andb_prop in F as [H1 F]. apply andb_prop in F as [H2 _].
  apply is_digit_value in H1 as (a & -> & ?), H2 as (b & -> & ?). now exists a, b.
Qed.

Section FieldTexts.
Context {U : Unicode} (HL : Lawful U).
Import StrptimeFacts.

Lemma year_text_of_digits (t : str) :
  List.length t = 4%nat -> forallb is_digit t = true -> year_text t (number t).
Proof.
  destruct t as [|c1 [|c2 [|c3 [|c4 [|]]]]]; try discriminate. intros _ F.
  cbn [forallb] in F.
  apply andb_prop in F as [H1 F]. apply andb_prop in F as [H2 F].
  apply andb_prop in F as [H3 F]. apply andb_prop in F as [H4 _].
  apply is_digit_value in H1 as (a1 & -> & ?), H2 as (a2 & -> & ?),
    H3 as (a3 & -> & ?), H4 as (a4 & -> & ?).
  exists (48 + a1), (48 + a2), (48 + a3), (48 + a4), a1, a2, a3, a4.
  rewrite !(decimal_digit HL) by lia. rewrite number_four. now repeat split.
Qed.

Lemma month_text_of_digits a b :
  a <= 9 -> b <= 9 -> 1 <= 10 * a + b <= 12 -> month_text [48 + a; 48 + b] (10 * a + b).
Proof.
  intros Ha Hb H. assert (a = 1 \/ a = 0) as [->| ->] by lia.
  - left. exists (48 + 1), (48 + b), 1, b. cbn [digit_of]. repeat split; lia.
  - right. left. exists (48 + 0), (48 + b), 0, b. cbn [digit_of]. repeat split; lia.
Qed.

Lemma day_text_of_digits a b :
  a <= 9 -> b <= 9 -> 1 <= 10 * a + b <= 31 -> day_text [48 + a; 48 + b] (10 * a + b).
Proof.
  intros Ha Hb H. assert (a = 3 \/ (1 <= a <= 2) \/ a = 0) as [->|[Ha'| ->]] by lia.
  - left. exists (48 + 3), (48 + b), 3, b. cbn [digit_of]. repeat split; lia.
  - right. left. exists (48 + a), (48 + b), a, b. cbn [digit_of].
    rewrite (decimal_digit HL) by lia. repeat split; lia.
  - right. right. left. exists (48 + 0), (48 + b), 0, b. cbn [digit_of]. repeat split; lia.
Qed.

Lemma hour_text_of_digits a b :
  a <= 9 -> b <= 9 -> 10 * a + b <= 23 -> hour_text [48 + a; 48 + b] (10 * a + b).
Proof.
  intros Ha Hb H. assert (a = 2 \/ a <= 1) as [->|Ha'] by lia.
  - left. exists (48 + 2), (48 + b), 2, b. cbn [digit_of]. repeat split; lia.
  - right. left. exists (48 + a), (48 + b), a, b. cbn [digit_of].
    rewrite (decimal_digit HL) by lia. repeat split; lia.
Qed.

Lemma minute_text_of_digits a b :
  a <= 9 -> b <= 9 -> 10 * a + b <= 59 -> minute_text [48 + a; 48 + b] (10 * a + b).
Proof.
  intros Ha Hb H. left. exists (48 + a), (48 + b), a, b. cbn [digit_of].
  rewrite (decimal_digit HL) by lia. repeat split; lia.
Qed.

End FieldTexts.

(** A text in the layout of the captured group whose date and time exist is
    parsed to the timestamp of the numbers it writes. *)
Lemma captured_layout_parses (U : Unicode) (g y mo d w1 h mi w2 : str) :
  Lawful U ->
  captured_layout g y mo d w1 h mi w2 ->
  let dt := {| Strptime.dt_year := number y; Strptime.dt_month := number mo;
               Strptime.dt_day := number d; Strptime.dt_hour := number h;
               Strptime.dt_minute := number mi |} in
  Strptime.valid dt = true ->
  received_to_iso g = Some (stamp dt).
Proof.
  intros HL (-> & Ly & Lmo & Ld & Lh & Lmi & F & G1 & G2) dt V.
  assert (A : StrptimeFacts.accepted
               (y ++ lit "-" ++ mo ++ lit "-" ++ d ++ w1 ++ h ++ lit ":" ++ mi ++ w2 ++ lit "UTC") dt);
    [|apply received_to_iso_some; split; [now apply (accepted_nonempty U _ dt)|];
      exists dt; split; [apply (StrptimeFacts.strptime_spec HL); now split | reflexivity]].
  rewrite !forallb_app in F.
  apply andb_prop in F as [Fy F]. apply andb_prop in F as [Fmo F].
  apply andb_prop in F as [Fd F]. apply andb_prop in F as [Fh Fmi].
  destruct (valid_bounds dt V) as (By & Bm & Bd & Bh & Bmi).
  pose proof (days_in_month_bound (number y) (number mo)) as Bdim.
  cbn [Strptime.dt_year Strptime.dt_month Strptime.dt_day Strptime.dt_hour
       Strptime.dt_minute dt] in *.
  destruct (two_digits_inv mo Lmo Fmo) as (a1 & b1 & -> & ? & ?).
  destruct (two_digits_inv d Ld Fd) as (a2 & b2 & -> & ? & ?).
  destruct (two_digits_inv h Lh Fh) as (a3 & b3 & -> & ? & ?).
  destruct (two_digits_inv mi Lmi Fmi) as (a4 & b4 & -> & ? & ?).
  rewrite !number_two in *.
  exists y, [48 + a1; 48 + b1], [48 + a2; 48 + b2], w1, [48 + a3; 48 + b3],
    [48 + a4; 48 + b4], w2, (lit "UTC").
  cbn [Strptime.dt_year Strptime.dt_month Strptime.dt_day Strptime.dt_hour
       Strptime.dt_minute dt]. rewrite !number_two.
  split; [now rewrite app_nil_r|].
  split; [now apply year_text_of_digits|].
  split; [apply month_text_of_digits; lia|].
  split; [apply (day_text_of_digits HL); lia|].
  split; [exact G1|].
  split; [apply (hour_text_of_digits HL); lia|].
  split; [apply (minute_text_of_digits HL); lia|].
  split; [exact G2|]. now exists 85, 84, 67.
Qed.

(** X13. a captured timestamp whose date and time exist is parsed: the
    received text of the extractor, given to [received_to_iso], comes back
    as the timestamp of the numbers it writes. *)
Theorem captured_timestamp_parses (U : Unicode) (g y mo d w1 h mi w2 : str) :
  Lawful U ->
  captured_layout g y mo d w1 h mi w2 ->
  let dt := {| Strptime.dt_year := number y; Strptime.dt_month := number mo;
               Strptime.dt_day := number d; Strptime.dt_hour := number h;
               Strptime.dt_minute := number mi |} in
  Strptime.valid dt = true ->
  received_to_iso g = Some (stamp dt).
Proof. exact (captured_layout_parses U g y mo d w1 h mi w2). Qed.

Lemma captured_timestamp_parses_witness :
  Lawful ascii_tables
  /\ @received_to_iso ascii_tables (lit "2026-01-09  06:32 UTC")
     = Some (lit "2026-01-09T06:32:00Z").
Proof.
  split; [exact ascii_tables_lawful|].
  refine (captured_timestamp_parses ascii_tables (lit "2026-01-09  06:32 UTC")
            (lit "2026") (lit "01") (lit "09") (lit "  ") (lit "06") (lit "32") (lit " ")
            ascii_tables_lawful _ _).
  - unfold captured_layout, gap. repeat split; try reflexivity; discriminate.
  - vm_compute. reflexivity.
Defined.

(** *** The format of the timestamp *)

(** The format [YYYY-MM-DD HH:MM UTC] read letter by letter: four, two, two,
    two and two ASCII digits, one space before the hour and one before the
    capital letters UTC. *)
Definition exact_format (s y mo d h mi : str) : Prop :=
  s = y ++ lit "-" ++ mo ++ lit "-" ++ d ++ lit " " ++ h ++ lit ":" ++ mi ++ lit " UTC"
  /\ List.length y = 4%nat /\ List.length mo = 2%nat /\ List.length d = 2%nat
  /\ List.length h = 2%nat /\ List.length mi = 2%nat
  /\ forallb is_digit (y ++ mo ++ d ++ h ++ mi) = true.

Lemma exact_format_captured s y mo d h mi :
  exact_format s y mo d h mi -> captured_layout s y mo d (lit " ") h mi (lit " ").
Proof.
  intros (E & Ly & Lmo & Ld & Lh & Lmi & F). unfold captured_layout, gap.
  repeat (split; [assumption|]). repeat split; discriminate.
Qed.

Lemma exact_format_length s y mo d h mi :
  exact_format s y mo d h mi -> List.length s = 20%nat.
Proof.
  intros (-> & Ly & Lmo & Ld & Lh & Lmi & _).
  rewrite !length_app, Ly, Lmo, Ld, Lh, Lmi. reflexivity.
Qed.

(** C6, amended. [received_to_iso] is a total function to an optional text.
    It returns a timestamp exactly for the texts [strptime] accepts for
    [%Y-%m-%d %H:%M UTC] whose date and time exist, and the timestamp is
    [YYYY-MM-DDTHH:MM:00Z] for that date and time.  A text in the format
    [YYYY-MM-DD HH:MM UTC] whose date and time exist is one of them; the
    empty text and a text without a colon, such as one whose minutes are
    missing, give [None]. *)
Theorem received_to_iso_when_accepted (U : Unicode) (s : str) :
  Lawful U ->
  (forall t, received_to_iso s = Some t
     <-> exists dt, StrptimeFacts.accepted s dt /\ Strptime.valid dt = true
                    /\ t = stamp dt)
  /\ (forall y mo d h mi, exact_format s y mo d h mi ->
        let dt := {| Strptime.dt_year := number y; Strptime.dt_month := number mo;
                     Strptime.dt_day := number d; Strptime.dt_hour := number h;
                     Strptime.dt_minute := number mi |} in
        Strptime.valid dt = true -> received_to_iso s = Some (stamp dt))
  /\ (s = [] -> received_to_iso s = None)
  /\ (~ In 58 s -> received_to_iso s = None).
Proof.
  intros HL.
  assert (K : forall t, received_to_iso s = Some t
                <-> exists dt, StrptimeFacts.accepted s dt /\ Strptime.valid dt = true
                               /\ t = stamp dt).
  { intros t. rewrite received_to_iso_some. split.
    - intros (_ & dt & E & ->). apply (StrptimeFacts.strptime_spec HL) in E as [A V].
      now exists dt.
    - intros (dt & A & V & ->). split; [now apply (accepted_nonempty U s dt)|].
      exists dt. split; [|reflexivity].
      apply (StrptimeFacts.strptime_spec HL). now split. }
  split; [exact K|]. split; [|split].
  - intros y mo d h mi E. apply exact_format_captured in E.
    exact (captured_layout_parses U s y mo d (lit " ") h mi (lit " ") HL E).
  - intros ->. reflexivity.
  - intros H. destruct (received_to_iso s) as [t|] eqn:E; [|reflexivity].
    exfalso. destruct (proj1 (K t) eq_refl) as (dt & A & _).
    destruct A as (y & mo & d & w1 & h & mi & w2 & u & -> & _).
    apply H. apply in_or_app. right. right. apply in_or_app. right. right.
    apply in_or_app. right. apply in_or_app. right. apply in_or_app. right. now left.
Qed.

Lemma received_to_iso_when_accepted_witness :
  Lawful ascii_tables
  /\ exact_format (lit "2026-01-09 06:32 UTC")
       (lit "2026") (lit "01") (lit "09") (lit "06") (lit "32")
  /\ @received_to_iso ascii_tables (lit "2026-01-09 06:32 UTC")
     = Some (lit "2026-01-09T06:32:00Z").
Proof.
  assert (E : exact_format (lit "2026-01-09 06:32 UTC")
                (lit "2026") (lit "01") (lit "09") (lit "06") (lit "32"))
    by (unfold exact_format; repeat split; reflexivity).
  split; [exact ascii_tables_lawful|]. split; [exact E|].
  destruct (received_to_iso_when_accepted ascii_tables (lit "2026-01-09 06:32 UTC")
              ascii_tables_lawful) as (_ & P & _).
  refine (eq_trans (P _ _ _ _ _ E _) _); vm_compute; reflexivity.
Defined.

(** C6 as stated fails in both directions: a text with one-digit fields and
    small letters is not in the format and is parsed, and a text in the
    format whose day the month does not have is refused. *)
Lemma received_to_iso_format_counterexample :
  (forall y mo d h mi, ~ exact_format (lit "2026-1-9 6:32 utc") y mo d h mi)
  /\ @received_to_iso ascii_tables (lit "2026-1-9 6:32 utc")
     = Some (lit "2026-01-09T06:32:00Z")
  /\ exact_format (lit "2026-02-30 06:32 UTC")
       (lit "2026") (lit "02") (lit "30") (lit "06") (lit "32")
  /\ @received_to_iso ascii_tables (lit "2026-02-30 06:32 UTC") = None.
Proof.
  split; [|split; [|split]].
  - intros y mo d h mi E. apply exact_format_length in E. discriminate E.
  - vm_compute. reflexivity.
  - unfold exact_format. repeat split; reflexivity.
  - vm_compute. reflexivity.
Qed.

(** ** More on the classifier *)

Lemma upper_app (U : Unicode) a b : upper (a ++ b) = upper a ++ upper b.
Proof. unfold upper. apply flat_map_app. Qed.

Lemma upper_newline (U : Unicode) : Lawful U -> upper NL = NL.
Proof.
  intros HL. unfold upper, NL. cbn [flat_map].
  rewrite (upper_char_ascii U HL) by lia. reflexivity.
Qed.

Lemma scanned_has_block_keyword (U : Unicode) (k raw decode : str) :
  contains k (upper raw) = true \/ contains k (upper decode) = true ->
  contains k (scanned raw decode) = true.
Proof.
  unfold scanned. rewrite !upper_app. intros [E|E]; [now apply contains_app_l|].
  apply contains_app_r. now apply contains_app_r.
Qed.

(** X5. a keyword without a line break is in the scanned text exactly when
    it is in the upper-cased raw block or in the upper-cased decode block:
    the line break the classifier puts between the blocks keeps a keyword
    from being found across the junction. *)
Theorem keyword_in_raw_or_decode (U : Unicode) (k raw decode : str) :
  Lawful U -> ~ In 10 k ->
  contains k (scanned raw decode) = contains k (upper raw) || contains k (upper decode).
Proof.
  intros HL Hk. apply eq_iff_eq_true. rewrite orb_true_iff. split.
  - unfold scanned. rewrite !upper_app, (upper_newline U HL). unfold NL.
    intros E. now apply contains_beside_sep in E.
  - apply scanned_has_block_keyword.
Qed.

Lemma keyword_in_raw_or_decode_witness :
  Lawful ascii_tables
  /\ contains (lit " POOR") (@scanned ascii_tables (lit "SW P") (lit "OOR")) = false.
Proof.
  split; [exact ascii_tables_lawful|].
  rewrite (keyword_in_raw_or_decode ascii_tables (lit " POOR") (lit "SW P") (lit "OOR")
             ascii_tables_lawful).
  - vm_compute. reflexivity.
  - vm_compute. intuition discriminate.
Defined.

(** ** The tier by the condition codes *)

Lemma scanned_keyword (U : Unicode) (k raw decode : str) :
  Lawful U -> ~ In 10 k ->
  contains k (scanned raw decode) = contains k (upper raw) || contains k (upper decode).
Proof.
  intros HL Hk. apply eq_iff_eq_true. rewrite orb_true_iff. split.
  - unfold scanned. rewrite !upper_app, (upper_newline U HL). unfold NL.
    intros E. now apply contains_beside_sep in E.
  - apply scanned_has_block_keyword.
Qed.

(** The list of codes [re.finditer] yields on [s], said without the loop.
    When the pattern occurs nowhere in [s] there are none.  Otherwise [s]
    is [pre ++ t], where [t] begins with an occurrence of the pattern and
    no occurrence begins inside [pre]; the codes are the three digits of
    that occurrence and then the codes of the text after it. *)
Inductive finditer_codes : str -> list N -> Prop :=
| finditer_none s :
    ~ code_pattern_occurs s -> finditer_codes s []
| finditer_match pre t ds rest l :
    code_group ds t rest ->
    (forall p1 p2 ds' r', pre = p1 ++ p2 -> p2 <> [] -> ~ code_group ds' (p2 ++ t) r') ->
    finditer_codes rest l ->
    finditer_codes (pre ++ t) (ds ++ l).

Lemma collect_codes_skip x rest :
  collect_codes (List.length x) (x ++ rest) = collect_codes O rest.
Proof. induction x as [|c x IH]; [reflexivity | exact IH]. Qed.

(** An occurrence of the pattern is not empty. *)
Lemma code_group_text ds t rest :
  code_group ds t rest -> exists c g, t = c :: g ++ rest.
Proof.
  intros (w1 & c1 & w2 & c2 & w3 & c3 & -> & _).
  exists 83, (lit "URFACE CONDITION CODE" ++ w1 ++ c1 :: w2 ++ c2 :: w3 ++ [c3]).
  change (lit "SURFACE CONDITION CODE") with (83 :: lit "URFACE CONDITION CODE").
  rewrite <- app_comm_cons. f_equal.
  repeat first [rewrite <- app_assoc | rewrite <- app_comm_cons]. reflexivity.
Qed.

Lemma collect_codes_at_match t ds rest :
  match_codes t = Some (ds, rest) -> collect_codes O t = ds ++ collect_codes O rest.
Proof.
  intros M. destruct (code_group_text _ _ _ (match_codes_sound _ _ _ M)) as (c & g & ->).
  cbn [collect_codes]. rewrite M. f_equal.
  replace (List.length (c :: g ++ rest) - List.length rest - 1)%nat with (List.length g)
    by (cbn [List.length]; rewrite length_app; lia).
  apply collect_codes_skip.
Qed.

Lemma collect_codes_pass pre t :
  (forall p1 p2, pre = p1 ++ p2 -> p2 <> [] -> match_codes (p2 ++ t) = None) ->
  collect_codes O (pre ++ t) = collect_codes O t.
Proof.
  induction pre as [|c pre IH]; intros H; [reflexivity|].
  assert (M : match_codes (c :: pre ++ t) = None)
    by (apply (H [] (c :: pre)); [reflexivity | discriminate]).
  cbn [app collect_codes]. rewrite M. apply IH.
  intros p1 p2 -> Hp. now apply (H (c :: p1) p2).
Qed.

(** The loop of [snowtam_severity] collects these codes. *)
Lemma finditer_codes_sound s l : finditer_codes s l -> collect_codes O s = l.
Proof.
  induction 1 as [s Hno | pre t ds rest l G Hfirst _ IH].
  - destruct (collect_codes O s) eqn:E; [reflexivity|].
    exfalso. apply Hno, collect_codes_iff. rewrite E. discriminate.
  - rewrite collect_codes_pass.
    + rewrite (collect_codes_at_match t ds rest) by now apply match_codes_complete.
      now rewrite IH.
    + intros p1 p2 E Hp. destruct (match_codes (p2 ++ t)) as [[ds' r']|] eqn:M; [|reflexivity].
      exfalso. apply (Hfirst p1 p2 ds' r' E Hp). now apply match_codes_sound.
Qed.

Lemma first_match s :
  (forall p1 p2, s = p1 ++ p2 -> match_codes p2 = None)
  \/ exists pre t ds rest,
       s = pre ++ t /\ match_codes t = Some (ds, rest)
       /\ forall p1 p2, pre = p1 ++ p2 -> p2 <> [] -> match_codes (p2 ++ t) = None.
Proof.
  induction s as [|c s IH].
  - left. intros p1 p2 E. symmetry in E. apply app_eq_nil in E as [_ ->]. reflexivity.
  - destruct (match_codes (c :: s)) as [[ds rest]|] eqn:M.
    + right. exists [], (c :: s), ds, rest. split; [reflexivity|]. split; [exact M|].
      intros p1 p2 E Hp. symmetry in E. apply app_eq_nil in E as [_ ->]. contradiction.
    + destruct IH as [IH|(pre & t & ds & rest & E & Mt & Hf)].
      * left. intros [|a p1] p2 E.
        -- cbn [app] in E. subst p2. exact M.
        -- apply (IH p1). now apply cons_eq in E.
      * right. exists (c :: pre), t, ds, rest. split; [now rewrite E|]. split; [exact Mt|].
        intros [|a p1] p2 E' Hp.
        -- cbn [app] in E'. subst p2. cbn [app]. rewrite <- E. exact M.
        -- apply (Hf p1); [|exact Hp]. now apply cons_eq in E'.
Qed.

(** And the loop collects nothing else. *)
Lemma finditer_codes_complete s : finditer_codes s (collect_codes O s).
Proof.
  assert (K : forall n s, (List.length s < n)%nat -> finditer_codes s (collect_codes O s));
    [|apply (K (S (List.length s))); lia].
  clear s. induction n as [|n IH]; intros s Hn; [lia|].
  destruct (first_match s) as [Hno|(pre & t & ds & rest & -> & M & Hf)].
  - assert (N : ~ code_pattern_occurs s).
    { intros (pre & ds & t & rest & -> & G). apply match_codes_complete in G.
      rewrite (Hno pre t eq_refl) in G. discriminate. }
    assert (E : collect_codes O s = []).
    { destruct (collect_codes O s) eqn:E; [reflexivity|].
      exfalso. apply N, collect_codes_iff. rewrite E. discriminate. }
    rewrite E. now apply finditer_none.
  - rewrite (collect_codes_pass pre t Hf), (collect_codes_at_match t ds rest M).
    apply (finditer_match pre t ds rest).
    + now apply match_codes_sound.
    + intros p1 p2 ds' r' E Hp G. apply match_codes_complete in G.
      rewrite (Hf p1 p2 E Hp) in G. discriminate.
    + apply IH.
      destruct (code_group_text _ _ _ (match_codes_sound _ _ _ M)) as (c & g & ->).
      rewrite length_app in Hn. cbn [List.length] in Hn. rewrite length_app in Hn. lia.
Qed.

Lemma finditer_codes_iff s l : finditer_codes s l <-> collect_codes O s = l.
Proof.
  split; [apply finditer_codes_sound|]. intros <-. apply finditer_codes_complete.
Qed.

(** [str(m)] for a digit. *)
Lemma repr_int_digit m : m <= 9 -> repr_int m = [48 + m].
Proof.
  intros H.
  assert (C : m = 0 \/ m = 1 \/ m = 2 \/ m = 3 \/ m = 4 \/ m = 5 \/ m = 6 \/ m = 7
              \/ m = 8 \/ m = 9) by lia.
  repeat (destruct C as [->|C]; [reflexivity|]). now subst.
Qed.

(** [k] is in the upper-cased raw block or in the upper-cased decode
    block. *)
Definition in_a_block {U : Unicode} (k raw decode : str) : bool :=
  contains k (upper raw) || contains k (upper decode).

(** What the classifier has passed when it comes to the codes. *)
Lemma past_early_returns (U : Unicode) (raw decode : str) :
  Lawful U ->
  forallb isspace raw = false ->
  (forall k, In k [lit "CLOSED"; lit "CLSD"; lit "RWY CLSD"; lit "RUNWAY CLSD"] ->
     in_a_block k raw decode = false) ->
  in_a_block (lit "BRAKING ACTION") raw decode && in_a_block (lit "POOR") raw decode = false ->
  strip raw <> [] /\ no_closure raw decode /\ no_poor_braking raw decode
  /\ has_poor raw decode = in_a_block (lit " POOR") raw decode.
Proof.
  intros HL Hraw Hc Hb. split; [|split; [|split]].
  - intros E. apply strip_nil_iff in E. rewrite E in Hraw. discriminate.
  - intros k Hk. rewrite scanned_keyword; [now apply Hc | exact HL |].
    destruct Hk as [<-|[<-|[<-|[<-|[]]]]]; vm_compute; intuition discriminate.
  - intros [E1 E2].
    rewrite scanned_keyword in E1, E2;
      [| exact HL | vm_compute; intuition discriminate
       | exact HL | vm_compute; intuition discriminate].
    unfold in_a_block in Hb. rewrite E1, E2 in Hb. discriminate.
  - unfold has_poor, in_a_block. apply scanned_keyword; [exact HL|].
    vm_compute. intuition discriminate.
Qed.

(** C1, amended. Take a raw block that is not blank, no closure word in the
    upper-cased raw block nor in the upper-cased decode block, and not both
    BRAKING ACTION and POOR in them.  Let [codes] be the digits of the
    occurrences of SURFACE CONDITION CODE d d d in the upper-cased decode
    block, taken from left to right without overlap, and [m] the least of
    them.  Then the tier is red for [m <= 2], orange for 3 or 4, and for
    [m >= 5] yellow, raised to orange when " POOR" is in the upper-cased raw
    block or in the upper-cased decode block; the summary is
    [minRWYCC=<m>; poorAreas=<True or False>], with the digit [m] and
    whether " POOR" was in one of the blocks. *)
Theorem severity_follows_min_code (U : Unicode) (raw decode : str)
    (codes : list N) (m : N) :
  Lawful U ->
  forallb isspace raw = false ->
  (forall k, In k [lit "CLOSED"; lit "CLSD"; lit "RWY CLSD"; lit "RUNWAY CLSD"] ->
     in_a_block k raw decode = false) ->
  in_a_block (lit "BRAKING ACTION") raw decode && in_a_block (lit "POOR") raw decode = false ->
  finditer_codes (upper decode) codes ->
  In m codes -> (forall x, In x codes -> m <= x) ->
  snowtam_severity raw decode
  = ((if m <=? 2 then lit "red"
      else if m <=? 4 then lit "orange"
      else if in_a_block (lit " POOR") raw decode then lit "orange" else lit "yellow"),
     lit "minRWYCC=" ++ [48 + m] ++ lit "; poorAreas="
     ++ (if in_a_block (lit " POOR") raw decode then lit "True" else lit "False")).
Proof.
  intros HL Hraw Hc Hb Hf Hin Hmin.
  destruct (past_early_returns U raw decode HL Hraw Hc Hb) as (S & C & B & P).
  apply finditer_codes_sound in Hf.
  rewrite (snowtam_severity_codes raw decode S C B), P. unfold codes_of. rewrite Hf.
  destruct (list_min codes) as [m'|] eqn:L.
  - destruct (list_min_spec _ _ L) as [Hin' Hmin'].
    assert (E : m' = m) by (apply N.le_antisymm; auto). subst m'.
    assert (D : m <= 9).
    { apply (collect_codes_digits O (upper decode)). now rewrite Hf. }
    rewrite (repr_int_digit m D). unfold repr_bool. f_equal.
    destruct (m <=? 2) eqn:E2; [reflexivity|]. apply N.leb_gt in E2.
    destruct (m <=? 4) eqn:E4.
    + replace (3 <=? m) with true by (symmetry; apply N.leb_le; lia). reflexivity.
    + now rewrite andb_false_r.
  - destruct codes; [destruct Hin | discriminate L].
Qed.

Lemma severity_follows_min_code_witness :
  Lawful ascii_tables
  /\ @snowtam_severity ascii_tables sample_raw sample_decode
     = (lit "yellow", lit "minRWYCC=5; poorAreas=False")
  /\ @snowtam_severity ascii_tables sample_raw
       (lit "Taxiways poor. Runway 13L surface condition code 5 5 5")
     = (lit "orange", lit "minRWYCC=5; poorAreas=True")
  /\ @snowtam_severity ascii_tables sample_raw
       (lit "Runway 13L surface condition code 5 5 5, runway 13R surface condition code 6 2 3")
     = (lit "red", lit "minRWYCC=2; poorAreas=False").
Proof.
  split; [exact ascii_tables_lawful|]. split; [|split].
  - refine (eq_trans (severity_follows_min_code ascii_tables sample_raw sample_decode
                        [5; 5; 5] 5 ascii_tables_lawful _ _ _ _ _ _) _).
    + vm_compute. reflexivity.
    + intros k [<-|[<-|[<-|[<-|[]]]]]; vm_compute; reflexivity.
    + vm_compute. reflexivity.
    + apply finditer_codes_iff. vm_compute. reflexivity.
    + left. reflexivity.
    + intros x [<-|[<-|[<-|[]]]]; lia.
    + vm_compute. reflexivity.
  - refine (eq_trans (severity_follows_min_code ascii_tables sample_raw
                        (lit "Taxiways poor. Runway 13L surface condition code 5 5 5")
                        [5; 5; 5] 5 ascii_tables_lawful _ _ _ _ _ _) _).
    + vm_compute. reflexivity.
    + intros k [<-|[<-|[<-|[<-|[]]]]]; vm_compute; reflexivity.
    + vm_compute. reflexivity.
    + apply finditer_codes_iff. vm_compute. reflexivity.
    + left. reflexivity.
    + intros x [<-|[<-|[<-|[]]]]; lia.
    + vm_compute. reflexivity.
  - refine (eq_trans (severity_follows_min_code ascii_tables sample_raw
                        (lit "Runway 13L surface condition code 5 5 5, runway 13R surface condition code 6 2 3")
                        [5; 5; 5; 6; 2; 3] 2 ascii_tables_lawful _ _ _ _ _ _) _).
    + vm_compute. reflexivity.
    + intros k [<-|[<-|[<-|[<-|[]]]]]; vm_compute; reflexivity.
    + vm_compute. reflexivity.
    + apply finditer_codes_iff. vm_compute. reflexivity.
    + do 4 right. left. reflexivity.
    + intros x [<-|[<-|[<-|[<-|[<-|[<-|[]]]]]]]; lia.
    + vm_compute. reflexivity.
Defined.

Definition junction_raw : str := lit "SW P".
Definition junction_decode : str := lit "OOR surface condition code 5 5 5".

(** C1 as stated fails: " POOR" is in the upper-cased text of the raw block
    followed by the decode block, the least code is 5, and the result is
    yellow with [poorAreas=False]; the classifier puts a line break between
    the blocks. *)
Lemma poor_across_junction_counterexample :
  forallb isspace junction_raw = false
  /\ existsb (fun k => contains k (@upper ascii_tables (junction_raw ++ junction_decode)))
       closure_indicators = false
  /\ contains (lit "BRAKING ACTION") (@upper ascii_tables (junction_raw ++ junction_decode))
     = false
  /\ finditer_codes (@upper ascii_tables junction_decode) [5; 5; 5]
  /\ contains (lit " POOR") (@upper ascii_tables (junction_raw ++ junction_decode)) = true
  /\ @snowtam_severity ascii_tables junction_raw junction_decode
     = (lit "yellow", lit "minRWYCC=5; poorAreas=False").
Proof.
  split; [vm_compute; reflexivity|]. split; [vm_compute; reflexivity|].
  split; [vm_compute; reflexivity|].
  split; [apply finditer_codes_iff; vm_compute; reflexivity|].
  split; vm_compute; reflexivity.
Qed.

(** C4, amended. With a raw block that is not blank, no closure word in the
    upper-cased raw block nor in the upper-cased decode block, not both
    BRAKING ACTION and POOR in them, and no occurrence of the code pattern
    in the upper-cased decode block, the result is the orange fallback when
    " POOR" is in the upper-cased raw block or in the upper-cased decode
    block, and the yellow fallback otherwise; it is never ok. *)
Theorem unparsed_codes_fallback (U : Unicode) (raw decode : str) :
  Lawful U ->
  forallb isspace raw = false ->
  (forall k, In k [lit "CLOSED"; lit "CLSD"; lit "RWY CLSD"; lit "RUNWAY CLSD"] ->
     in_a_block k raw decode = false) ->
  in_a_block (lit "BRAKING ACTION") raw decode && in_a_block (lit "POOR") raw decode = false ->
  ~ code_pattern_occurs (upper decode) ->
  snowtam_severity raw decode
  = (if in_a_block (lit " POOR") raw decode
     then (lit "orange", lit "Could not parse RWYCC; POOR movement area noted")
     else (lit "yellow", lit "Could not parse RWYCC; SNOWTAM present"))
  /\ fst (snowtam_severity raw decode) <> lit "ok".
Proof.
  intros HL Hraw Hc Hb Hocc.
  destruct (past_early_returns U raw decode HL Hraw Hc Hb) as (S & C & B & P).
  assert (E : codes_of decode = []).
  { destruct (codes_of decode) eqn:E; [reflexivity|].
    exfalso. apply Hocc, collect_codes_iff. fold (codes_of decode). now rewrite E. }
  rewrite (snowtam_severity_codes raw decode S C B), E, P. cbn [list_min].
  split; [reflexivity|].
  destruct (in_a_block (lit " POOR") raw decode); cbn [fst]; vm_compute; discriminate.
Qed.

Lemma unparsed_codes_fallback_witness :
  Lawful ascii_tables
  /\ @snowtam_severity ascii_tables sample_raw (lit "Runway 13L surface condition code 5 5")
     = (lit "yellow", lit "Could not parse RWYCC; SNOWTAM present")
  /\ @snowtam_severity ascii_tables sample_raw
       (lit "Apron poor. Runway 13L surface condition code 5 5")
     = (lit "orange", lit "Could not parse RWYCC; POOR movement area noted").
Proof.
  split; [exact ascii_tables_lawful|]. split.
  - refine (eq_trans (proj1 (unparsed_codes_fallback ascii_tables sample_raw
                               (lit "Runway 13L surface condition code 5 5")
                               ascii_tables_lawful _ _ _ _)) _).
    + vm_compute. reflexivity.
    + intros k [<-|[<-|[<-|[<-|[]]]]]; vm_compute; reflexivity.
    + vm_compute. reflexivity.
    + intros E. apply collect_codes_iff in E. apply E. vm_compute. reflexivity.
    + vm_compute. reflexivity.
  - refine (eq_trans (proj1 (unparsed_codes_fallback ascii_tables sample_raw
                               (lit "Apron poor. Runway 13L surface condition code 5 5")
                               ascii_tables_lawful _ _ _ _)) _).
    + vm_compute. reflexivity.
    + intros k [<-|[<-|[<-|[<-|[]]]]]; vm_compute; reflexivity.
    + vm_compute. reflexivity.
    + intros E. apply collect_codes_iff in E. apply E. vm_compute. reflexivity.
    + vm_compute. reflexivity.
Defined.

(** C4 as stated fails: " POOR" is in the upper-cased text of the raw block
    followed by the decode block, no code is found, and the result is the
    yellow fallback. *)
Lemma fallback_across_junction_counterexample :
  forallb isspace junction_raw = false
  /\ existsb (fun k => contains k (@upper ascii_tables (junction_raw ++ lit "OOR")))
       closure_indicators = false
  /\ contains (lit "BRAKING ACTION") (@upper ascii_tables (junction_raw ++ lit "OOR")) = false
  /\ finditer_codes (@upper ascii_tables (lit "OOR")) []
  /\ contains (lit " POOR") (@upper ascii_tables (junction_raw ++ lit "OOR")) = true
  /\ @snowtam_severity ascii_tables junction_raw (lit "OOR")
     = (lit "yellow", lit "Could not parse RWYCC; SNOWTAM present").
Proof.
  split; [vm_compute; reflexivity|]. split; [vm_compute; reflexivity|].
  split; [vm_compute; reflexivity|].
  split; [apply finditer_codes_iff; vm_compute; reflexivity|].
  split; vm_compute; reflexivity.
Qed.

(** X4. the closure test looks for four words, and two of them decide
    nothing: a text holds one of the four exactly when it holds CLOSED or
    CLSD. *)
Theorem closure_test_two_words (text : str) :
  existsb (fun k => contains k text) closure_indicators
  = contains (lit "CLOSED") text || contains (lit "CLSD") text.
Proof.
  unfold closure_indicators. cbn [existsb]. rewrite orb_false_r.
  destruct (contains (lit "CLOSED") text); [reflexivity|].
  destruct (contains (lit "CLSD") text) eqn:E; [reflexivity|]. cbn [orb].
  assert (R : forall p, contains (p ++ lit "CLSD") text = false).
  { intros p. destruct (contains (p ++ lit "CLSD") text) eqn:E'; [|reflexivity].
    apply contains_iff in E' as (pre & suf & ->).
    rewrite <- E. symmetry. apply contains_iff. exists (pre ++ p), suf.
    now rewrite <- !app_assoc. }
  pose proof (R (lit "RWY ")) as R1. pose proof (R (lit "RUNWAY ")) as R2.
  change (lit "RWY " ++ lit "CLSD") with (lit "RWY CLSD") in R1.
  change (lit "RUNWAY " ++ lit "CLSD") with (lit "RUNWAY CLSD") in R2.
  now rewrite R1, R2.
Qed.

Lemma tier_of_present_report (U : Unicode) (raw decode : str) :
  strip raw <> [] ->
  In (fst (snowtam_severity raw decode)) [lit "yellow"; lit "orange"; lit "red"].
Proof.
  intros E. unfold snowtam_severity. apply str_eqb_neq in E. rewrite E.
  destruct (existsb _ _); [cbn; tauto|].
  destruct (_ && _); [cbn; tauto|].
  destruct (list_min (codes_of decode)) as [m|]; cbn [fst].
  - destruct (m <=? 2); [rewrite andb_false_r; cbn; tauto|].
    destruct ((3 <=? m) && (m <=? 4)); [rewrite andb_false_r; cbn; tauto|].
    destruct (contains (lit " POOR") (scanned raw decode)); cbn; tauto.
  - destruct (contains (lit " POOR") (scanned raw decode)); cbn; tauto.
Qed.

(** X1. the tier is one of ok, yellow, orange and red, and it is ok exactly
    when the raw block is blank: a report that is present is never
    classified ok. *)
Theorem tier_ok_iff_blank (U : Unicode) (raw decode : str) :
  In (fst (snowtam_severity raw decode)) [lit "ok"; lit "yellow"; lit "orange"; lit "red"]
  /\ (fst (snowtam_severity raw decode) = lit "ok" <-> strip raw = []).
Proof.
  destruct (list_eq_dec N.eq_dec (strip raw) []) as [E|E].
  - assert (B : forallb isspace raw = true) by now apply strip_nil_inv.
    unfold snowtam_severity. rewrite (strip_blank raw B). cbn. tauto.
  - pose proof (tier_of_present_report U raw decode E) as H.
    split; [now right|]. split; [|contradiction].
    intros K. rewrite K in H. vm_compute in H. intuition discriminate.
Qed.

(** The word [k], written in capitals, occurs in [s] in some mix of ASCII
    upper and lower case. *)
Definition occurs_any_case (k s : str) : Prop :=
  exists pre v suf, s = pre ++ v ++ suf /\ map ascii_upper v = k
                    /\ Forall (fun c => c < 128) v.

Lemma upper_ascii_word (U : Unicode) v :
  Lawful U -> Forall (fun c => c < 128) v -> upper v = map ascii_upper v.
Proof.
  intros HL H. induction H as [|c v Hc Hv IH]; [reflexivity|].
  unfold upper in *. cbn [flat_map map]. rewrite IH, (upper_char_ascii U HL) by exact Hc.
  reflexivity.
Qed.

Lemma occurs_any_case_found (U : Unicode) k s :
  Lawful U -> occurs_any_case k s -> contains k (upper s) = true.
Proof.
  intros HL (pre & v & suf & -> & <- & Hv). rewrite !upper_app, (upper_ascii_word U v HL Hv).
  apply contains_iff. eauto.
Qed.

(** X2. with a raw block that is not blank and no closure word, BRAKING
    ACTION in the raw or the decode block and POOR in the raw or the decode
    block, each in any mix of case and not necessarily next to each other,
    give [("red", "Braking action POOR")], whatever the codes. *)
Theorem braking_action_poor_is_red (U : Unicode) (raw decode : str) :
  Lawful U ->
  strip raw <> [] ->
  no_closure raw decode ->
  occurs_any_case (lit "BRAKING ACTION") raw
    \/ occurs_any_case (lit "BRAKING ACTION") decode ->
  occurs_any_case (lit "POOR") raw \/ occurs_any_case (lit "POOR") decode ->
  snowtam_severity raw decode = (lit "red", lit "Braking action POOR").
Proof.
  intros HL Hraw Hc Hb Hp. unfold snowtam_severity.
  apply str_eqb_neq in Hraw. rewrite Hraw, (no_closure_existsb _ _ Hc).
  assert (K : forall k, ~ In 10 k ->
            occurs_any_case k raw \/ occurs_any_case k decode ->
            contains k (scanned raw decode) = true).
  { intros k Hk H. apply scanned_has_block_keyword.
    destruct H as [H|H]; [left | right]; now apply occurs_any_case_found. }
  rewrite (K (lit "BRAKING ACTION")), (K (lit "POOR")); try assumption; try reflexivity;
    vm_compute; intuition discriminate.
Qed.

Lemma braking_action_poor_is_red_witness :
  Lawful ascii_tables
  /\ @snowtam_severity ascii_tables sample_raw
       (lit "Braking action on runway 13L: poor. Surface condition code 5 5 5")
     = (lit "red", lit "Braking action POOR").
Proof.
  split; [exact ascii_tables_lawful|].
  apply (braking_action_poor_is_red ascii_tables); [exact ascii_tables_lawful | | | |].
  - vm_compute. discriminate.
  - intros k [<-|[<-|[<-|[<-|[]]]]]; vm_compute; reflexivity.
  - right. exists [], (lit "Braking action"), (lit " on runway 13L: poor. Surface condition code 5 5 5").
    repeat split. apply Forall_forall. intros c Hc. vm_compute in Hc.
    repeat (destruct Hc as [<-|Hc]; [lia|]). contradiction.
  - right. exists (lit "Braking action on runway 13L: "), (lit "poor"),
      (lit ". Surface condition code 5 5 5").
    repeat split. apply Forall_forall. intros c Hc. vm_compute in Hc.
    repeat (destruct Hc as [<-|Hc]; [lia|]). contradiction.
Defined.

(** ** More on the extractor *)

Lemma search_word_contains (U : Unicode) w prev s :
  search_word w prev s = true -> contains w s = true.
Proof.
  revert prev. induction s as [|c s IH]; intros prev H.
  - cbn [search_word] in H. rewrite orb_false_r in H. apply andb_prop in H as [_ H].
    destruct (expect w []) as [r|] eqn:E; [|discriminate].
    apply expect_inv in E. apply contains_iff. exists [], r. exact E.
  - cbn [search_word] in H. apply orb_prop in H as [H|H].
    + apply andb_prop in H as [_ H].
      destruct (expect w (c :: s)) as [r|] eqn:E; [|discriminate].
      apply expect_inv in E. apply contains_iff. exists [], r. exact E.
    + apply IH in H. apply contains_iff in H as (pre & suf & ->).
      apply contains_iff. now exists (c :: pre), suf.
Qed.

(** X6. the second test of the start loop never decides: a line passes the
    start tests exactly when it passes the first or the third. *)
Theorem start_test_second_is_subsumed (U : Unicode) (rest : list str) :
  is_start rest
  = match rest with
    | [] => false
    | ln :: _ =>
        (startswith (lit "SW") ln
         && contains (lit "SNOWTAM") (join (lit " ") (firstn 5 rest)))
        || (startswith (lit "SW") ln && (3 <=? List.length (split ln))%nat
            && match nth_error (split ln) 1 with
               | Some tok => is_site_code tok
               | None => false
               end)
    end.
Proof.
  destruct rest as [|ln rest]; [reflexivity|]. unfold is_start.
  destruct (startswith (lit "SW") ln); [|reflexivity]. cbn [andb].
  destruct (contains (lit "SNOWTAM") (join (lit " ") (firstn 5 (ln :: rest)))) eqn:C;
    [reflexivity|]. cbn [orb].
  destruct (search_word (lit "SNOWTAM") None ln) eqn:W; [|reflexivity].
  exfalso. apply search_word_contains in W.
  assert (C' : contains (lit "SNOWTAM") (join (lit " ") (firstn 5 (ln :: rest))) = true).
  { change (firstn 5 (ln :: rest)) with (ln :: firstn 4 rest).
    destruct (firstn 4 rest) as [|q r]; [exact W|].
    rewrite join_cons. now apply contains_app_l. }
  rewrite C' in C. discriminate.
Qed.

(** The end-of-report test of the collecting loop. *)
Definition closes (ln : str) : bool :=
  endswith (lit ").") (strip ln) || endswith (lit ")") (strip ln).

Lemma collect_raw_stops window before closing after :
  contains decode_heading (join NL window) = true ->
  forallb (fun ln => negb (closes ln)) before = true ->
  closes closing = true ->
  collect_raw window (before ++ closing :: after) = before ++ [closing].
Proof.
  intros W Hb Hc. induction before as [|ln before IH]; cbn [app collect_raw].
  - fold (closes closing). now rewrite Hc, W.
  - cbn [forallb] in Hb. apply andb_prop in Hb as [Hln Hb].
    apply negb_true_iff in Hln. fold (closes ln). rewrite Hln. cbn [andb].
    f_equal. now apply IH.
Qed.

Lemma find_start_first (U : Unicode) lines start :
  is_start (skipn start lines) = true ->
  (forall j, (j < start)%nat -> is_start (skipn j lines) = false) ->
  find_start lines = Some start.
Proof.
  intros Hs Hmin. destruct (find_start lines) as [i|] eqn:F.
  - destruct (find_start_some U _ _ F) as [H1 H2]. f_equal.
    destruct (Nat.lt_trichotomy i start) as [L|[E|G]]; [|exact E|].
    + rewrite (Hmin i L) in H1. discriminate.
    + rewrite (H2 start G) in Hs. discriminate.
  - apply find_start_none with (i := start) in F. congruence.
Qed.

(** X7. when the decode heading is within the 120 lines from the start line
    on, the raw block ends with the first line, from the start line on, that
    ends with [)] or [).]: it is the lines before that one and that one,
    joined by line breaks, and nothing after it. *)
Theorem raw_block_stops_at_closing_line (U : Unicode) (text : str) (start : nat)
    (before after : list str) (closing : str) :
  is_start (skipn start (nonblank_lines text)) = true ->
  (forall j, (j < start)%nat -> is_start (skipn j (nonblank_lines text)) = false) ->
  skipn start (nonblank_lines text) = before ++ closing :: after ->
  forallb (fun ln => negb (closes ln)) before = true ->
  closes closing = true ->
  contains decode_heading (join NL (firstn 120 (skipn start (nonblank_lines text)))) = true ->
  raw_block text = join NL (before ++ [closing]).
Proof.
  intros Hs Hmin E Hb Hc W. unfold raw_block.
  rewrite (find_start_first U _ _ Hs Hmin).
  destruct (is_start_head U _ Hs) as (ln & rest & t & Els & _).
  rewrite E at 2. rewrite (collect_raw_stops _ before closing after W Hb Hc).
  destruct (nonblank_line_end text closing) as (m & d & El & Hd).
  { apply (in_skipn _ start). rewrite E. apply in_or_app. right. now left. }
  assert (Hne : before ++ [closing] <> []) by (destruct before; discriminate).
  assert (Hlast : last (before ++ [closing]) [] = m ++ [d]) by (now rewrite last_last).
  destruct (join_last NL _ m d Hne Hlast) as [m' Ej].
  assert (Eh : exists u, join NL (before ++ [closing]) = 83 :: u).
  { rewrite E in Els. destruct before as [|b before].
    - cbn [app] in Els |- *. injection Els as -> _. cbn [join]. eauto.
    - cbn [app] in Els |- *. injection Els as -> _.
      destruct (before ++ [closing]) eqn:B; [destruct before; discriminate|].
      rewrite join_cons. cbn [app]. eauto. }
  destruct Eh as [u Eu]. exact (strip_fixed _ 83 u m' d Eu Ej eq_refl Hd).
Qed.

Lemma raw_block_stops_at_closing_line_witness :
  @raw_block ascii_tables sample_page
  = lit "SWLH0012 LHBP 01090622" ++ NL ++ lit "(SNOWTAM 0012" ++ NL
    ++ lit "LHBP 01090612 13L 5/5/5 100/100/100 NR/NR/NR WET/WET/WET)".
Proof.
  rewrite (raw_block_stops_at_closing_line ascii_tables sample_page 1
             [lit "SWLH0012 LHBP 01090622"; lit "(SNOWTAM 0012"]
             (skipn 4 (nonblank_lines sample_page))
             (lit "LHBP 01090612 13L 5/5/5 100/100/100 NR/NR/NR WET/WET/WET)")).
  - vm_compute. reflexivity.
  - vm_compute. reflexivity.
  - intros j Hj. assert (j = O) as -> by lia. vm_compute. reflexivity.
  - vm_compute. reflexivity.
  - vm_compute. reflexivity.
  - vm_compute. reflexivity.
  - vm_compute. reflexivity.
Defined.

Lemma raw_block_nonempty (U : Unicode) text i :
  find_start (nonblank_lines text) = Some i -> raw_block text <> [].
Proof.
  intros F. unfold raw_block. rewrite F.
  destruct (find_start_some U _ _ F) as [H1 _].
  destruct (is_start_head U _ H1) as (ln & rest & t & -> & _). cbn [collect_raw].
  destruct (_ && _); now apply strip_join_head.
Qed.

(** X8. the raw block is empty exactly when no line passes the start test;
    so [hasSnowtam] of a record says that a start line was found. *)
Theorem raw_block_empty_iff_no_start (U : Unicode) (text : str) :
  raw_block text = [] <-> forall i, is_start (skipn i (nonblank_lines text)) = false.
Proof.
  split.
  - intros E. apply find_start_none. destruct (find_start (nonblank_lines text)) as [i|] eqn:F;
      [|reflexivity].
    now destruct (raw_block_nonempty U text i F).
  - intros H. apply find_start_none in H. unfold raw_block. now rewrite H.
Qed.

(** The characters of the separator bytes. *)
Definition separator_text : str := NL ++ lit "---" ++ NL.

Lemma utf8_app a b : utf8 (a ++ b) = utf8 a ++ utf8 b.
Proof. unfold utf8. apply flat_map_app. Qed.

(** X14. the separator does not frame the blocks: a piece that follows the
    text of the separator at the end of one block can be moved to the front
    of the next block without changing the bytes that are hashed, so two
    different records have the same fingerprint. *)
Theorem fingerprint_separator_shift (a b c o : str) :
  trimmed (a ++ separator_text ++ b) -> trimmed a -> trimmed c ->
  trimmed (b ++ separator_text ++ c) ->
  record_hash (a ++ separator_text ++ b) c o = record_hash a (b ++ separator_text ++ c) o.
Proof.
  unfold trimmed, record_hash, stable_hash. intros -> -> -> ->.
  f_equal. f_equal. rewrite !hashed_bytes_three, !utf8_app.
  change (utf8 separator_text) with separator. now rewrite <- !app_assoc.
Qed.

Lemma fingerprint_separator_shift_witness :
  str_eqb (lit "SW1" ++ separator_text ++ lit "x") (lit "SW1") = false
  /\ record_hash (lit "SW1" ++ separator_text ++ lit "x") (lit "y") (lit "z")
     = record_hash (lit "SW1") (lit "x" ++ separator_text ++ lit "y") (lit "z").
Proof.
  split; [reflexivity|].
  apply fingerprint_separator_shift; reflexivity.
Defined.

(** * The rest of the program *)

(** ** [read_airports_txt] *)

(** [a < b] on strings, as Python compares them: code point by code point,
    a proper prefix first. *)
Fixpoint str_ltb (a b : str) : bool :=
  match a, b with
  | _, [] => false
  | [], _ :: _ => true
  | x :: a', y :: b' => (x <? y) || ((x =? y) && str_ltb a' b')
  end.

(** One step of [sorted(set(...))]: [x] put at its place, once. *)
Fixpoint insert_sorted (x : str) (l : list str) : list str :=
  match l with
  | [] => [x]
  | y :: l' =>
      if str_ltb x y then x :: l
      else if str_eqb x y then l
      else y :: insert_sorted x l'
  end.

(** [sorted(set(l))]. *)
Definition sorted_set (l : list str) : list str := fold_right insert_sorted [] l.

(** The loop of [read_airports_txt] over the lines of the file: the codes
    appended to [icaos], and the codes reported on the error stream as
    skipped. *)
Fixpoint read_codes {U : Unicode} (lines : list str) : list str * list str :=
  match lines with
  | [] => ([], [])
  | line :: rest =>
      let code := upper (strip line) in
      let '(icaos, skipped) := read_codes rest in
      if str_eqb code [] then (icaos, skipped)
      else if negb (is_site_code code) then (icaos, code :: skipped)
      else (code :: icaos, skipped)
  end.

(** [read_airports_txt]; [lines] are the lines of the file at [path]. *)
Definition read_airports_txt {U : Unicode} (lines : list str) : list str :=
  sorted_set (fst (read_codes lines)).

Definition str_lt (a b : str) : Prop := str_ltb a b = true.

Lemma str_ltb_irrefl a : str_ltb a a = false.
Proof.
  induction a as [|x a IH]; [reflexivity|]. cbn [str_ltb].
  now rewrite N.ltb_irrefl, N.eqb_refl, IH.
Qed.

Lemma str_ltb_trans a b c : str_ltb a b = true -> str_ltb b c = true -> str_ltb a c = true.
Proof.
  revert b c. induction a as [|x a IH]; intros [|y b] [|z c]; cbn [str_ltb]; try discriminate;
    try reflexivity.
  intros H1 H2. apply orb_true_iff in H1, H2. apply orb_true_iff.
  rewrite !andb_true_iff, !N.ltb_lt, !N.eqb_eq in *.
  destruct H1 as [H1|[-> H1]]; destruct H2 as [H2|[-> H2]]; eauto; left; lia.
Qed.

Lemma str_ltb_total a b : str_ltb a b = false -> a <> b -> str_ltb b a = true.
Proof.
  revert b. induction a as [|x a IH]; intros [|y b]; cbn [str_ltb]; try discriminate;
    try reflexivity; try congruence.
  intros H Hne. apply orb_false_iff in H as [H1 H2]. apply N.ltb_ge in H1.
  apply orb_true_iff. destruct (N.eqb_spec x y) as [->|Hxy].
  - right. rewrite N.eqb_refl. cbn [andb] in *. apply IH; [exact H2 | congruence].
  - left. apply N.ltb_lt. lia.
Qed.

Lemma insert_sorted_in x y l : In y (insert_sorted x l) <-> y = x \/ In y l.
Proof.
  induction l as [|z l IH]; cbn [insert_sorted].
  - simpl. intuition.
  - destruct (str_ltb x z); [simpl; intuition|].
    destruct (str_eqb x z) eqn:E.
    + apply str_eqb_eq in E. subst z. simpl. intuition.
    + simpl. rewrite IH. intuition.
Qed.

Lemma insert_sorted_hd x z l :
  str_ltb z x = true -> Forall (str_lt z) l -> Forall (str_lt z) (insert_sorted x l).
Proof.
  intros Hzx H. apply Forall_forall. intros y Hy. apply insert_sorted_in in Hy as [->|Hy];
    [exact Hzx|]. rewrite Forall_forall in H. now apply H.
Qed.

Lemma insert_sorted_sorted x l :
  StronglySorted str_lt l -> StronglySorted str_lt (insert_sorted x l).
Proof.
  intros H. induction H as [|z l Hl IH Hz]; cbn [insert_sorted].
  - repeat constructor.
  - destruct (str_ltb x z) eqn:L.
    + constructor; [now constructor|]. constructor; [exact L|].
      apply Forall_forall. intros y Hy. rewrite Forall_forall in Hz.
      apply (str_ltb_trans x z y L). now apply Hz.
    + destruct (str_eqb x z) eqn:E; [now constructor|].
      apply str_eqb_neq in E. constructor; [exact IH|].
      apply insert_sorted_hd; [now apply str_ltb_total | exact Hz].
Qed.

Lemma sorted_set_sorted l : StronglySorted str_lt (sorted_set l).
Proof.
  induction l as [|x l IH]; cbn [sorted_set fold_right]; [constructor|].
  now apply insert_sorted_sorted.
Qed.

Lemma sorted_set_in l y : In y (sorted_set l) <-> In y l.
Proof.
  induction l as [|x l IH]; cbn [sorted_set fold_right]; [reflexivity|].
  fold (sorted_set l). rewrite insert_sorted_in, IH. simpl. intuition.
Qed.

Lemma read_codes_in (U : Unicode) lines code :
  In code (fst (read_codes lines))
  <-> exists line, In line lines /\ code = upper (strip line) /\ is_site_code code = true.
Proof.
  induction lines as [|line rest IH]; cbn [read_codes].
  - simpl. split; [contradiction | intros (? & [] & _)].
  - destruct (read_codes rest) as [icaos skipped]. cbn [fst] in IH.
    destruct (str_eqb (upper (strip line)) []) eqn:E; cbn [fst].
    + rewrite IH. split.
      * intros (l & Hl & H). exists l. split; [now right | exact H].
      * intros (l & [<-|Hl] & -> & H); [|eauto].
        apply str_eqb_eq in E. rewrite E in H. discriminate.
    + destruct (is_site_code (upper (strip line))) eqn:V; cbn [negb fst].
      * simpl. rewrite IH. split.
        -- intros [<-|(l & Hl & H)]; [exists line; auto | exists l; split; [now right | exact H]].
        -- intros (l & [<-|Hl] & -> & H); [now left | right; eauto].
      * rewrite IH. split.
        -- intros (l & Hl & H). exists l. split; [now right | exact H].
        -- intros (l & [<-|Hl] & -> & H); [congruence | eauto].
Qed.

(** X15. the codes [read_airports_txt] returns are in strictly increasing
    order, so none is repeated; each is four characters from [A-Z] and
    [0-9]; and a code is returned exactly when it is the trimmed,
    upper-cased text of a line of the file and has that form. *)
Theorem read_airports_txt_spec (U : Unicode) (lines : list str) :
  StronglySorted str_lt (read_airports_txt lines)
  /\ NoDup (read_airports_txt lines)
  /\ (forall code, In code (read_airports_txt lines) ->
        List.length code = 4%nat /\ forallb is_upper_alnum code = true)
  /\ (forall code, In code (read_airports_txt lines)
        <-> exists line, In line lines /\ code = upper (strip line)
                         /\ is_site_code code = true).
Proof.
  unfold read_airports_txt.
  assert (S := sorted_set_sorted (fst (read_codes lines))).
  split; [exact S|]. split; [|split].
  - induction S as [|z l Hl IH Hz]; constructor; [|exact IH].
    intros Hin. rewrite Forall_forall in Hz. apply Hz in Hin.
    unfold str_lt in Hin. rewrite str_ltb_irrefl in Hin. discriminate.
  - intros code H. apply sorted_set_in, read_codes_in in H as (l & _ & _ & V).
    unfold is_site_code in V. apply andb_prop in V as [V1 V2].
    apply Nat.eqb_eq in V1. now split.
  - intros code. rewrite sorted_set_in. apply read_codes_in.
Qed.

(** ** [fetch_url] *)

Module Fetch.

(** What one attempt, [urlopen] and [read], comes to: the bytes read, an
    exception of the classes the loop catches ([HTTPError], [URLError],
    [TimeoutError], [OSError]), or an exception of another class. *)
Inductive outcome (data exn : Type) :=
  | Read (d : data)
  | Caught (e : exn)
  | Uncaught (e : exn).
Arguments Read {data exn} d.
Arguments Caught {data exn} e.
Arguments Uncaught {data exn} e.

(** How the call ends: with the bytes, with an exception of an attempt, or
    with the [TypeError] of [raise last_err] when [last_err] is [None]. *)
Inductive result (data exn : Type) :=
  | Returned (d : data)
  | Raised (e : exn)
  | RaisedNone.
Arguments Returned {data exn} d.
Arguments Raised {data exn} e.
Arguments RaisedNone {data exn}.

Section Loop.
Variables data exn : Type.

(** The outcome of the attempt with a given number. *)
Variable attempt_outcome : nat -> outcome data exn.

(** The loop [for attempt in range(1, retries + 1)] from [attempt] on, with
    [remaining] turns left; the second component lists the attempts after
    which the loop slept, for [backoff_s * attempt] seconds each. *)
Fixpoint loop (retries remaining attempt : nat) (last_err : option exn)
  : result data exn * list nat :=
  match remaining with
  | O => (match last_err with Some e => Raised e | None => RaisedNone end, [])
  | S remaining' =>
      match attempt_outcome attempt with
      | Read d => (Returned d, [])
      | Uncaught e => (Raised e, [])
      | Caught e =>
          if (attempt <? retries)%nat then
            let '(r, sleeps) := loop retries remaining' (S attempt) (Some e) in
            (r, attempt :: sleeps)
          else (Raised e, [])
      end
  end.

Definition fetch_url (retries : nat) : result data exn * list nat :=
  loop retries retries 1 None.

(** Attempts [from], ..., [from + n - 1] all fail with a caught exception. *)
Definition all_caught (from n : nat) : Prop :=
  forall j, (from <= j < from + n)%nat -> exists e, attempt_outcome j = Caught e.

(** After [n] caught failures the loop is at attempt [attempt + n], having
    slept after each failure; what that attempt comes to decides the rest. *)
Lemma loop_after_failures retries n attempt remaining last_err :
  all_caught attempt n ->
  (attempt + n <= retries)%nat ->
  (n < remaining)%nat ->
  loop retries remaining attempt last_err
  = match attempt_outcome (attempt + n) with
    | Read d => (Returned d, List.seq attempt n)
    | Uncaught e => (Raised e, List.seq attempt n)
    | Caught e =>
        if (attempt + n <? retries)%nat then
          (fst (loop retries (remaining - n - 1) (S (attempt + n)) (Some e)),
           List.seq attempt n
           ++ (attempt + n)%nat
              :: snd (loop retries (remaining - n - 1) (S (attempt + n)) (Some e)))
        else (Raised e, List.seq attempt n)
    end.
Proof.
  revert attempt remaining last_err.
  induction n as [|n IH]; intros attempt remaining last_err Hc Hr Hn.
  - destruct remaining as [|remaining]; [lia|]. cbn [loop List.seq app].
    rewrite Nat.add_0_r. replace (S remaining - 0 - 1)%nat with remaining by lia.
    destruct (attempt_outcome attempt); try reflexivity.
    destruct (attempt <? retries)%nat; [|reflexivity].
    now destruct (loop retries remaining (S attempt) (Some e)).
  - destruct remaining as [|remaining]; [lia|]. cbn [loop].
    destruct (Hc attempt ltac:(lia)) as [e He]. rewrite He.
    replace (attempt <? retries)%nat with true by (symmetry; apply Nat.ltb_lt; lia).
    rewrite (IH (S attempt) remaining (Some e)); [| |lia|lia].
    + replace (S attempt + n)%nat with (attempt + S n)%nat by lia.
      replace (S remaining - S n - 1)%nat with (remaining - n - 1)%nat by lia.
      cbn [List.seq app].
      destruct (attempt_outcome (attempt + S n)); try reflexivity.
      destruct (attempt + S n <? retries)%nat; reflexivity.
    + intros j Hj. apply Hc. lia.
Qed.

(** X16. [fetch_url] answers with the first attempt that does not fail with
    a caught exception: after [k - 1] caught failures, with [k] no more than
    [retries], it returns what attempt [k] reads, or lets the uncaught
    exception of attempt [k] through, and in both cases it has slept once
    after each of the failures 1 .. [k - 1] and made no further attempt. *)
Theorem fetch_url_first_answer (retries k : nat) :
  (1 <= k <= retries)%nat ->
  all_caught 1 (k - 1) ->
  (forall d, attempt_outcome k = Read d ->
     fetch_url retries = (Returned d, List.seq 1 (k - 1)))
  /\ (forall e, attempt_outcome k = Uncaught e ->
        fetch_url retries = (Raised e, List.seq 1 (k - 1))).
Proof.
  intros Hk Hc. unfold fetch_url.
  rewrite (loop_after_failures retries (k - 1) 1 retries None Hc); [|lia|lia].
  replace (1 + (k - 1))%nat with k by lia.
  split; intros x Hx; now rewrite Hx.
Qed.

(** X17. when each of the [retries] attempts fails with a caught exception,
    [fetch_url] raises the exception of the last attempt, having slept after
    each attempt but the last; with no attempt allowed it raises the
    [TypeError] of [raise None] without any attempt. *)
Theorem fetch_url_gives_up (retries : nat) :
  all_caught 1 retries ->
  match retries with
  | O => fetch_url retries = (RaisedNone, [])
  | S _ => exists e, attempt_outcome retries = Caught e
                     /\ fetch_url retries = (Raised e, List.seq 1 (retries - 1))
  end.
Proof.
  intros Hc. destruct retries as [|r]; [reflexivity|].
  destruct (Hc (S r) ltac:(lia)) as [e He]. exists e. split; [exact He|].
  unfold fetch_url. rewrite (loop_after_failures (S r) r 1 (S r) None); [| |lia|lia].
  - replace (1 + r)%nat with (S r) by lia. rewrite He.
    replace (S r <? S r)%nat with false by (symmetry; apply Nat.ltb_ge; lia).
    now replace (S r - 1)%nat with r by lia.
  - intros j Hj. apply Hc. lia.
Qed.

End Loop.
End Fetch.

Definition sample_attempts (n : nat) : Fetch.outcome str nat :=
  if (n <? 3)%nat then Fetch.Caught n else Fetch.Read (lit "page").

Lemma fetch_url_first_answer_witness :
  Fetch.fetch_url str nat sample_attempts 5 = (Fetch.Returned (lit "page"), [1; 2]%nat).
Proof.
  refine (proj1 (Fetch.fetch_url_first_answer str nat sample_attempts 5 3 _ _) _ _).
  - lia.
  - intros j Hj. exists j. unfold sample_attempts.
    replace (j <? 3)%nat with true by (symmetry; apply Nat.ltb_lt; lia). reflexivity.
  - reflexivity.
Defined.

Lemma fetch_url_gives_up_witness :
  exists e, sample_attempts 2 = Fetch.Caught e
            /\ Fetch.fetch_url str nat sample_attempts 2 = (Fetch.Raised e, [1]%nat).
Proof.
  apply (Fetch.fetch_url_gives_up str nat sample_attempts 2).
  intros j Hj. exists j. unfold sample_attempts.
  replace (j <? 3)%nat with true by (symmetry; apply Nat.ltb_lt; lia). reflexivity.
Defined.

(** ** The status record of [main] *)

(** A letter of a pattern compiled with [re.IGNORECASE] against a character
    of the text: the two ASCII cases, and for S also the long s, U+017F,
    which the regular-expression engine treats as a case of s. *)
Definition letter_ci (a c : char) : bool :=
  (ascii_upper c =? ascii_upper a) || ((ascii_upper a =? 83) && (c =? 383)).

Fixpoint expect_ci (p s : str) : option str :=
  match p, s with
  | [], _ => Some s
  | _ :: _, [] => None
  | a :: p', c :: s' => if letter_ci a c then expect_ci p' s' else None
  end.

(** [\(SNOWTAM\s+([0-9]{4})], case ignored, matched at the start of [s]: the
    text of group 1. *)
Definition match_number (s : str) : option str :=
  s <- expect_ci (lit "(SNOWTAM") s ;;
  s <- spaces1 s ;;
  _ <- digits 4 s ;;
  Some (firstn 4 s).

Fixpoint search_number (s : str) : option str :=
  match match_number s with
  | Some g => Some g
  | None =>
      match s with
      | [] => None
      | _ :: s' => search_number s'
      end
  end.

Definition truthy (s : str) : bool := negb (str_eqb s []).

(** The dictionary [main] stores for a site whose page was fetched and
    rendered. *)
Record status := {
  st_icao : str;
  st_hasSnowtam : bool;
  st_severity : str;
  st_receivedUtc : option str;
  st_receivedText : str;
  st_snowtamNumber : str;
  st_raw : str;
  st_decode : str;
  st_decodeOpposite : str;
  st_summary : str;
  st_hash : str;
  st_url : str
}.

(** The dictionary [main] stores for a site when the [try] raised. *)
Record failure := {
  fl_icao : str;
  fl_hasSnowtam : bool;
  fl_severity : str;
  fl_receivedUtc : option str;
  fl_error : str;
  fl_hash : str;
  fl_url : str
}.

Inductive site_record : Type :=
| Stored (r : status)
| Failed (f : failure).

(** The lines of the [try] after [extract_text_blocks] has returned. *)
Definition stored_status {U : Unicode} (icao url : str) (b : blocks) : status :=
  let received_iso := received_to_iso (received b) in
  let has_snowtam := truthy (strip (raw b)) in
  let '(sev, summary) := snowtam_severity (raw b) (decode b) in
  let snowtam_no := match search_number (raw b) with Some g => g | None => [] end in
  let h := stable_hash [strip (raw b); strip (decode b); strip (decode2 b)] in
  {| st_icao := icao;
     st_hasSnowtam := has_snowtam;
     st_severity := if negb has_snowtam then lit "ok" else sev;
     st_receivedUtc := received_iso;
     st_receivedText := received b;
     st_snowtamNumber := snowtam_no;
     st_raw := strip (raw b);
     st_decode := strip (decode b);
     st_decodeOpposite := strip (decode2 b);
     st_summary := summary;
     st_hash := h;
     st_url := url |}.

(** The body of the [try] in the loop of [main]; [fetched] is what
    [fetch_url(url, timeout=35).decode("utf-8", errors="replace")] gave, the
    page or the exception [fetch_url] raised. *)
Definition try_status {U : Unicode} (get_text : str -> answer str) (icao url : str)
    (fetched : answer str) : answer status :=
  match fetched with
  | Raise e => Raise e
  | Return html =>
      match extract_text_blocks get_text html with
      | Raise e => Raise e
      | Return b => Return (stored_status icao url b)
      end
  end.

(** One turn of the loop of [main]: the [try] and its [except Exception]. *)
Definition site_status {U : Unicode} (get_text : str -> answer str) (icao url : str)
    (fetched : answer str) : site_record :=
  match try_status get_text icao url fetched with
  | Return r => Stored r
  | Raise e =>
      Failed {| fl_icao := icao;
                fl_hasSnowtam := false;
                fl_severity := lit "unknown";
                fl_receivedUtc := None;
                fl_error := e;
                fl_hash := stable_hash [lit "error"; e];
                fl_url := url |}
  end.

(** The keys every record has. *)
Definition severity_of (r : site_record) : str :=
  match r with Stored s => st_severity s | Failed f => fl_severity f end.

Definition has_snowtam_of (r : site_record) : bool :=
  match r with Stored s => st_hasSnowtam s | Failed f => fl_hasSnowtam f end.

Lemma stored_status_fields (U : Unicode) (icao url text : str) :
  let b := blocks_of_text text in
  let r := stored_status icao url b in
  st_raw r = raw b /\ st_decode r = decode b /\ st_decodeOpposite r = decode2 b
  /\ st_hash r = stable_hash [raw b; decode b; decode2 b]
  /\ (st_severity r, st_summary r) = snowtam_severity (raw b) (decode b)
  /\ (st_severity r = lit "ok" <-> st_hasSnowtam r = false)
  /\ (st_hasSnowtam r = false
      <-> forall i, is_start (skipn i (nonblank_lines text)) = false).
Proof.
  cbn zeta. unfold stored_status.
  pose proof (raw_block_trimmed U text) as Tr.
  pose proof (slice_between_trimmed text decode_heading opposite_heading) as Td.
  pose proof (slice_between_trimmed text opposite_heading voice_marker) as Td2.
  unfold trimmed in Tr, Td, Td2.
  change (raw_block text) with (raw (blocks_of_text text)) in Tr.
  change (slice_between text decode_heading opposite_heading)
    with (decode (blocks_of_text text)) in Td.
  change (slice_between text opposite_heading voice_marker)
    with (decode2 (blocks_of_text text)) in Td2.
  set (b := blocks_of_text text) in *.
  destruct (snowtam_severity (raw b) (decode b)) as [sev summary] eqn:E.
  cbn [st_raw st_decode st_decodeOpposite st_hash st_severity st_summary st_hasSnowtam].
  rewrite Tr, Td, Td2.
  assert (Hok : sev = lit "ok" <-> strip (raw b) = []).
  { split.
    - intros K. destruct (list_eq_dec N.eq_dec (strip (raw b)) []) as [B|B]; [exact B|].
      pose proof (tier_of_present_report U (raw b) (decode b) B) as H.
      rewrite E in H. cbn [fst] in H. rewrite K in H. vm_compute in H. intuition discriminate.
    - intros B. assert (W : forallb isspace (raw b) = true) by now apply strip_nil_inv.
      unfold snowtam_severity in E. rewrite (strip_blank _ W) in E.
      change (str_eqb [] []) with true in E. cbv iota in E. now injection E as <- _. }
  rewrite Tr in Hok. unfold truthy.
  repeat (split; [reflexivity|]).
  split; [|split].
  - destruct (str_eqb (raw b) []) eqn:B; cbn [negb]; [|reflexivity].
    f_equal. symmetry. apply Hok. now apply str_eqb_eq.
  - destruct (str_eqb (raw b) []) eqn:B; cbn [negb].
    + split; reflexivity.
    + apply str_eqb_neq in B. split; [intros H; now apply Hok in H | discriminate].
  - rewrite negb_false_iff, str_eqb_eq. unfold b, blocks_of_text.
    cbn [raw]. rewrite <- find_start_none. split.
    + intros B. destruct (find_start (nonblank_lines text)) as [i|] eqn:F;
        [|reflexivity].
      now destruct (raw_block_nonempty U text i F).
    + intros F. unfold raw_block. now rewrite F.
Qed.

(** X18. one turn of the loop of [main] stores one of two records.  When the
    page was fetched and the parser rendered it, the three blocks of the
    record are the blocks of the extractor as they are (trimming them again
    changes nothing), the hash is the fingerprint of those blocks, the
    severity and the summary are the classifier's (the override to ok never
    changes the tier), the severity is ok exactly when [hasSnowtam] is
    false, and that is exactly when no line of the page passes the start
    test.  When [fetch_url] or the parser raised, the record has the
    severity unknown, [hasSnowtam] false, no time, the text of the exception
    and the hash of the word error and that text.  So in every record a
    severity ok comes with [hasSnowtam] false, and [hasSnowtam] false comes
    with the severity ok or unknown. *)
Theorem site_status_fields (U : Unicode) (get_text : str -> answer str)
    (icao url : str) (fetched : answer str) :
  let out := site_status get_text icao url fetched in
  (forall html text, fetched = Return html -> get_text html = Return text ->
     let b := blocks_of_text text in
     exists r, out = Stored r
       /\ st_raw r = raw b /\ st_decode r = decode b /\ st_decodeOpposite r = decode2 b
       /\ st_hash r = stable_hash [raw b; decode b; decode2 b]
       /\ (st_severity r, st_summary r) = snowtam_severity (raw b) (decode b)
       /\ (st_severity r = lit "ok" <-> st_hasSnowtam r = false)
       /\ (st_hasSnowtam r = false
           <-> forall i, is_start (skipn i (nonblank_lines text)) = false))
  /\ (forall e,
        fetched = Raise e
        \/ (exists html, fetched = Return html /\ get_text html = Raise e) ->
        out = Failed {| fl_icao := icao; fl_hasSnowtam := false;
                        fl_severity := lit "unknown"; fl_receivedUtc := None;
                        fl_error := e; fl_hash := stable_hash [lit "error"; e];
                        fl_url := url |})
  /\ (severity_of out = lit "ok" -> has_snowtam_of out = false)
  /\ (has_snowtam_of out = false ->
      severity_of out = lit "ok" \/ severity_of out = lit "unknown").
Proof.
  cbn zeta. unfold site_status, try_status, extract_text_blocks.
  split; [|split].
  - intros html text -> ->. exists (stored_status icao url (blocks_of_text text)).
    split; [reflexivity|]. apply stored_status_fields.
  - intros e [->|(html & -> & ->)]; reflexivity.
  - destruct fetched as [html|e]; [destruct (get_text html) as [text|e]|];
      cbn [severity_of has_snowtam_of fl_severity fl_hasSnowtam].
    + destruct (stored_status_fields U icao url text) as (_ & _ & _ & _ & _ & K & _).
      split; [apply K|]. intros H. left. now apply K.
    + split; [reflexivity | now right].
    + split; [reflexivity | now right].
Qed.

Definition sample_icao : str := lit "LHBP".
Definition sample_url : str :=
  lit "https://flightplan.romatsa.ro/init/notam/getsnowtam?ad=LHBP".

Lemma site_status_fields_witness :
  (exists r, @site_status ascii_tables plain_renderer sample_icao sample_url
               (Return sample_page) = Stored r
             /\ st_raw r = raw (@blocks_of_text ascii_tables sample_page)
             /\ st_hasSnowtam r = true
             /\ (st_severity r, st_summary r)
                = (lit "yellow", lit "minRWYCC=5; poorAreas=False"))
  /\ severity_of (@site_status ascii_tables plain_renderer sample_icao sample_url
                    (Return (lit "<![ x ]>"))) = lit "unknown"
  /\ has_snowtam_of (@site_status ascii_tables plain_renderer sample_icao sample_url
                       (Return (lit "<![ x ]>"))) = false.
Proof.
  destruct (site_status_fields ascii_tables plain_renderer sample_icao sample_url
              (Return sample_page)) as (S & _).
  destruct (S sample_page sample_page eq_refl) as (r & E & R & _ & _ & _ & V & K & _);
    [vm_compute; reflexivity|].
  destruct (site_status_fields ascii_tables plain_renderer sample_icao sample_url
              (Return (lit "<![ x ]>"))) as (_ & F & _).
  rewrite (F (lit "expected name token"))
    by (right; exists (lit "<![ x ]>"); split; vm_compute; reflexivity).
  split; [|split; reflexivity].
  exists r. split; [exact E|]. split; [exact R|].
  assert (C : @snowtam_severity ascii_tables (raw (@blocks_of_text ascii_tables sample_page))
                (decode (@blocks_of_text ascii_tables sample_page))
              = (lit "yellow", lit "minRWYCC=5; poorAreas=False"))
    by (vm_compute; reflexivity).
  rewrite C in V. split; [|exact V].
  destruct (st_hasSnowtam r); [reflexivity|].
  assert (Q : st_severity r = lit "ok") by now apply K.
  rewrite Q in V. discriminate V.
Defined.

Lemma expect_ci_inv p s t :
  expect_ci p s = Some t ->
  exists w, s = w ++ t /\ Forall2 (fun a c => letter_ci a c = true) p w.
Proof.
  revert s. induction p as [|a p IH]; intros s H; cbn [expect_ci] in H.
  - injection H as ->. exists []. split; [reflexivity | constructor].
  - destruct s as [|c s]; [discriminate|].
    destruct (letter_ci a c) eqn:E; [|discriminate].
    destruct (IH _ H) as (w & -> & F). exists (c :: w). split; [reflexivity|].
    now constructor.
Qed.

Lemma search_number_eq s :
  search_number s =
  match match_number s with
  | Some g => Some g
  | None => match s with [] => None | _ :: s' => search_number s' end
  end.
Proof. destruct s; reflexivity. Qed.

Lemma search_number_inv s g :
  search_number s = Some g -> exists pre t, s = pre ++ t /\ match_number t = Some g.
Proof.
  induction s as [|c s IH]; rewrite search_number_eq.
  - destruct (match_number []) eqn:E; [|discriminate]. intros [= <-]. now exists [], [].
  - destruct (match_number (c :: s)) eqn:E.
    + intros [= <-]. now exists [], (c :: s).
    + intros H. destruct (IH H) as (pre & t & -> & M). now exists (c :: pre), t.
Qed.

Lemma stored_number_shape (U : Unicode) (icao url text : str) :
  let r := stored_status icao url (blocks_of_text text) in
  st_snowtamNumber r = []
  \/ (List.length (st_snowtamNumber r) = 4%nat
      /\ forallb is_digit (st_snowtamNumber r) = true
      /\ exists pre word sp post,
           st_raw r = pre ++ word ++ sp ++ st_snowtamNumber r ++ post
           /\ Forall2 (fun a c => letter_ci a c = true) (lit "(SNOWTAM") word
           /\ gap sp).
Proof.
  cbn zeta. unfold stored_status.
  pose proof (raw_block_trimmed U text) as Tr. unfold trimmed in Tr.
  change (raw_block text) with (raw (blocks_of_text text)) in Tr.
  set (b := blocks_of_text text) in *.
  destruct (snowtam_severity (raw b) (decode b)) as [sev summary].
  cbn [st_snowtamNumber st_raw]. rewrite Tr.
  destruct (search_number (raw b)) as [g|] eqn:E; [right | now left].
  apply search_number_inv in E as (pre & t & Eraw & M).
  unfold match_number, bind in M.
  destruct (expect_ci _ t) as [s0|] eqn:E0; [|discriminate].
  destruct (spaces1 s0) as [s1|] eqn:E1; [|discriminate].
  destruct (digits 4 s1) as [s2|] eqn:E2; [|discriminate].
  assert (Eg : g = firstn 4 s1) by congruence. clear M. subst g.
  apply expect_ci_inv in E0 as (word & -> & F).
  apply spaces1_inv in E1 as (sp & G & -> & _).
  apply digits_inv in E2 as (ds & -> & L & D).
  assert (Ef : firstn 4 (ds ++ s2) = ds).
  { rewrite <- L, firstn_app, Nat.sub_diag, firstn_all. simpl. apply app_nil_r. }
  rewrite Ef. split; [exact L|]. split; [exact D|].
  exists pre, word, sp, s2. now rewrite Eraw.
Qed.

(** X19. only the record of a page that was fetched and rendered has a
    SNOWTAM number; it is empty or four ASCII digits, and in the second case
    it stands in the raw block after [(SNOWTAM], in any mix of case, and
    some white space. *)
Theorem snowtam_number_shape (U : Unicode) (get_text : str -> answer str)
    (icao url : str) (fetched : answer str) (r : status) :
  site_status get_text icao url fetched = Stored r ->
  (exists html text, fetched = Return html /\ get_text html = Return text)
  /\ (st_snowtamNumber r = []
      \/ (List.length (st_snowtamNumber r) = 4%nat
          /\ forallb is_digit (st_snowtamNumber r) = true
          /\ exists pre word sp post,
               st_raw r = pre ++ word ++ sp ++ st_snowtamNumber r ++ post
               /\ Forall2 (fun a c => letter_ci a c = true) (lit "(SNOWTAM") word
               /\ gap sp)).
Proof.
  unfold site_status, try_status, extract_text_blocks.
  destruct fetched as [html|e]; [destruct (get_text html) as [text|e] eqn:G|];
    try discriminate.
  intros [= <-]. split; [now exists html, text|]. apply stored_number_shape.
Qed.

Lemma snowtam_number_shape_witness :
  exists r, @site_status ascii_tables plain_renderer sample_icao sample_url
              (Return sample_page) = Stored r
            /\ st_snowtamNumber r = lit "0012"
            /\ List.length (st_snowtamNumber r) = 4%nat
            /\ forallb is_digit (st_snowtamNumber r) = true.
Proof.
  set (r := @stored_status ascii_tables sample_icao sample_url
              (@blocks_of_text ascii_tables sample_page)).
  assert (E : @site_status ascii_tables plain_renderer sample_icao sample_url
                (Return sample_page) = Stored r) by reflexivity.
  assert (N : st_snowtamNumber r = lit "0012") by (vm_compute; reflexivity).
  exists r. split; [exact E|]. split; [exact N|].
  destruct (snowtam_number_shape ascii_tables plain_renderer sample_icao sample_url
              (Return sample_page) r E) as (_ & [Z|(L & D & _)]).
  - rewrite N in Z. discriminate Z.
  - split; [exact L | exact D].
Defined.

(** X12. a text without a colon is never a timestamp: [received_to_iso]
    returns [None] for it. *)
Theorem received_to_iso_needs_colon (U : Unicode) (s : str) :
  Lawful U -> ~ In 58 s -> received_to_iso s = None.
Proof.
  intros HL H. destruct (received_to_iso s) as [t|] eqn:E; [|reflexivity].
  exfalso. apply received_to_iso_some in E as (_ & dt & E & _).
  apply (StrptimeFacts.strptime_spec HL) in E as [A _].
  destruct A as (y & mo & d & w1 & h & mi & w2 & u & -> & _).
  apply H. apply in_or_app. right. right. apply in_or_app. right. right.
  apply in_or_app. right. apply in_or_app. right. apply in_or_app. right. now left.
Qed.

Lemma received_to_iso_needs_colon_witness :
  Lawful ascii_tables /\ @received_to_iso ascii_tables (lit "2026-01-09 06 UTC") = None.
Proof.
  split; [exact ascii_tables_lawful|].
  apply (received_to_iso_needs_colon ascii_tables _ ascii_tables_lawful).
  vm_compute. intuition discriminate.
Defined.

(** X3. with a raw block that is not blank, CLOSED or CLSD in the raw or the
    decode block, in any mix of case, gives
    [("red", "Runway closed indicator found")]. *)
Theorem closed_any_case_is_red (U : Unicode) (raw decode k : str) :
  Lawful U ->
  strip raw <> [] ->
  k = lit "CLOSED" \/ k = lit "CLSD" ->
  occurs_any_case k raw \/ occurs_any_case k decode ->
  snowtam_severity raw decode = (lit "red", lit "Runway closed indicator found").
Proof.
  intros HL Hraw Hk Hocc. unfold snowtam_severity.
  apply str_eqb_neq in Hraw. rewrite Hraw.
  assert (K : contains k (scanned raw decode) = true).
  { apply scanned_has_block_keyword.
    destruct Hocc as [H|H]; [left | right]; now apply occurs_any_case_found. }
  assert (E : existsb (fun w => contains w (scanned raw decode)) closure_indicators = true).
  { apply existsb_exists. exists k. split; [|exact K].
    destruct Hk as [-> | ->]; [now left | right; now left]. }
  now rewrite E.
Qed.

Lemma closed_any_case_is_red_witness :
  Lawful ascii_tables
  /\ @snowtam_severity ascii_tables sample_raw (lit "Runway 13L Closed")
     = (lit "red", lit "Runway closed indicator found").
Proof.
  split; [exact ascii_tables_lawful|].
  apply (closed_any_case_is_red ascii_tables sample_raw (lit "Runway 13L Closed")
           (lit "CLOSED") ascii_tables_lawful).
  - vm_compute. discriminate.
  - now left.
  - right. exists (lit "Runway 13L "), (lit "Closed"), []. repeat split.
    apply Forall_forall. intros c Hc. vm_compute in Hc.
    repeat (destruct Hc as [<-|Hc]; [lia|]). contradiction.
Defined.

(** ** The airports list of [main] *)

Section Airports.

(** Latitudes and longitudes are floating-point numbers; the list only
    passes them on. *)
Variable coord : Type.

Record Airport := {
  ap_icao : str; ap_iata : str; ap_name : str;
  ap_lat : coord; ap_lon : coord; ap_iso_country : str
}.

(** An entry of [airports_payload["airports"]]. *)
Record airport_entry := {
  en_icao : str; en_iata : str; en_name : str;
  en_lat : option coord; en_lon : option coord; en_country : str
}.

(** The loop [for icao in icaos] that fills the list; [idx] is the lookup
    [idx.get]. *)
Definition airports_list (idx : str -> option Airport) (icaos : list str)
  : list airport_entry :=
  map (fun icao =>
         match idx icao with
         | None =>
             {| en_icao := icao; en_iata := []; en_name := lit "(not found in OurAirports)";
                en_lat := None; en_lon := None; en_country := [] |}
         | Some ap =>
             {| en_icao := ap_icao ap; en_iata := ap_iata ap; en_name := ap_name ap;
                en_lat := Some (ap_lat ap); en_lon := Some (ap_lon ap);
                en_country := ap_iso_country ap |}
         end) icaos.

(** X20. when every airport of the index is stored under its own code, as
    both loaders store it, the list has one entry for each requested code,
    in the order of the request, found or not; and an entry has coordinates
    exactly when its code is in the index. *)
Theorem airports_list_follows_request (idx : str -> option Airport) (icaos : list str) :
  (forall k ap, idx k = Some ap -> ap_icao ap = k) ->
  map en_icao (airports_list idx icaos) = icaos
  /\ forall e, In e (airports_list idx icaos) ->
       (en_lat e = None <-> idx (en_icao e) = None)
       /\ (en_lat e = None <-> en_lon e = None).
Proof.
  intros Hidx. unfold airports_list. split.
  - rewrite map_map. rewrite <- (map_id icaos) at 2. apply map_ext. intros k.
    destruct (idx k) as [ap|] eqn:E; cbn [en_icao]; [now apply Hidx | reflexivity].
  - intros e He. apply in_map_iff in He as (k & <- & _).
    destruct (idx k) as [ap|] eqn:E; cbn [en_icao en_lat en_lon].
    + rewrite (Hidx k ap E), E. split; split; discriminate.
    + rewrite E. split; split; reflexivity.
Qed.

End Airports.

Lemma airports_list_follows_request_witness :
  map (en_icao nat)
    (airports_list nat
       (fun k => if str_eqb k (lit "LHBP")
                 then Some {| ap_icao := k; ap_iata := lit "BUD"; ap_name := lit "Budapest";
                              ap_lat := 47%nat; ap_lon := 19%nat;
                              ap_iso_country := lit "HU" |}
                 else None)
       [lit "EGLL"; lit "LHBP"])
  = [lit "EGLL"; lit "LHBP"].
Proof.
  refine (proj1 (airports_list_follows_request nat _ [lit "EGLL"; lit "LHBP"] _)).
  intros k ap. destruct (str_eqb k (lit "LHBP")); [|discriminate]. now intros [= <-].
Defined.

(** ** The first heading inside the second *)

Definition opposite_tail : str := lit " OPPOSITE DIRECTION".

Lemma opposite_heading_split : opposite_heading = decode_heading ++ opposite_tail.
Proof. reflexivity. Qed.

Lemma drop_while_app_stop p (l m : str) d :
  p d = false -> exists q, drop_while p (l ++ d :: m) = q ++ d :: m.
Proof.
  intros Hd. induction l as [|c l [q IH]]; cbn [app drop_while].
  - rewrite Hd. now exists [].
  - destruct (p c); [now exists q | now exists (c :: l)].
Qed.

(** Stripping a text that begins with a space and then a word leaves a text
    that begins with the word. *)
Lemma strip_keeps_word (w x : str) c d :
  isspace c = false -> isspace d = false ->
  exists r, strip (32 :: (c :: w ++ [d]) ++ x) = (c :: w ++ [d]) ++ r.
Proof.
  intros Hc Hd.
  assert (E : (c :: w ++ [d]) ++ x = (c :: w) ++ d :: x)
    by (cbn [app]; now rewrite <- app_assoc).
  rewrite E. unfold strip, lstrip.
  assert (L : drop_while isspace (32 :: (c :: w) ++ d :: x) = (c :: w) ++ d :: x).
  { cbn [drop_while app]. change (isspace 32) with true. cbv iota. now rewrite Hc. }
  rewrite L. unfold rstrip. rewrite rev_app_distr.
  change (rev (d :: x)) with (rev x ++ [d]). rewrite <- app_assoc.
  change ([d] ++ rev (c :: w)) with (d :: rev (c :: w)).
  destruct (drop_while_app_stop isspace (rev x) (rev (c :: w)) d Hd) as [q ->].
  exists (rev q). rewrite rev_app_distr.
  change (rev (d :: rev (c :: w))) with (rev (rev (c :: w)) ++ [d]).
  rewrite rev_involutive. cbn [app]. now rewrite <- !app_assoc.
Qed.

(** X21. the first heading is the beginning of the second.  When the first
    occurrence of UNOFFICIAL PLAIN LANGUAGE DECODE in the page is the
    beginning of an occurrence of the opposite-direction heading, the
    decode block is not empty and not the text of a first block: it begins
    with the words OPPOSITE DIRECTION. *)
Theorem decode_block_of_lone_opposite_heading (U : Unicode) (text : str) (a : nat) :
  first_at decode_heading text 0 a ->
  occurs_at opposite_heading text a ->
  exists rest, decode (blocks_of_text text) = lit "OPPOSITE DIRECTION" ++ rest.
Proof.
  intros Ha (pre & suf & E & Lpre). unfold blocks_of_text. cbn [decode].
  unfold slice_between. rewrite (proj2 (find_first _ _ _) Ha).
  set (start := (a + List.length decode_heading)%nat).
  assert (Hskip : skipn start text = opposite_tail ++ suf).
  { rewrite E, opposite_heading_split, <- app_assoc, app_assoc. unfold start.
    rewrite <- Lpre, <- length_app. rewrite skipn_app, skipn_all, Nat.sub_diag.
    reflexivity. }
  assert (Hstart : (start <= List.length text)%nat).
  { rewrite E, opposite_heading_split. unfold start. rewrite !length_app. lia. }
  assert (Hword : forall x, exists rest,
            strip (opposite_tail ++ x) = lit "OPPOSITE DIRECTION" ++ rest).
  { intros x. exact (strip_keeps_word (lit "PPOSITE DIRECTIO") x 79 78 eq_refl eq_refl). }
  destruct (find_from opposite_heading text start) as [e|] eqn:F.
  - apply find_from_first in F as (Hle & (pre' & suf' & E' & Lpre') & _); [|exact Hstart].
    assert (He : (start + List.length opposite_tail <= e)%nat).
    { destruct (Nat.le_gt_cases (start + List.length opposite_tail) e) as [H|H]; [exact H|].
      exfalso.
      assert (N1 : nth e text 0 = 85).
      { rewrite E', app_nth2 by lia. rewrite Lpre', Nat.sub_diag. reflexivity. }
      assert (N2 : nth e text 0 = nth (e - start) opposite_tail 0).
      { rewrite <- (firstn_skipn start text) at 1.
        rewrite app_nth2 by (rewrite length_firstn; lia).
        rewrite length_firstn, Nat.min_l by exact Hstart.
        rewrite Hskip. apply app_nth1. lia. }
      rewrite N2 in N1.
      assert (T : forall j, (j < List.length opposite_tail)%nat -> nth j opposite_tail 0 <> 85).
      { intros j Hj. cbn in Hj.
        do 19 (destruct j as [|j]; [vm_compute; discriminate|]). lia. }
      apply (T (e - start)%nat); [lia | exact N1]. }
    unfold slice. rewrite Hskip.
    rewrite firstn_app.
    rewrite firstn_all2 by lia.
    apply Hword.
  - unfold slice. rewrite firstn_all2 by (rewrite length_skipn; lia).
    rewrite Hskip. apply Hword.
Qed.

Lemma decode_block_of_lone_opposite_heading_witness :
  exists rest,
    decode (@blocks_of_text ascii_tables
              (lit "x" ++ NL ++ opposite_heading ++ NL ++ lit "Runway 31R" ++ NL
               ++ voice_marker))
    = lit "OPPOSITE DIRECTION" ++ rest.
Proof.
  apply (decode_block_of_lone_opposite_heading ascii_tables _ 2).
  - apply find_first. vm_compute. reflexivity.
  - exists (lit "x" ++ NL), (NL ++ lit "Runway 31R" ++ NL ++ voice_marker).
    split; reflexivity.
Defined.
